(** * minigo: the MCTS player (cc/mcts_player.cc)

    A shallow embedding of [MctsPlayer] and of [TimeRecommendation].

    The file follows the source top to bottom.  The player's collaborators
    ([MctsNode], [Position], [Game], [DualNet], [InferenceCache], [Random],
    the symmetry helpers) are declared in headers that are not part of the
    translated sources; they enter as interfaces (type classes), and a small
    fake of each is given at the end of the definitions so that every
    statement can be run on a concrete tree. *)

From Stdlib Require Import ZArith List Bool Lia String DecimalString.
From Stdlib Require Import QArith Qcanon Field.
From Stdlib Require Import Floats.SpecFloat.
Import ListNotations.

Set Implicit Arguments.
Local Open Scope Z_scope.

(* ===================================================================== *)
(** * Machine numbers *)
(* ===================================================================== *)

(** A C++ [int]: a mathematical integer that must stay inside the 32-bit
    range; leaving it is undefined behaviour, reported as [None]. *)
Definition INT_MIN : Z := - 2 ^ 31.
Definition INT_MAX : Z := 2 ^ 31 - 1.

Definition in_int_range (z : Z) : bool := (INT_MIN <=? z) && (z <=? INT_MAX).

Definition int_checked (z : Z) : option Z :=
  if in_int_range z then Some z else None.

(** What the player needs from [float] and [double].  The source computes in
    [float], except for [std::pow] with an integer exponent, which promotes
    to [double].  [f_floor] is not used by the code: it is there to write
    down what the specification calls floor. *)
Class FloatModel : Type := {
  float : Type;
  double : Type;
  f_of_int : Z -> float;                   (* static_cast<float>(int)     *)
  f_add : float -> float -> float;
  f_sub : float -> float -> float;
  f_mul : float -> float -> float;
  f_div : float -> float -> float;
  f_gt : float -> float -> bool;           (* a > b                       *)
  f_le : float -> float -> bool;           (* a <= b                      *)
  f_eqb : float -> float -> bool;          (* a == b                      *)
  f_to_int : float -> option Z;            (* static_cast<int>(float)     *)
  f_floor : float -> option Z;             (* floor, then to int          *)
  f_pow : float -> float -> float;         (* std::pow(float, float)      *)
  f_to_double : float -> double;           (* promotion                   *)
  d_to_float : double -> float;            (* narrowing on return         *)
  d_mul : double -> double -> double;
  d_pow_int : double -> Z -> double;       (* std::pow(double, int)       *)
  (* a <= b excludes a > b (comparisons with NaN are all false) *)
  f_le_not_gt : forall a b, f_le a b = true -> f_gt a b = false;
  (* 0 + 0 is 0, and 0 == 0 *)
  f_add_zero : f_add (f_of_int 0) (f_of_int 0) = f_of_int 0;
  f_eqb_zero : f_eqb (f_of_int 0) (f_of_int 0) = true
}.

Definition f_zero `{FloatModel} : float := f_of_int 0.
Definition f_one `{FloatModel} : float := f_of_int 1.

(** ** IEEE 754 binary32 and binary64, from the Standard Library's
       executable specification *)
Module Binary32.

Definition prec32 : Z := 24.
Definition emax32 : Z := 128.
Definition prec64 : Z := 53.
Definition emax64 : Z := 1024.

Definition of_int (z : Z) : spec_float := binary_normalize prec32 emax32 z 0 false.

(** [m * 2^e] as a binary32 value, for literals such as 0.5f. *)
Definition lit (m e : Z) : spec_float := binary_normalize prec32 emax32 m e false.

Definition add := SFadd prec32 emax32.
Definition sub := SFsub prec32 emax32.
Definition mul := SFmul prec32 emax32.
Definition div := SFdiv prec32 emax32.
Definition gt (a b : spec_float) : bool := SFltb b a.
Definition le (a b : spec_float) : bool := SFleb a b.
Definition eqb (a b : spec_float) : bool := SFeqb a b.

(** Magnitude of a finite value with the fraction dropped, and whether a
    fraction was dropped. *)
Definition magnitude (m : positive) (e : Z) : Z :=
  if 0 <=? e then Zpos m * 2 ^ e else Zpos m / 2 ^ (- e).
Definition has_fraction (m : positive) (e : Z) : bool :=
  if 0 <=? e then false else negb (Zpos m mod 2 ^ (- e) =? 0).

(** Conversion to [int] truncates toward zero; NaN, the infinities and
    values outside the range of [int] are undefined behaviour. *)
Definition to_int (x : spec_float) : option Z :=
  match x with
  | S754_zero _ => Some 0
  | S754_finite s m e =>
      int_checked (if s then - magnitude m e else magnitude m e)
  | _ => None
  end.

Definition floor (x : spec_float) : option Z :=
  match x with
  | S754_zero _ => Some 0
  | S754_finite s m e =>
      int_checked
        (if s
         then (if has_fraction m e then - magnitude m e - 1 else - magnitude m e)
         else magnitude m e)
  | _ => None
  end.

Definition renorm (prec emax : Z) (x : spec_float) : spec_float :=
  match x with
  | S754_finite s m e => binary_normalize prec emax (cond_Zopp s (Zpos m)) e s
  | _ => x
  end.
Definition to_double : spec_float -> spec_float := renorm prec64 emax64.
Definition to_float : spec_float -> spec_float := renorm prec32 emax32.

Definition dmul := SFmul prec64 emax64.
Definition ddiv := SFdiv prec64 emax64.
Definition done : spec_float := binary_normalize prec64 emax64 1 0 false.

Fixpoint dpow_nat (x : spec_float) (n : nat) : spec_float :=
  match n with
  | O => done
  | S O => x
  | S k => dmul x (dpow_nat x k)
  end.

(** [std::pow] belongs to the C library.  For an integer exponent the model
    multiplies [n] times in binary64: [pow(x, 0) = 1] and [pow(x, 1) = x]
    as the C standard requires, and the result is exact whenever the
    products are (powers of 0.5 in the examples below). *)
Definition dpow_int (x : spec_float) (n : Z) : spec_float :=
  if 0 <=? n then dpow_nat x (Z.to_nat n)
  else ddiv done (dpow_nat x (Z.to_nat (- n))).

Fixpoint pow_nat (x : spec_float) (n : nat) : spec_float :=
  match n with
  | O => of_int 1
  | S O => x
  | S k => mul x (pow_nat x k)
  end.

(** [std::pow(float, float)], defined on the exponents the examples use:
    an exponent that is a non-negative integer is a repeated product
    ([pow(x, 0) = 1], [pow(x, 1) = x], [pow(0, k) = 0] for [k > 0]).  Any
    other exponent yields NaN here; no statement below evaluates the model
    there, the general theorems hold for every [FloatModel]. *)
Definition pow (x y : spec_float) : spec_float :=
  match to_int y with
  | Some k =>
      if (0 <=? k) && eqb (of_int k) y then pow_nat x (Z.to_nat k) else S754_nan
  | None => S754_nan
  end.

End Binary32.

(** ** The two number models *)

Lemma SFcompare_antisym (a b : spec_float) :
  SFcompare b a = option_map CompOpp (SFcompare a b).
Proof.
  destruct a as [sa|sa| |sa ma ea], b as [sb|sb| |sb mb eb]; simpl;
    try reflexivity;
    try (destruct sa; reflexivity); try (destruct sb; reflexivity);
    try (destruct sa, sb; reflexivity).
  assert (Hm : Pos.compare_cont Eq mb ma = CompOpp (Pos.compare_cont Eq ma mb))
    by (rewrite Pos.compare_cont_antisym; reflexivity).
  destruct sa, sb; simpl; try reflexivity;
    rewrite (Z.compare_antisym ea eb);
    destruct (ea ?= eb); simpl; try reflexivity;
    rewrite Hm; try rewrite CompOpp_involutive; reflexivity.
Qed.

Lemma SFleb_not_SFltb (a b : spec_float) :
  SFleb a b = true -> SFltb b a = false.
Proof.
  unfold SFleb, SFltb. rewrite (SFcompare_antisym a b).
  destruct (SFcompare a b) as [[ | | ]|]; simpl; congruence.
Qed.

(** Single precision as the compiled program has it. *)
#[export] Instance binary32 : FloatModel := {|
  float := spec_float;
  double := spec_float;
  f_of_int := Binary32.of_int;
  f_add := Binary32.add;
  f_sub := Binary32.sub;
  f_mul := Binary32.mul;
  f_div := Binary32.div;
  f_gt := Binary32.gt;
  f_le := Binary32.le;
  f_eqb := Binary32.eqb;
  f_to_int := Binary32.to_int;
  f_floor := Binary32.floor;
  f_pow := Binary32.pow;
  f_to_double := Binary32.to_double;
  d_to_float := Binary32.to_float;
  d_mul := Binary32.dmul;
  d_pow_int := Binary32.dpow_int;
  f_le_not_gt := SFleb_not_SFltb;
  f_add_zero := eq_refl;
  f_eqb_zero := eq_refl
|}.

(** Exact rational arithmetic: the same program with rounding taken away.
    Division by zero yields zero here (it is NaN or an infinity in IEEE), so
    statements over this model always carry a non-zero divisor.  [std::pow]
    with a real exponent has no rational value in general and stays a
    parameter. *)
Module Exact.

Definition gt (a b : Qc) : bool :=
  match (a ?= b)%Qc with Gt => true | _ => false end.
Definition le (a b : Qc) : bool :=
  match (a ?= b)%Qc with Gt => false | _ => true end.
Definition eqb (a b : Qc) : bool :=
  match (a ?= b)%Qc with Eq => true | _ => false end.
Definition of_int (z : Z) : Qc := Q2Qc (inject_Z z).
Definition to_int (a : Qc) : option Z :=
  int_checked (Z.quot (Qnum a) (Zpos (Qden a))).
Definition floor (a : Qc) : option Z :=
  int_checked (Z.div (Qnum a) (Zpos (Qden a))).
Definition pow_int (a : Qc) (n : Z) : Qc :=
  if 0 <=? n then Qcpower a (Z.to_nat n) else Qcinv (Qcpower a (Z.to_nat (- n))).

Lemma le_not_gt (a b : Qc) : le a b = true -> gt a b = false.
Proof. unfold le, gt. destruct (a ?= b)%Qc; congruence. Qed.

Lemma add_zero : Qcplus (of_int 0) (of_int 0) = of_int 0.
Proof. apply Qc_is_canon. reflexivity. Qed.

Lemma eqb_zero : eqb (of_int 0) (of_int 0) = true.
Proof. reflexivity. Qed.

End Exact.

Definition exact (pow : Qc -> Qc -> Qc) : FloatModel := {|
  float := Qc;
  double := Qc;
  f_of_int := Exact.of_int;
  f_add := Qcplus;
  f_sub := Qcminus;
  f_mul := Qcmult;
  f_div := Qcdiv;
  f_gt := Exact.gt;
  f_le := Exact.le;
  f_eqb := Exact.eqb;
  f_to_int := Exact.to_int;
  f_floor := Exact.floor;
  f_pow := pow;
  f_to_double := fun x => x;
  d_to_float := fun x => x;
  d_mul := Qcmult;
  d_pow_int := Exact.pow_int;
  f_le_not_gt := Exact.le_not_gt;
  f_add_zero := Exact.add_zero;
  f_eqb_zero := Exact.eqb_zero
|}.

(** Single-precision literals used in the examples below. *)
Definition f32_0_98 : spec_float := Binary32.div (Binary32.of_int 98) (Binary32.of_int 100).
Definition f32_half : spec_float := Binary32.lit 1 (-1).

(* ===================================================================== *)
(** * TimeRecommendation *)
(* ===================================================================== *)

Section TimeBudget.
Context {FM : FloatModel}.

(** [endgame_time = seconds_per_move / (1.0f - decay_factor)] *)
Definition endgame_time (seconds_per_move decay_factor : float) : float :=
  f_div seconds_per_move (f_sub f_one decay_factor).

(** [(time_limit - endgame_time) / seconds_per_move], before its conversion
    to [int]. *)
Definition core_quotient (seconds_per_move time_limit decay_factor : float) : float :=
  f_div (f_sub time_limit (endgame_time seconds_per_move decay_factor))
        seconds_per_move.

(** [base_time * std::pow(decay_factor, exponent)], computed in [double] and
    narrowed to [float] by the return. *)
Definition decayed (base_time decay_factor : float) (exponent : Z) : float :=
  d_to_float (d_mul (f_to_double base_time)
                    (d_pow_int (f_to_double decay_factor) exponent)).

(** The function itself.  [None] is undefined behaviour: the quotient does
    not fit [int], or the subtraction of the two move counts overflows. *)
Definition TimeRecommendation (move_num : Z)
    (seconds_per_move time_limit decay_factor : float) : option float :=
  let player_move_num := Z.quot move_num 2 in
  let endgame := endgame_time seconds_per_move decay_factor in
  let '(base_time, core_moves) :=
    if f_gt endgame time_limit
    then (f_mul time_limit (f_sub f_one decay_factor), Some 0)
    else (seconds_per_move,
          f_to_int (core_quotient seconds_per_move time_limit decay_factor)) in
  match core_moves with
  | None => None
  | Some core =>
      match int_checked (player_move_num - core) with
      | None => None
      | Some diff => Some (decayed base_time decay_factor (Z.max diff 0))
      end
  end.

(** The value the specification gives for the endgame branch: the flat
    allocation [time_limit * (1 - decay_factor)]. *)
Definition TimeRecommendation_flat (time_limit decay_factor : float) : float :=
  f_mul time_limit (f_sub f_one decay_factor).

End TimeBudget.

(* ===================================================================== *)
(** * Outcomes of a member function *)
(* ===================================================================== *)

(** A call either returns, dies in an [MG_CHECK] / [MG_DCHECK], runs into
    undefined behaviour of the language, or is still inside a [while] loop
    when the fuel given to the model is spent. *)
Inductive result (A : Type) : Type :=
| Ok (a : A)
| CheckFailed
| Undefined
| OutOfFuel.
Arguments Ok {A} a.
Arguments CheckFailed {A}.
Arguments Undefined {A}.
Arguments OutOfFuel {A}.

Definition bind {A B : Type} (r : result A) (k : A -> result B) : result B :=
  match r with
  | Ok a => k a
  | CheckFailed => CheckFailed
  | Undefined => Undefined
  | OutOfFuel => OutOfFuel
  end.

Notation "x <- r ;; k" := (bind r (fun x => k))
  (at level 61, r at next level, right associativity).
Notation "' p <- r ;; k" := (bind r (fun x => let p := x in k))
  (at level 61, p pattern, r at next level, right associativity).

(* ===================================================================== *)
(** * Constants and small types of the headers *)
(* ===================================================================== *)

(** Compile-time configuration: the board size [kN] (9 or 19), the sizes of
    the feature planes, and whether [MG_DCHECK] is compiled in. *)
Class Build : Type := {
  kN : nat;
  kMoveHistory : nat;
  kNumStoneFeatures : nat;
  debug_build : bool
}.

(** A [Coord] indexes the move space. *)
Definition Coord : Type := nat.
Bind Scope nat_scope with Coord.

Section Coords.
Context {BD : Build}.

(** Modelled from the spec: the move space is the [kN * kN] board cells
    followed by the pass move (cc/constants.h and cc/coord.h are not among
    the sources; [PickMove] relies on pass being the one move after the
    first [kN * kN]).  Resignation is a sentinel outside the move space. *)
Definition kNumMoves : nat := (kN * kN + 1)%nat.
Definition kPass : Coord := (kN * kN)%nat.
Definition kResign : Coord := (kN * kN + 1)%nat.

End Coords.

Inductive Color : Type := kEmpty | kBlack | kWhite.

Definition OtherColor (c : Color) : Color :=
  match c with
  | kBlack => kWhite
  | kWhite => kBlack
  | kEmpty => kEmpty
  end.

(** [MctsPlayer::Options], as far as the source reads it. *)
Record Options {FM : FloatModel} : Type := {
  inject_noise : bool;
  soft_pick : bool;
  random_symmetry : bool;
  value_init_penalty : float;
  policy_softmax_temp : float;
  virtual_losses : Z;
  num_readouts : Z;
  seconds_per_move : float;
  time_limit : float;
  decay_factor : float;
  noise_mix : float;
  tree_reuse : bool;
  prune_orphaned_nodes : bool;
  random_seed : Z
}.

(** [DualNet::Output]: a policy over the move space and a value. *)
Record Output {FM : FloatModel} : Type := {
  policy : list float;
  value : float
}.

(** [MctsPlayer::InferenceInfo]. *)
Record InferenceInfo : Type := {
  model : string;
  first_move : Z;
  last_move : Z;
  total_count : Z
}.

(** What [MG_LOG(ERROR)] receives. *)
Inductive LogEntry : Type :=
| LogGameIsOver (c : Coord)          (* "Can't play move c, game is over" *)
| LogIllegalMove (c : Coord)         (* "Move c is illegal"               *)
| LogPlayerOptions                   (* "MctsPlayer options: ..."         *)
| LogGameOptions                     (* "Game options: ..."               *)
| LogHistoryMove (color : Color) (c : Coord).

(* ===================================================================== *)
(** * The collaborators *)
(* ===================================================================== *)

(** [MctsNode] and [Position].  A [Tree] is the memory holding every node
    (the player's [game_root_] member included); a [Node] is a pointer into
    it.  Fields are read through accessors, methods take the tree and return
    the tree they leave behind. *)
Class TreeAPI {FM : FloatModel} : Type := {
  Tree : Type;
  Node : Type;
  Position : Type;
  StatsPtr : Type;
  Stones : Type;
  NodeValue : Type;                  (* an MctsNode object, by value *)
  node_eqb : Node -> Node -> bool;
  node_eqb_eq : forall a b, node_eqb a b = true <-> a = b;
  nullptr : Node;
  game_root_ : Node;                 (* &game_root_ *)
  (* fields of MctsNode *)
  node_parent : Tree -> Node -> Node;
  node_move : Tree -> Node -> Coord;
  node_position : Tree -> Node -> Position;
  node_stats : Tree -> Node -> StatsPtr;
  num_virtual_losses_applied : Tree -> Node -> Z;
  children_clear : Tree -> Node -> Tree;
  (* constructors and assignment *)
  MctsNode_child : Tree -> Node -> Coord -> NodeValue;
  MctsNode_root : StatsPtr -> Position -> NodeValue;
  node_read : Tree -> Node -> NodeValue;               (* *p      *)
  node_assign : Tree -> Node -> NodeValue -> Tree;     (* *p = v  *)
  node_read_assign : forall t p v, node_read (node_assign t p v) p = v;
  (* Position *)
  pos_n : Position -> Z;
  to_play : Position -> Color;
  stones : Position -> Stones;
  legal_move : Position -> Coord -> bool;
  CalculateScore : Position -> float -> float;
  (* methods of MctsNode; the receiver is the argument before the tree *)
  HasFlag_kExpanded : Node -> Tree -> bool;
  game_over : Node -> Tree -> bool;
  at_move_limit : Node -> Tree -> bool;
  N : Node -> Tree -> Z;
  child_N : Node -> Tree -> nat -> float;
  Q : Node -> Tree -> float;
  Q_perspective : Node -> Tree -> float;
  GetMostVisitedMove : Node -> Tree -> Coord;
  Describe : Node -> Tree -> string;
  GetMoveHistory : nat -> Node -> Tree -> list Position;
  SelectLeaf : Node -> Tree -> Node * Tree;
  MaybeAddChild : Coord -> Node -> Tree -> Node * Tree;
  PruneChildren : Coord -> Node -> Tree -> Tree;
  InjectNoise : list float -> float -> Node -> Tree -> Tree;
  IncorporateResults :
    float -> list float -> float -> Node -> Node -> Tree -> Tree;
  IncorporateEndGameResult : float -> Node -> Node -> Tree -> Tree;
  AddVirtualLoss : Node -> Node -> Tree -> Tree;
  RevertVirtualLoss : Node -> Node -> Tree -> Tree
}.

(** [Game]: the history of the game being played. *)
Class GameAPI {FM : FloatModel} {TA : TreeAPI} : Type := {
  Game : Type;
  komi : Game -> float;
  resign_enabled : Game -> bool;
  resign_threshold : Game -> float;
  Game_NewGame : Game -> Game;
  Game_UndoMove : Game -> Game;
  num_moves : Game -> nat;
  GetMove : Game -> nat -> Color * Coord;
  AddMove : Color -> Coord -> Stones -> string -> float -> list float ->
            list string -> Game -> Game;
  SetGameOverBecauseOfResign : Color -> Game -> Game;
  SetGameOverBecauseMoveLimitReached : float -> Game -> Game;
  SetGameOverBecauseOfPasses : float -> Game -> Game
}.

(** [DualNet], [InferenceCache] and the helpers of cc/symmetries.h. *)
Class NetAPI {FM : FloatModel} {TA : TreeAPI} : Type := {
  Net : Type;
  Cache : Type;
  Symmetry : Type;
  kIdentity : Symmetry;
  kNumSymmetries : Z;
  Symmetry_of_int : Z -> Symmetry;                     (* static_cast *)
  Inverse : Symmetry -> Symmetry;
  (* ApplySymmetry<N, channels>(sym, src, dst), returning dst *)
  ApplySymmetry : nat -> nat -> Symmetry -> list float -> list float;
  SetFeatures : list Position -> Color -> list float;
  (* RunMany fills output i from features i and names the model *)
  RunMany : list (list float) -> Net -> (nat -> Output) * string * Net;
  TryGet : Coord * Position -> Cache -> option Output * Cache;
  CacheAdd : Coord * Position -> Output -> Cache -> Cache;
  (* InferenceInfo(model, first_move) *)
  InferenceInfo_new : string -> Z -> InferenceInfo
}.

(** [Random] and the wall clock. *)
Class RandomAPI {FM : FloatModel} : Type := {
  Rnd : Type;
  rnd_uniform : Rnd -> float * Rnd;                    (* rnd_()      *)
  UniformInt : Z -> Z -> Rnd -> Z * Rnd;
  Dirichlet : nat -> Rnd -> list float * Rnd;          (* kNumMoves draws *)
  Clock : Type;
  Time : Type;
  Now : Clock -> Time * Clock;                         (* absl::Now() *)
  (* now - start < absl::Seconds(s) *)
  elapsed_less : Time -> Time -> float -> bool
}.

(** What the constructor and [InitializeGame] use besides: the player's
    [root_stats_] member, the constructors of [Position] that take the
    player's two visitors, and the seeding of [Random]. *)
Class StartAPI {FM : FloatModel} {TA : TreeAPI} {RA : RandomAPI} : Type := {
  root_stats_ : StatsPtr;                            (* &root_stats_       *)
  stats_reset : StatsPtr -> Tree -> Tree;            (* *stats = {}        *)
  Position_new : Color -> Position;      (* Position(&bv_, &gv_, color)    *)
  Position_copy : Position -> Position;  (* Position(&bv_, &gv_, position) *)
  Random_new : Z -> Rnd                              (* Random(seed)       *)
}.

(* ===================================================================== *)
(** * MctsPlayer *)
(* ===================================================================== *)

Section Player.
Context {FM : FloatModel} {BD : Build} {TA : TreeAPI} {GA : GameAPI}
        {NA : NetAPI} {RA : RandomAPI}.

(** The data members.  [tree_] is the memory behind [game_root_] and
    [root_]; [tree_search_cb_] says whether an observer is registered and
    [cb_calls_] lists the batches it was shown; [log_] is the error log;
    [clock_] is the state of the wall clock. *)
Record Player : Type := {
  network_ : Net;
  tree_ : Tree;
  root_ : Node;
  game_ : Game;
  rnd_ : Rnd;
  clock_ : Clock;
  options_ : Options;
  inference_cache_ : option Cache;
  temperature_cutoff_ : Z;
  tree_search_leaves_ : list Node;
  symmetries_used_ : list Symmetry;
  features_ : list (list float);
  outputs_ : list Output;
  inference_model_ : string;
  inferences_ : list InferenceInfo;
  tree_search_cb_ : bool;
  cb_calls_ : list (list Node);
  log_ : list LogEntry
}.

Definition set_tree (t : Tree) (p : Player) : Player :=
  {| network_ := network_ p; tree_ := t; root_ := root_ p; game_ := game_ p;
     rnd_ := rnd_ p; clock_ := clock_ p; options_ := options_ p;
     inference_cache_ := inference_cache_ p;
     temperature_cutoff_ := temperature_cutoff_ p;
     tree_search_leaves_ := tree_search_leaves_ p;
     symmetries_used_ := symmetries_used_ p; features_ := features_ p;
     outputs_ := outputs_ p; inference_model_ := inference_model_ p;
     inferences_ := inferences_ p; tree_search_cb_ := tree_search_cb_ p;
     cb_calls_ := cb_calls_ p; log_ := log_ p |}.

Definition set_root (r : Node) (p : Player) : Player :=
  {| network_ := network_ p; tree_ := tree_ p; root_ := r; game_ := game_ p;
     rnd_ := rnd_ p; clock_ := clock_ p; options_ := options_ p;
     inference_cache_ := inference_cache_ p;
     temperature_cutoff_ := temperature_cutoff_ p;
     tree_search_leaves_ := tree_search_leaves_ p;
     symmetries_used_ := symmetries_used_ p; features_ := features_ p;
     outputs_ := outputs_ p; inference_model_ := inference_model_ p;
     inferences_ := inferences_ p; tree_search_cb_ := tree_search_cb_ p;
     cb_calls_ := cb_calls_ p; log_ := log_ p |}.

Definition set_game (g : Game) (p : Player) : Player :=
  {| network_ := network_ p; tree_ := tree_ p; root_ := root_ p; game_ := g;
     rnd_ := rnd_ p; clock_ := clock_ p; options_ := options_ p;
     inference_cache_ := inference_cache_ p;
     temperature_cutoff_ := temperature_cutoff_ p;
     tree_search_leaves_ := tree_search_leaves_ p;
     symmetries_used_ := symmetries_used_ p; features_ := features_ p;
     outputs_ := outputs_ p; inference_model_ := inference_model_ p;
     inferences_ := inferences_ p; tree_search_cb_ := tree_search_cb_ p;
     cb_calls_ := cb_calls_ p; log_ := log_ p |}.

Definition set_rnd (r : Rnd) (p : Player) : Player :=
  {| network_ := network_ p; tree_ := tree_ p; root_ := root_ p;
     game_ := game_ p; rnd_ := r; clock_ := clock_ p; options_ := options_ p;
     inference_cache_ := inference_cache_ p;
     temperature_cutoff_ := temperature_cutoff_ p;
     tree_search_leaves_ := tree_search_leaves_ p;
     symmetries_used_ := symmetries_used_ p; features_ := features_ p;
     outputs_ := outputs_ p; inference_model_ := inference_model_ p;
     inferences_ := inferences_ p; tree_search_cb_ := tree_search_cb_ p;
     cb_calls_ := cb_calls_ p; log_ := log_ p |}.

Definition set_clock (c : Clock) (p : Player) : Player :=
  {| network_ := network_ p; tree_ := tree_ p; root_ := root_ p;
     game_ := game_ p; rnd_ := rnd_ p; clock_ := c; options_ := options_ p;
     inference_cache_ := inference_cache_ p;
     temperature_cutoff_ := temperature_cutoff_ p;
     tree_search_leaves_ := tree_search_leaves_ p;
     symmetries_used_ := symmetries_used_ p; features_ := features_ p;
     outputs_ := outputs_ p; inference_model_ := inference_model_ p;
     inferences_ := inferences_ p; tree_search_cb_ := tree_search_cb_ p;
     cb_calls_ := cb_calls_ p; log_ := log_ p |}.

Definition set_cache (c : option Cache) (p : Player) : Player :=
  {| network_ := network_ p; tree_ := tree_ p; root_ := root_ p;
     game_ := game_ p; rnd_ := rnd_ p; clock_ := clock_ p;
     options_ := options_ p; inference_cache_ := c;
     temperature_cutoff_ := temperature_cutoff_ p;
     tree_search_leaves_ := tree_search_leaves_ p;
     symmetries_used_ := symmetries_used_ p; features_ := features_ p;
     outputs_ := outputs_ p; inference_model_ := inference_model_ p;
     inferences_ := inferences_ p; tree_search_cb_ := tree_search_cb_ p;
     cb_calls_ := cb_calls_ p; log_ := log_ p |}.

Definition set_leaves (l : list Node) (p : Player) : Player :=
  {| network_ := network_ p; tree_ := tree_ p; root_ := root_ p;
     game_ := game_ p; rnd_ := rnd_ p; clock_ := clock_ p;
     options_ := options_ p; inference_cache_ := inference_cache_ p;
     temperature_cutoff_ := temperature_cutoff_ p;
     tree_search_leaves_ := l;
     symmetries_used_ := symmetries_used_ p; features_ := features_ p;
     outputs_ := outputs_ p; inference_model_ := inference_model_ p;
     inferences_ := inferences_ p; tree_search_cb_ := tree_search_cb_ p;
     cb_calls_ := cb_calls_ p; log_ := log_ p |}.

(** The scratch members of [ProcessLeaves] and what inference leaves
    behind, set together. *)
Definition set_inference (syms : list Symmetry) (fs : list (list float))
    (outs : list Output) (net : Net) (name : string)
    (infs : list InferenceInfo) (p : Player) : Player :=
  {| network_ := net; tree_ := tree_ p; root_ := root_ p;
     game_ := game_ p; rnd_ := rnd_ p; clock_ := clock_ p;
     options_ := options_ p; inference_cache_ := inference_cache_ p;
     temperature_cutoff_ := temperature_cutoff_ p;
     tree_search_leaves_ := tree_search_leaves_ p;
     symmetries_used_ := syms; features_ := fs;
     outputs_ := outs; inference_model_ := name;
     inferences_ := infs; tree_search_cb_ := tree_search_cb_ p;
     cb_calls_ := cb_calls_ p; log_ := log_ p |}.

Definition notify (batch : list Node) (p : Player) : Player :=
  {| network_ := network_ p; tree_ := tree_ p; root_ := root_ p;
     game_ := game_ p; rnd_ := rnd_ p; clock_ := clock_ p;
     options_ := options_ p; inference_cache_ := inference_cache_ p;
     temperature_cutoff_ := temperature_cutoff_ p;
     tree_search_leaves_ := tree_search_leaves_ p;
     symmetries_used_ := symmetries_used_ p; features_ := features_ p;
     outputs_ := outputs_ p; inference_model_ := inference_model_ p;
     inferences_ := inferences_ p; tree_search_cb_ := tree_search_cb_ p;
     cb_calls_ := cb_calls_ p ++ [batch]; log_ := log_ p |}.

Definition log (es : list LogEntry) (p : Player) : Player :=
  {| network_ := network_ p; tree_ := tree_ p; root_ := root_ p;
     game_ := game_ p; rnd_ := rnd_ p; clock_ := clock_ p;
     options_ := options_ p; inference_cache_ := inference_cache_ p;
     temperature_cutoff_ := temperature_cutoff_ p;
     tree_search_leaves_ := tree_search_leaves_ p;
     symmetries_used_ := symmetries_used_ p; features_ := features_ p;
     outputs_ := outputs_ p; inference_model_ := inference_model_ p;
     inferences_ := inferences_ p; tree_search_cb_ := tree_search_cb_ p;
     cb_calls_ := cb_calls_ p; log_ := log_ p ++ es |}.

(** The constructor's rule for [temperature_cutoff_]:
    [!soft_pick ? -1 : (((kN * kN / 12) / 2) * 2)]. *)
Definition temperature_cutoff_of (o : Options) : Z :=
  if negb (soft_pick o) then -1
  else ((Z.of_nat kN * Z.of_nat kN / 12) / 2) * 2.

(** ** UndoMove *)

(** The node that "Reset the root to a fresh node" builds for [root]:
    [MctsNode(root->parent, root->move)] under a parent,
    [MctsNode(root->stats, root->position)] at the top. *)
Definition fresh_root (t : Tree) (root : Node) : NodeValue :=
  if negb (node_eqb (node_parent t root) nullptr) then
    MctsNode_child t (node_parent t root) (node_move t root)
  else
    MctsNode_root (node_stats t root) (node_position t root).

Definition UndoMove (p : Player) : bool * Player :=
  if node_eqb (root_ p) game_root_ then (false, p)
  else
    let root := node_parent (tree_ p) (root_ p) in
    let g := Game_UndoMove (game_ p) in
    let t :=
      if negb (tree_reuse (options_ p))
      then node_assign (tree_ p) root (fresh_root (tree_ p) root)
      else tree_ p in
    (true, set_tree t (set_game g (set_root root p))).

(** ** SelectLeaves *)

(** The calls by which [SelectLeaves] changes a node, in program order.  The
    history is not a variable of the source; it is kept beside the loop's
    locals to say which node received which call (and, for a cache hit,
    with which cached output). *)
Inductive NodeCall : Type :=
| EndGameResult (leaf : Node)        (* leaf->IncorporateEndGameResult *)
| CachedResults (leaf : Node) (cached_output : Output)
                                     (* leaf->IncorporateResults       *)
| VirtualLoss (leaf : Node).         (* leaf->AddVirtualLoss           *)

(** The locals of the loop, with the tree, the cache and the output vector
    it works on. *)
Record SelectState : Type := {
  sel_tree : Tree;
  sel_cache : option Cache;
  sel_leaves : list Node;
  num_selected : Z;
  num_cache_misses : Z;
  num_cache_hits : Z;
  sel_calls : list NodeCall
}.

Inductive LoopStep : Type :=
| Continue (s : SelectState)
| Break (s : SelectState).

(** The path after both early exits: a cache miss that yields a new leaf. *)
Definition select_new_leaf (root : Node) (num_leaves : Z) (leaf : Node)
    (t : Tree) (cache : option Cache) (s : SelectState) : LoopStep :=
  let s' := {| sel_tree := AddVirtualLoss root leaf t;
               sel_cache := cache;
               sel_leaves := sel_leaves s ++ [leaf];
               num_selected := num_selected s + 1;
               num_cache_misses := num_cache_misses s + 1;
               num_cache_hits := num_cache_hits s;
               sel_calls := sel_calls s ++ [VirtualLoss leaf] |} in
  if num_selected s + 1 =? num_leaves then Break s'
  else if node_eqb leaf root then Break s'
  else Continue s'.

(** One pass through the body of the [while]. *)
Definition SelectLeaves_body (o : Options) (g : Game) (root : Node)
    (num_leaves : Z) (s : SelectState) : LoopStep :=
  let '(leaf, t) := SelectLeaf root (sel_tree s) in
  if game_over leaf t || at_move_limit leaf t then
    let value :=
      if f_gt (CalculateScore (node_position t leaf) (komi g)) f_zero
      then f_of_int 1 else f_of_int (-1) in
    Continue {| sel_tree := IncorporateEndGameResult value root leaf t;
                sel_cache := sel_cache s;
                sel_leaves := sel_leaves s;
                num_selected := num_selected s;
                num_cache_misses := num_cache_misses s + 1;
                num_cache_hits := num_cache_hits s;
                sel_calls := sel_calls s ++ [EndGameResult leaf] |}
  else
    match sel_cache s with
    | Some cache =>
        match TryGet (node_move t leaf, node_position t leaf) cache with
        | (Some cached_output, cache') =>
            Continue {| sel_tree :=
                          IncorporateResults (value_init_penalty o)
                            (policy cached_output) (value cached_output)
                            root leaf t;
                        sel_cache := Some cache';
                        sel_leaves := sel_leaves s;
                        num_selected := num_selected s;
                        num_cache_misses := num_cache_misses s;
                        num_cache_hits := num_cache_hits s + 1;
                        sel_calls := sel_calls s ++ [CachedResults leaf cached_output] |}
        | (None, cache') =>
            select_new_leaf root num_leaves leaf t (Some cache') s
        end
    | None => select_new_leaf root num_leaves leaf t None s
    end.

(** [while (num_cache_misses < max_cache_misses) { ... }], with
    [max_cache_misses = num_leaves * 2].  The counters are [int]s that count
    passes of this loop; the model keeps them in [Z]. *)
Fixpoint SelectLeaves_loop (fuel : nat) (o : Options) (g : Game)
    (root : Node) (num_leaves : Z) (s : SelectState) : result SelectState :=
  if num_cache_misses s <? num_leaves * 2 then
    match fuel with
    | O => OutOfFuel
    | S fuel' =>
        match SelectLeaves_body o g root num_leaves s with
        | Continue s' => SelectLeaves_loop fuel' o g root num_leaves s'
        | Break s' => Ok s'
        end
    end
  else Ok s.

(** The locals after at most [passes] passes: where the loop stands when
    it has not been allowed more. *)
Fixpoint SelectLeaves_after (passes : nat) (o : Options) (g : Game)
    (root : Node) (num_leaves : Z) (s : SelectState) : SelectState :=
  if num_cache_misses s <? num_leaves * 2 then
    match passes with
    | O => s
    | S passes' =>
        match SelectLeaves_body o g root num_leaves s with
        | Continue s' => SelectLeaves_after passes' o g root num_leaves s'
        | Break s' => s'
        end
    end
  else s.

(** Reading the history of calls. *)
Definition call_target (c : NodeCall) : Node :=
  match c with
  | EndGameResult leaf | CachedResults leaf _ | VirtualLoss leaf => leaf
  end.

Definition virtual_loss_targets (calls : list NodeCall) : list Node :=
  flat_map (fun c => match c with VirtualLoss leaf => [leaf] | _ => [] end)
           calls.

Definition counts_as_miss (c : NodeCall) : bool :=
  match c with
  | CachedResults _ _ => false
  | EndGameResult _ | VirtualLoss _ => true
  end.

Definition misses_in (calls : list NodeCall) : Z :=
  Z.of_nat (List.length (filter counts_as_miss calls)).

Definition hits_in (calls : list NodeCall) : Z :=
  Z.of_nat (List.length (filter (fun c => negb (counts_as_miss c)) calls)).

Definition SelectLeaves_init (leaves : list Node) (p : Player) : SelectState :=
  {| sel_tree := tree_ p;
     sel_cache := inference_cache_ p;
     sel_leaves := leaves;
     num_selected := 0;
     num_cache_misses := 0;
     num_cache_hits := 0;
     sel_calls := [] |}.

(** [SelectLeaves(root, num_leaves, &leaves)]: the vector comes in as
    [leaves] and goes out in the final [SelectState], next to the history
    of calls; the player keeps the tree and the cache. *)
Definition SelectLeaves (fuel : nat) (root : Node) (num_leaves : Z)
    (leaves : list Node) (p : Player) : result (SelectState * Player) :=
  s <- SelectLeaves_loop fuel (options_ p) (game_ p) root num_leaves
         (SelectLeaves_init leaves p) ;;
  Ok (s, set_cache (sel_cache s) (set_tree (sel_tree s) p)).


(** ** ProcessLeaves *)

(** [symmetries_used_] for a batch of [n] leaves with [random_symmetry]. *)
Fixpoint draw_symmetries (n : nat) (r : Rnd) : list Symmetry * Rnd :=
  match n with
  | O => ([], r)
  | S n' =>
      let '(z, r1) := UniformInt 0 (kNumSymmetries - 1) r in
      let '(rest, r2) := draw_symmetries n' r1 in
      (Symmetry_of_int z :: rest, r2)
  end.

(** The raw features of a leaf, before any symmetry. *)
Definition raw_features (t : Tree) (leaf : Node) : list float :=
  SetFeatures (GetMoveHistory kMoveHistory leaf t)
              (to_play (node_position t leaf)).

(** The feature-building loop, with its [MG_CHECK]. *)
Fixpoint build_features (t : Tree) (leaves : list Node)
    (syms : list Symmetry) : result (list (list float)) :=
  match leaves, syms with
  | leaf :: leaves', sym :: syms' =>
      if 0 <? num_virtual_losses_applied t leaf then
        rest <- build_features t leaves' syms' ;;
        Ok (ApplySymmetry kN kNumStoneFeatures sym (raw_features t leaf) :: rest)
      else CheckFailed
  | _, _ => Ok []
  end.

Definition back {A : Type} (l : list A) : option A := last (map Some l) None.

Fixpoint update_back {A : Type} (f : A -> A) (l : list A) : list A :=
  match l with
  | [] => []
  | [x] => [f x]
  | x :: l' => x :: update_back f l'
  end.

Definition string_empty (s : string) : bool :=
  match s with EmptyString => true | _ => false end.

(** [last_move = n; total_count += batch] on one record.  The counter's
    type is declared in the header; the model does not bound it. *)
Definition touch (n batch : Z) (r : InferenceInfo) : InferenceInfo :=
  {| model := model r; first_move := first_move r; last_move := n;
     total_count := total_count r + batch |}.

(** "Record some information about the inference." *)
Definition record_inference (name : string) (n batch : Z)
    (infs : list InferenceInfo) : list InferenceInfo :=
  if negb (string_empty name) then
    let infs' :=
      match back infs with
      | None => infs ++ [InferenceInfo_new name n]
      | Some r =>
          if negb (String.eqb name (model r))
          then infs ++ [InferenceInfo_new name n] else infs
      end in
    update_back (touch n batch) infs'
  else infs.

(** "Undo the applied symmetry": the board cells of the policy go through
    the inverse symmetry, the pass entry and the value are copied. *)
Definition normalize_output (sym : Symmetry) (output : Output) : Output :=
  {| policy :=
       ApplySymmetry kN 1 (Inverse sym) (firstn (kN * kN) (policy output))
       ++ [nth kPass (policy output) f_zero];
     value := value output |}.

(** What the last loop does for one leaf. *)
Definition incorporate_leaf (o : Options) (root leaf : Node)
    (normalized_output : Output) (tc : Tree * option Cache)
    : Tree * option Cache :=
  let '(t, cache) := tc in
  let t1 := IncorporateResults (value_init_penalty o)
              (policy normalized_output) (value normalized_output)
              root leaf t in
  let cache1 :=
    match cache with
    | Some c =>
        Some (CacheAdd (node_move t1 leaf, node_position t1 leaf)
                       normalized_output c)
    | None => None
    end in
  (RevertVirtualLoss root leaf t1, cache1).

Fixpoint incorporate_leaves (o : Options) (root : Node) (leaves : list Node)
    (syms : list Symmetry) (outs : list Output) (tc : Tree * option Cache)
    : Tree * option Cache :=
  match leaves, syms, outs with
  | leaf :: leaves', sym :: syms', output :: outs' =>
      incorporate_leaves o root leaves' syms' outs'
        (incorporate_leaf o root leaf (normalize_output sym output) tc)
  | _, _, _ => tc
  end.

Definition ProcessLeaves (leaves : list Node) (random_sym : bool)
    (p : Player) : result Player :=
  match leaves with
  | [] => Ok p
  | _ =>
      let n := List.length leaves in
      (* Select symmetry operations to apply. *)
      let '(syms, rnd) :=
        if random_sym then draw_symmetries n (rnd_ p)
        else (repeat kIdentity n, rnd_ p) in
      (* Build input features for each leaf. *)
      fs <- build_features (tree_ p) leaves syms ;;
      (* Run inference. *)
      let '(out_at, name, net) := RunMany fs (network_ p) in
      let outs := map out_at (seq 0 n) in
      (* Record some information about the inference. *)
      let infs := record_inference name
                    (pos_n (node_position (tree_ p) (root_ p)))
                    (Z.of_nat n) (inferences_ p) in
      (* Incorporate the inference outputs back into tree search. *)
      let '(t, cache) :=
        incorporate_leaves (options_ p) (root_ p) leaves syms outs
          (tree_ p, inference_cache_ p) in
      let p1 := set_cache cache (set_tree t
                  (set_inference syms fs outs net name infs (set_rnd rnd p))) in
      Ok (if tree_search_cb_ p then notify leaves p1 else p1)
  end.

(** ** TreeSearch *)
Definition TreeSearch (fuel : nat) (p : Player) : result Player :=
  '(s, p1) <- SelectLeaves fuel (root_ p) (virtual_losses (options_ p)) [] p ;;
  let p2 := set_leaves (sel_leaves s) p1 in
  ProcessLeaves (tree_search_leaves_ p2) (random_symmetry (options_ p2)) p2.

(** ** ShouldResign *)
Definition ShouldResign (p : Player) : bool :=
  resign_enabled (game_ p) &&
  f_gt (resign_threshold (game_ p)) (Q_perspective (root_ p) (tree_ p)).

(** ** PickMove *)

(** [for (i = 1; i < size; ++i) cdf[i] += cdf[i - 1];] *)
Fixpoint accumulate (prev : float) (l : list float) : list float :=
  match l with
  | [] => []
  | x :: l' => let y := f_add x prev in y :: accumulate y l'
  end.

Definition partial_sums (l : list float) : list float :=
  match l with
  | [] => []
  | x :: l' => x :: accumulate x l'
  end.

(** Modelled from the spec: [SearchSorted] (cc/algorithm.h is not among the
    sources) locates the sample in the cumulative array, ties resolved by
    scan order: the index of the first entry that is not below [x]. *)
Fixpoint SearchSorted (cdf : list float) (x : float) : nat :=
  match cdf with
  | [] => O
  | v :: cdf' => if f_gt x v then S (SearchSorted cdf' x) else O
  end.

(** The cumulative array of [PickMove], over the board cells only. *)
Definition pick_cdf (p : Player) : list float :=
  partial_sums
    (map (fun i => f_pow (child_N (root_ p) (tree_ p) i)
                         (policy_softmax_temp (options_ p)))
         (seq 0 (kN * kN))).

Definition PickMove (p : Player) : result (Coord * Player) :=
  if temperature_cutoff_ p <=? pos_n (node_position (tree_ p) (root_ p)) then
    Ok (GetMostVisitedMove (root_ p) (tree_ p), p)
  else
    let cdf := pick_cdf p in
    if f_eqb (last cdf f_zero) f_zero then Ok (kPass, p)
    else
      let '(e, rnd) := rnd_uniform (rnd_ p) in
      let c := SearchSorted cdf (f_mul e (last cdf f_zero)) in
      if debug_build && f_eqb (child_N (root_ p) (tree_ p) c) f_zero
      then CheckFailed                       (* MG_DCHECK(child_N(c) != 0) *)
      else Ok (c, set_rnd rnd p).

(** ** SuggestMove *)

(** [while (absl::Now() - start < absl::Seconds(seconds)) TreeSearch();] *)
Fixpoint search_until_deadline (rounds fuel : nat) (start : Time)
    (seconds : float) (p : Player) : result Player :=
  let '(now, clk) := Now (clock_ p) in
  let p0 := set_clock clk p in
  if elapsed_less start now seconds then
    match rounds with
    | O => OutOfFuel
    | S rounds' =>
        p1 <- TreeSearch fuel p0 ;;
        search_until_deadline rounds' fuel start seconds p1
    end
  else Ok p0.

(** [while (root_->N() < current_readouts + new_readouts) TreeSearch();]
    Visit counts are kept in [Z]. *)
Fixpoint search_until_readouts (rounds fuel : nat) (target : Z)
    (p : Player) : result Player :=
  if N (root_ p) (tree_ p) <? target then
    match rounds with
    | O => OutOfFuel
    | S rounds' =>
        p1 <- TreeSearch fuel p ;;
        search_until_readouts rounds' fuel target p1
    end
  else Ok p.

(** The part of [SuggestMove] before the search loop: the forced first
    round on an unexpanded root, then the noise. *)
Definition SuggestMove_prepare (fuel : nat) (inject : bool) (p : Player)
    : result Player :=
  p1 <- (if negb (HasFlag_kExpanded (root_ p) (tree_ p)) then
           '(s, q) <- SelectLeaves fuel (root_ p) 1 [] p ;;
           let q1 := set_leaves (sel_leaves s) q in
           ProcessLeaves (tree_search_leaves_ q1)
                         (random_symmetry (options_ q1)) q1
         else Ok p) ;;
  Ok (if inject then
        let '(noise, rnd) := Dirichlet kNumMoves (rnd_ p1) in
        set_tree (InjectNoise noise (noise_mix (options_ p1))
                              (root_ p1) (tree_ p1))
                 (set_rnd rnd p1)
      else p1).

(** The search loop of [SuggestMove], from the player [p] that the
    preparation left and the time [start] taken on entry. *)
Definition SuggestMove_search (rounds fuel : nat) (start : Time)
    (new_readouts : Z) (p : Player) : result Player :=
  let current_readouts := N (root_ p) (tree_ p) in
  if f_gt (seconds_per_move (options_ p)) f_zero then
    (* Use time to limit the number of reads. *)
    seconds <- (if f_gt (time_limit (options_ p)) f_zero then
                  match TimeRecommendation
                          (pos_n (node_position (tree_ p) (root_ p)))
                          (seconds_per_move (options_ p))
                          (time_limit (options_ p))
                          (decay_factor (options_ p)) with
                  | Some s => Ok s
                  | None => Undefined
                  end
                else Ok (seconds_per_move (options_ p))) ;;
    search_until_deadline rounds fuel start seconds p
  else
    (* Use a fixed number of reads. *)
    search_until_readouts rounds fuel (current_readouts + new_readouts) p.

Definition SuggestMove (rounds fuel : nat) (new_readouts : Z)
    (inject : bool) (p : Player) : result (Coord * Player) :=
  let '(start, clk) := Now (clock_ p) in
  p1 <- SuggestMove_prepare fuel inject (set_clock clk p) ;;
  p2 <- SuggestMove_search rounds fuel start new_readouts p1 ;;
  if ShouldResign p2 then Ok (kResign, p2) else PickMove p2.


(** ** UpdateGame *)

(** The backward scan over [inferences_]: [rev_infs] is the list from its
    last record to its first; the scan stops at the first record whose
    [last_move] is before move [n]. *)
Fixpoint models_since (n : Z) (rev_infs : list InferenceInfo) : list string :=
  match rev_infs with
  | [] => []
  | r :: rest =>
      if last_move r <? n then [] else model r :: models_since n rest
  end.

Definition models_used (p : Player) : list string :=
  rev (models_since (pos_n (node_position (tree_ p) (root_ p)))
                    (rev (inferences_ p))).

Definition newline : string := String (Ascii.ascii_of_nat 10) EmptyString.

Definition move_comment (p : Player) : string :=
  let comment := Describe (root_ p) (tree_ p) in
  match models_used p with
  | [] => comment
  | models =>
      ("models:" ++ String.concat "," models ++ newline ++ comment)%string
  end.

(** [search_pi] before it is normalized: squashed counts before the
    temperature cutoff, the counts themselves from the cutoff on. *)
Definition visit_weights (p : Player) : list float :=
  if pos_n (node_position (tree_ p) (root_ p)) <? temperature_cutoff_ p then
    map (fun i => f_pow (child_N (root_ p) (tree_ p) i)
                        (policy_softmax_temp (options_ p)))
        (seq 0 kNumMoves)
  else
    map (fun i => child_N (root_ p) (tree_ p) i) (seq 0 kNumMoves).

(** [float sum = 0; for (...) sum += search_pi[i];] *)
Definition sum_floats (l : list float) : float :=
  fold_left f_add l f_zero.

(** "Normalize counts." *)
Definition search_pi (p : Player) : list float :=
  let weights := visit_weights p in
  let sum := sum_floats weights in
  map (fun w => f_div w sum) weights.

Definition UpdateGame (c : Coord) (p : Player) : Player :=
  let position := node_position (tree_ p) (root_ p) in
  set_game
    (AddMove (to_play position) c (stones position) (move_comment p)
             (Q (root_ p) (tree_ p)) (search_pi p) (models_used p) (game_ p))
    p.

(** ** PlayMove *)

(** The history dump of the illegal-move path. *)
Definition history_dump (g : Game) : list LogEntry :=
  map (fun i => let '(color, c) := GetMove g i in LogHistoryMove color c)
      (seq 0 (num_moves g)).

(** "Handle consecutive passing or termination by move limit." *)
Definition end_of_game (p : Player) : Player :=
  let score :=
    CalculateScore (node_position (tree_ p) (root_ p)) (komi (game_ p)) in
  if at_move_limit (root_ p) (tree_ p) then
    set_game (SetGameOverBecauseMoveLimitReached score (game_ p)) p
  else if game_over (root_ p) (tree_ p) then
    set_game (SetGameOverBecauseOfPasses score (game_ p)) p
  else p.

(** [root_ = root_->MaybeAddChild(c)] with the pruning policy around it. *)
Definition advance_root (c : Coord) (p : Player) : Player :=
  if tree_reuse (options_ p) then
    let '(child, t) := MaybeAddChild c (root_ p) (tree_ p) in
    let t1 :=
      if prune_orphaned_nodes (options_ p)
      then PruneChildren c (node_parent t child) t else t in
    set_tree t1 (set_root child p)
  else
    let t0 := children_clear (tree_ p) (root_ p) in
    let '(child, t) := MaybeAddChild c (root_ p) t0 in
    set_tree t (set_root child p).

Definition PlayMove (c : Coord) (p : Player) : bool * Player :=
  if game_over (root_ p) (tree_ p) then
    (false, log [LogGameIsOver c] p)
  else if Nat.eqb c kResign then
    (* Handle resignations. *)
    (true,
     set_game (SetGameOverBecauseOfResign
                 (OtherColor (to_play (node_position (tree_ p) (root_ p))))
                 (game_ p)) p)
  else if negb (legal_move (node_position (tree_ p) (root_ p)) c) then
    (false,
     log ([LogIllegalMove c; LogPlayerOptions; LogGameOptions]
          ++ history_dump (game_ p)) p)
  else
    (true, end_of_game (advance_root c (UpdateGame c p))).


End Player.

(* ===================================================================== *)
(** * MctsPlayer: the remaining members *)
(* ===================================================================== *)

Section Lifecycle.
Context {FM : FloatModel} {BD : Build} {TA : TreeAPI} {GA : GameAPI}
        {NA : NetAPI} {RA : RandomAPI} {SA : StartAPI}.

(** ** InitializeGame and NewGame *)

(** [root_stats_ = {}; game_root_ = MctsNode(&root_stats_, Position(&bv_,
    &gv_, position)); root_ = &game_root_; game_->NewGame();] *)
Definition InitializeGame (position : Position) (p : Player) : Player :=
  let t0 := stats_reset root_stats_ (tree_ p) in
  let t1 := node_assign t0 game_root_
              (MctsNode_root root_stats_ (Position_copy position)) in
  set_game (Game_NewGame (game_ p)) (set_root game_root_ (set_tree t1 p)).

Definition NewGame (p : Player) : Player :=
  InitializeGame (Position_new kBlack) p.

(** ** The constructor *)

(** The member initializers, the body, and the call of [NewGame] that ends
    it.  [memory] is the memory the player is built in and [clock] the wall
    clock at that time; the members without an initializer are empty. *)
Definition MctsPlayer_new (network : Net) (inference_cache : option Cache)
    (game : Game) (options : Options) (memory : Tree) (clock : Clock)
    : Player :=
  NewGame
    {| network_ := network;
       tree_ := node_assign memory game_root_
                  (MctsNode_root root_stats_ (Position_new kBlack));
       root_ := game_root_;
       game_ := game;
       rnd_ := Random_new (random_seed options);
       clock_ := clock;
       options_ := options;
       inference_cache_ := inference_cache;
       temperature_cutoff_ := temperature_cutoff_of options;
       tree_search_leaves_ := [];
       symmetries_used_ := [];
       features_ := [];
       outputs_ := [];
       inference_model_ := EmptyString;
       inferences_ := [];
       tree_search_cb_ := false;
       cb_calls_ := [];
       log_ := [] |}.

End Lifecycle.

Section Observers.
Context {FM : FloatModel} {BD : Build} {TA : TreeAPI} {GA : GameAPI}
        {NA : NetAPI} {RA : RandomAPI}.

(** ** SetTreeSearchCallback *)

(** [tree_search_cb_ = std::move(cb)]; [cb] says whether the function
    object that comes in holds a target. *)
Definition SetTreeSearchCallback (cb : bool) (p : Player) : Player :=
  {| network_ := network_ p; tree_ := tree_ p; root_ := root_ p;
     game_ := game_ p; rnd_ := rnd_ p; clock_ := clock_ p;
     options_ := options_ p; inference_cache_ := inference_cache_ p;
     temperature_cutoff_ := temperature_cutoff_ p;
     tree_search_leaves_ := tree_search_leaves_ p;
     symmetries_used_ := symmetries_used_ p; features_ := features_ p;
     outputs_ := outputs_ p; inference_model_ := inference_model_ p;
     inferences_ := inferences_ p; tree_search_cb_ := cb;
     cb_calls_ := cb_calls_ p; log_ := log_ p |}.

(** ** GetModelsUsedForInference *)

(** [absl::StrCat] of an integer: its decimal digits, after a minus sign
    when it is negative. *)
Definition StrCat_int (z : Z) : string := NilZero.string_of_int (Z.to_int z).

(** [absl::StrCat(info.model, "(", info.first_move, ",", info.last_move, ")")] *)
Definition inference_part (info : InferenceInfo) : string :=
  (model info ++ "(" ++ StrCat_int (first_move info) ++ ","
   ++ StrCat_int (last_move info) ++ ")")%string.

Definition GetModelsUsedForInference (p : Player) : string :=
  String.concat ", " (map inference_part (inferences_ p)).

End Observers.

(* ===================================================================== *)
(** * What the statements below say *)
(* ===================================================================== *)

Section Statements.
Context {FM : FloatModel} {BD : Build} {TA : TreeAPI} {GA : GameAPI}
        {NA : NetAPI} {RA : RandomAPI}.




(** What holds of the locals between two passes. *)
Definition selecting (num_leaves : Z) (leaves : list Node)
    (s : SelectState) : Prop :=
  sel_leaves s = leaves ++ virtual_loss_targets (sel_calls s)
  /\ num_selected s = Z.of_nat (List.length (virtual_loss_targets (sel_calls s)))
  /\ num_cache_misses s = misses_in (sel_calls s)
  /\ num_cache_hits s = hits_in (sel_calls s)
  /\ num_cache_misses s <= num_leaves * 2.

Definition passes_made (s : SelectState) : Z :=
  num_cache_misses s + num_cache_hits s.

(** The inference outputs as the last loop hands them to the tree. *)
Definition written_back (syms : list Symmetry) (outs : list Output)
    : list Output :=
  map (fun so => normalize_output (fst so) (snd so)) (combine syms outs).

(** What a returning [ProcessLeaves] has done to [inferences_]. *)
Definition inferences_recorded (leaves : list Node) (p p' : Player) : Prop :=
  let n := pos_n (node_position (tree_ p) (root_ p)) in
  let batch := Z.of_nat (List.length leaves) in
  let name := inference_model_ p' in
  (leaves = [] \/ name = EmptyString -> inferences_ p' = inferences_ p)
  /\ (leaves <> [] -> name <> EmptyString ->
      (inferences_ p = [] ->
       inferences_ p' = [touch n batch (InferenceInfo_new name n)])
      /\ (forall init r, inferences_ p = init ++ [r] ->
          (model r <> name ->
           inferences_ p'
           = init ++ [r; touch n batch (InferenceInfo_new name n)])
          /\ (model r = name ->
              inferences_ p' = init ++ [touch n batch r]))).

(** A predictor is equivariant when a symmetry of its input shows as the
    same symmetry of the board cells of its policy, and leaves the pass
    entry and the value alone. *)
Definition equivariant (predict : list float -> Output) : Prop :=
  forall (sym : Symmetry) (features : list float),
    List.length features = (kN * kN * kNumStoneFeatures)%nat ->
    let augmented := predict (ApplySymmetry kN kNumStoneFeatures sym features) in
    firstn (kN * kN) (policy augmented)
    = ApplySymmetry kN 1 sym (firstn (kN * kN) (policy (predict features)))
    /\ nth kPass (policy augmented) f_zero
       = nth kPass (policy (predict features)) f_zero
    /\ value augmented = value (predict features).

(** [Inverse] undoes a symmetry of a board of [kN * kN] cells. *)
Definition inverse_undoes : Prop :=
  forall (sym : Symmetry) (board : list float),
    List.length board = (kN * kN)%nat ->
    ApplySymmetry kN 1 (Inverse sym) (ApplySymmetry kN 1 sym board) = board.

(** The network [net] evaluates each position of a batch by [predict]. *)
Definition evaluates_by (predict : list float -> Output) (net : Net) : Prop :=
  forall (fs : list (list float)) (i : nat),
    (i < List.length fs)%nat ->
    fst (fst (RunMany fs net)) i = predict (nth i fs []).

(** What a returning [ProcessLeaves] has written back for a batch. *)
Definition symmetry_undone (leaves : list Node) (p p' : Player) : Prop :=
  let syms := symmetries_used_ p' in
  let outs := outputs_ p' in
  (tree_ p', inference_cache_ p')
  = fold_left (fun acc lw =>
                 incorporate_leaf (options_ p) (root_ p) (fst lw) (snd lw) acc)
              (combine leaves (written_back syms outs))
              (tree_ p, inference_cache_ p)
  /\ List.length (written_back syms outs) = List.length leaves
  /\ (forall i sym out,
        nth_error syms i = Some sym -> nth_error outs i = Some out ->
        nth_error (written_back syms outs) i
        = Some {| policy :=
                    ApplySymmetry kN 1 (Inverse sym)
                      (firstn (kN * kN) (policy out))
                    ++ [nth kPass (policy out) f_zero];
                  value := value out |})
  /\ (forall predict : list float -> Output,
        equivariant predict -> inverse_undoes ->
        evaluates_by predict (network_ p) ->
        (forall leaf, In leaf leaves ->
           List.length (raw_features (tree_ p) leaf)
           = (kN * kN * kNumStoneFeatures)%nat
           /\ List.length (policy (predict (raw_features (tree_ p) leaf)))
              = kNumMoves) ->
        written_back syms outs
        = map (fun leaf => predict (raw_features (tree_ p) leaf)) leaves).

(** What a returning [SuggestMove] without a time budget has done to the
    root's visit count: [p1] is the player after the preparation, [p2] the
    player after the search loop. *)
Definition readouts_added (fuel : nat) (new_readouts : Z) (inject : bool)
    (p p' : Player) : Prop :=
  exists p1 p2,
    SuggestMove_prepare fuel inject (set_clock (snd (Now (clock_ p))) p) = Ok p1
    /\ tree_ p' = tree_ p2 /\ root_ p' = root_ p2 /\ root_ p2 = root_ p1
    /\ let current_readouts := N (root_ p1) (tree_ p1) in
       current_readouts + new_readouts <= N (root_ p') (tree_ p')
       /\ (new_readouts <= 0 -> p2 = p1)
       /\ (0 < new_readouts ->
           exists q, N (root_ q) (tree_ q) < current_readouts + new_readouts
                     /\ TreeSearch fuel q = Ok p2).

(** A rejected move: the call fails and only the error log has grown. *)
Definition rejected (c : Coord) (p : Player) : Prop :=
  let p' := snd (PlayMove c p) in
  fst (PlayMove c p) = false
  /\ root_ p' = root_ p
  /\ tree_ p' = tree_ p
  /\ game_ p' = game_ p
  /\ N (root_ p') (tree_ p') = N (root_ p) (tree_ p)
  /\ (forall i, child_N (root_ p') (tree_ p') i = child_N (root_ p) (tree_ p) i)
  /\ exists lines, p' = log lines p.

End Statements.

Section ExactStatements.
Variable pow : Qc -> Qc -> Qc.
Let FM : FloatModel := exact pow.
Context {BD : Build} {TA : @TreeAPI FM} {GA : @GameAPI FM TA}
        {NA : @NetAPI FM TA} {RA : @RandomAPI FM}.

Local Open Scope Qc_scope.

(** What [UpdateGame] forwards as the distribution of the move. *)
Definition distribution_forwarded (c : Coord) (p : @Player FM TA GA NA RA)
    : Prop :=
  let n := pos_n (node_position (tree_ p) (root_ p)) in
  let position := node_position (tree_ p) (root_ p) in
  game_ (UpdateGame c p)
  = AddMove (to_play position) c (stones position) (move_comment p)
            (Q (root_ p) (tree_ p)) (search_pi p) (models_used p) (game_ p)
  /\ search_pi p
     = map (fun w => w / sum_floats (visit_weights p)) (visit_weights p)
  /\ (Z.lt n (temperature_cutoff_ p) ->
      visit_weights p
      = map (fun i => pow (child_N (root_ p) (tree_ p) i)
                          (policy_softmax_temp (options_ p)))
            (seq 0 kNumMoves))
  /\ (Z.le (temperature_cutoff_ p) n ->
      visit_weights p
      = map (fun i => child_N (root_ p) (tree_ p) i) (seq 0 kNumMoves))
  /\ sum_floats (search_pi p) = 1.

End ExactStatements.

(** ** Histories of calls, and what is assumed of the collaborators *)

Section Calls.
Context {FM : FloatModel} {BD : Build} {TA : TreeAPI} {GA : GameAPI}
        {NA : NetAPI} {RA : RandomAPI} {SA : StartAPI}.

(** One call of a member function that returned: the player before the
    call and after it. *)
Inductive call_returns : Player -> Player -> Prop :=
| returns_InitializeGame (position : Position) (p : Player) :
    call_returns p (InitializeGame position p)
| returns_NewGame (p : Player) :
    call_returns p (NewGame p)
| returns_UndoMove (p : Player) :
    call_returns p (snd (UndoMove p))
| returns_SuggestMove (rounds fuel : nat) (new_readouts : Z) (inject : bool)
    (p : Player) (c : Coord) (p' : Player) :
    SuggestMove rounds fuel new_readouts inject p = Ok (c, p') ->
    call_returns p p'
| returns_PickMove (p : Player) (c : Coord) (p' : Player) :
    PickMove p = Ok (c, p') -> call_returns p p'
| returns_TreeSearch (fuel : nat) (p p' : Player) :
    TreeSearch fuel p = Ok p' -> call_returns p p'
| returns_SelectLeaves (fuel : nat) (root : Node) (num_leaves : Z)
    (leaves : list Node) (p : Player) (s : SelectState) (p' : Player) :
    SelectLeaves fuel root num_leaves leaves p = Ok (s, p') ->
    call_returns p p'
| returns_ProcessLeaves (leaves : list Node) (random_sym : bool)
    (p p' : Player) :
    ProcessLeaves leaves random_sym p = Ok p' -> call_returns p p'
| returns_SetTreeSearchCallback (cb : bool) (p : Player) :
    call_returns p (SetTreeSearchCallback cb p)
| returns_PlayMove (c : Coord) (p : Player) :
    call_returns p (snd (PlayMove c p))
| returns_UpdateGame (c : Coord) (p : Player) :
    call_returns p (UpdateGame c p).

(** The players that a sequence of returning calls leads to. *)
Inductive reachable (start : Player) : Player -> Prop :=
| reachable_start : reachable start start
| reachable_call (p p' : Player) :
    reachable start p -> call_returns p p' -> reachable start p'.

End Calls.

Section Contracts.
Context {FM : FloatModel} {BD : Build} {TA : TreeAPI} {GA : GameAPI}
        {NA : NetAPI} {RA : RandomAPI}.

(** [MctsNode] keeps its count of virtual losses: [AddVirtualLoss] raises
    the count of the leaf it is called on, and neither it nor the other
    calls that [SelectLeaves] makes lower the count of any node. *)
Definition virtual_loss_contract : Prop :=
  (forall root t n,
      num_virtual_losses_applied t n
      <= num_virtual_losses_applied (snd (SelectLeaf root t)) n)
  /\ (forall v root leaf t n,
        num_virtual_losses_applied t n
        <= num_virtual_losses_applied (IncorporateEndGameResult v root leaf t) n)
  /\ (forall penalty pol v root leaf t n,
        num_virtual_losses_applied t n
        <= num_virtual_losses_applied
             (IncorporateResults penalty pol v root leaf t) n)
  /\ (forall root leaf t n,
        num_virtual_losses_applied t n
        <= num_virtual_losses_applied (AddVirtualLoss root leaf t) n)
  /\ (forall root leaf t,
        num_virtual_losses_applied t leaf + 1
        <= num_virtual_losses_applied (AddVirtualLoss root leaf t) leaf).

(** What a call of the history does to the tree [t] that [SelectLeaf] has
    left. *)
Definition call_effect (o : Options) (g : Game) (root : Node) (c : NodeCall)
    (t : Tree) : Tree :=
  match c with
  | EndGameResult leaf =>
      IncorporateEndGameResult
        (if f_gt (CalculateScore (node_position t leaf) (komi g)) f_zero
         then f_of_int 1 else f_of_int (-1))
        root leaf t
  | CachedResults leaf cached_output =>
      IncorporateResults (value_init_penalty o) (policy cached_output)
                         (value cached_output) root leaf t
  | VirtualLoss leaf => AddVirtualLoss root leaf t
  end.

(** The tree that the calls of a history leave when they are made in order
    on [t], each on the leaf that [SelectLeaf] has just returned from the
    root; [None] when a call is on another node than that leaf. *)
Fixpoint replay (o : Options) (g : Game) (root : Node)
    (calls : list NodeCall) (t : Tree) : option Tree :=
  match calls with
  | [] => Some t
  | c :: rest =>
      let '(leaf, t1) := SelectLeaf root t in
      if node_eqb (call_target c) leaf
      then replay o g root rest (call_effect o g root c t1)
      else None
  end.

(** How many entries of a vector are the node [n]. *)
Definition occurrences (n : Node) (l : list Node) : Z :=
  Z.of_nat (List.length (filter (node_eqb n) l)).

(** What holds of a call [SelectLeaves(root, num_leaves, &leaves)] made
    on player [p], followed for at most [fuel] passes of its loop; [s] is
    where the loop stands then. *)
Definition SelectLeaves_post (fuel : nat) (root : Node) (num_leaves : Z)
    (leaves : list Node) (p : Player) : Prop :=
  let s := SelectLeaves_after fuel (options_ p) (game_ p) root num_leaves
             (SelectLeaves_init leaves p) in
  let returned :=
    SelectLeaves fuel root num_leaves leaves p
    = Ok (s, set_cache (sel_cache s) (set_tree (sel_tree s) p)) in
  let appended := virtual_loss_targets (sel_calls s) in
  (* the vector has grown by the nodes that received AddVirtualLoss, one
     entry for each call *)
  sel_leaves s = leaves ++ appended
  (* the entries are at most num_leaves *)
  /\ Z.of_nat (List.length appended) <= num_leaves
  (* end-game results and new leaves are what num_cache_misses counts,
     and there are at most 2 * num_leaves of them *)
  /\ misses_in (sel_calls s) = num_cache_misses s
  /\ num_cache_misses s <= 2 * num_leaves
  /\ hits_in (sel_calls s) = num_cache_hits s
  (* the call has returned, unless every pass so far was made and fewer
     than 2 * num_leaves of them were misses *)
  /\ (returned
      \/ (SelectLeaves fuel root num_leaves leaves p = OutOfFuel
          /\ Z.of_nat fuel = num_cache_misses s + num_cache_hits s
          /\ num_cache_misses s < 2 * num_leaves))
  (* without a cache, 2 * num_leaves passes are enough *)
  /\ (inference_cache_ p = None -> 2 * num_leaves <= Z.of_nat fuel -> returned)
  (* the tree is the one these calls leave: nothing else was done to it,
     and every call was made *)
  /\ replay (options_ p) (game_ p) root (sel_calls s) (tree_ p)
     = Some (sel_tree s)
  (* so a node carries a virtual loss more for every entry it has among
     the appended ones *)
  /\ (virtual_loss_contract ->
      forall n, num_virtual_losses_applied (tree_ p) n + occurrences n appended
                <= num_virtual_losses_applied (sel_tree s) n).

(** No node of the tree has a negative count of virtual losses, and the
    leaves of the vector have a positive one. *)
Definition losses_applied (t : Tree) (leaves : list Node) : Prop :=
  (forall n, 0 <= num_virtual_losses_applied t n)
  /\ Forall (fun leaf => 0 < num_virtual_losses_applied t leaf) leaves.

(** [InferenceInfo(model, first_move)] stores its arguments and starts the
    count at zero. *)
Definition inference_info_contract : Prop :=
  forall name n,
    model (InferenceInfo_new name n) = name
    /\ first_move (InferenceInfo_new name n) = n
    /\ total_count (InferenceInfo_new name n) = 0.

(** The leaves evaluated according to a list of records. *)
Definition evaluations (infs : list InferenceInfo) : Z :=
  fold_right (fun r acc => total_count r + acc) 0 infs.

(** No two neighbours of the list are equal. *)
Fixpoint adjacent_distinct (names : list string) : Prop :=
  match names with
  | a :: (b :: _) as rest => a <> b /\ adjacent_distinct rest
  | _ => True
  end.

(** Records as [ProcessLeaves] makes them: every record names its model
    and counts at least one leaf, and neighbours name different models. *)
Definition inferences_well_formed (infs : list InferenceInfo) : Prop :=
  Forall (fun r => model r <> EmptyString /\ 1 <= total_count r) infs
  /\ adjacent_distinct (map model infs).

(** Whether the player holds an inference cache
    ([inference_cache_ != nullptr]). *)
Definition has_value {A : Type} (o : option A) : bool :=
  match o with Some _ => true | None => false end.

Definition cache_present (p : Player) : bool :=
  has_value (inference_cache_ p).

(** What no member function changes once the constructor has run: the
    options, the temperature cutoff and whether there is a cache; and what
    every member function keeps about the inference records. *)
Definition setup_kept (p p' : Player) : Prop :=
  options_ p' = options_ p
  /\ temperature_cutoff_ p' = temperature_cutoff_ p
  /\ cache_present p' = cache_present p
  /\ (inference_info_contract ->
      inferences_well_formed (inferences_ p) ->
      inferences_well_formed (inferences_ p')).

(** The child that [PlayMove] makes the root for move [c] hangs under the
    old root, and is not the game root. *)
Definition child_linked (c : Coord) (p : Player) : Prop :=
  let p' := advance_root c (UpdateGame c p) in
  node_parent (tree_ p') (root_ p') = root_ p /\ root_ p' <> game_root_.

(** What a returning [PickMove] can have done. *)
Definition PickMove_post (p : Player) (c : Coord) (p' : Player) : Prop :=
  let n := pos_n (node_position (tree_ p) (root_ p)) in
  (temperature_cutoff_ p <= n
   /\ c = GetMostVisitedMove (root_ p) (tree_ p) /\ p' = p)
  \/ (n < temperature_cutoff_ p
      /\ f_eqb (last (pick_cdf p) f_zero) f_zero = true
      /\ c = kPass /\ p' = p)
  \/ (n < temperature_cutoff_ p
      /\ f_eqb (last (pick_cdf p) f_zero) f_zero = false
      /\ c = SearchSorted (pick_cdf p)
               (f_mul (fst (rnd_uniform (rnd_ p))) (last (pick_cdf p) f_zero))
      /\ p' = set_rnd (snd (rnd_uniform (rnd_ p))) p
      /\ (c <= kPass)%nat
      /\ (debug_build = true ->
          f_eqb (child_N (root_ p) (tree_ p) c) f_zero = false)).

(** What search leaves alone: the root pointer, the game history, the
    options, the temperature cutoff, the observer and the error log. *)
Definition search_frame (p p' : Player) : Prop :=
  root_ p' = root_ p /\ game_ p' = game_ p /\ options_ p' = options_ p
  /\ temperature_cutoff_ p' = temperature_cutoff_ p
  /\ tree_search_cb_ p' = tree_search_cb_ p /\ log_ p' = log_ p.

(** The runs of [while (absl::Now() - start < absl::Seconds(seconds))
    TreeSearch();], from the player before the loop to the player after
    it.  Every pass reads the clock once; a reading within the budget is
    followed by one [TreeSearch], the first reading that is not ends the
    loop, and nothing is done after it. *)
Inductive deadline_loop (fuel : nat) (start : Time) (seconds : float)
    : Player -> Player -> Prop :=
| deadline_reached (p : Player) :
    elapsed_less start (fst (Now (clock_ p))) seconds = false ->
    deadline_loop fuel start seconds p (set_clock (snd (Now (clock_ p))) p)
| deadline_round (p p1 p' : Player) :
    elapsed_less start (fst (Now (clock_ p))) seconds = true ->
    TreeSearch fuel (set_clock (snd (Now (clock_ p))) p) = Ok p1 ->
    deadline_loop fuel start seconds p1 p' ->
    deadline_loop fuel start seconds p p'.

End Contracts.


(* ===================================================================== *)
(** * A fake of every collaborator *)
(* ===================================================================== *)

(** A small test double of the tree, the game, the network, the cache, the
    symmetries, the random generator and the clock.  It is not minigo's
    implementation: it is a tree search simple enough to follow by hand, on
    which the player above can be run. *)
Module Fake.
Section Fake.
Context {FM : FloatModel} {BD : Build}.

(** ** The tree *)

(** A node: its parent (0 is the null pointer), the move that led to it,
    the move number of its position, its visit count, whether it has been
    expanded, its virtual losses, the policy and value last incorporated,
    and its children by move. *)
Record FakeNode : Type := {
  fn_parent : nat;
  fn_move : Coord;
  fn_n : Z;
  fn_N : Z;
  fn_expanded : bool;
  fn_losses : Z;
  fn_policy : list float;
  fn_value : float;
  fn_children : list (Coord * nat)
}.

Definition fresh_node (parent : nat) (move : Coord) (n : Z) : FakeNode :=
  {| fn_parent := parent; fn_move := move; fn_n := n; fn_N := 0;
     fn_expanded := false; fn_losses := 0; fn_policy := [];
     fn_value := f_zero; fn_children := [] |}.

(** Memory: the latest binding of an address wins; address 0 is null. *)
Definition Heap : Type := list (nat * FakeNode).

Fixpoint read (t : Heap) (p : nat) : FakeNode :=
  match t with
  | [] => fresh_node 0 0 0
  | (q, v) :: t' => if Nat.eqb p q then v else read t' p
  end.

Definition write (t : Heap) (p : nat) (v : FakeNode) : Heap := (p, v) :: t.

Lemma read_write (t : Heap) (p : nat) (v : FakeNode) :
  read (write t p v) p = v.
Proof. simpl. rewrite Nat.eqb_refl. reflexivity. Qed.

Definition fresh_address (t : Heap) : nat :=
  S (fold_right (fun kv m => Nat.max (fst kv) m) 1%nat t).

Fixpoint child_of (children : list (Coord * nat)) (c : Coord) : option nat :=
  match children with
  | [] => None
  | (c', a) :: rest => if Nat.eqb c c' then Some a else child_of rest c
  end.

Definition with_children (v : FakeNode) (cs : list (Coord * nat)) : FakeNode :=
  {| fn_parent := fn_parent v; fn_move := fn_move v; fn_n := fn_n v;
     fn_N := fn_N v; fn_expanded := fn_expanded v; fn_losses := fn_losses v;
     fn_policy := fn_policy v; fn_value := fn_value v; fn_children := cs |}.

Definition with_visit (v : FakeNode) : FakeNode :=
  {| fn_parent := fn_parent v; fn_move := fn_move v; fn_n := fn_n v;
     fn_N := fn_N v + 1; fn_expanded := fn_expanded v;
     fn_losses := fn_losses v; fn_policy := fn_policy v;
     fn_value := fn_value v; fn_children := fn_children v |}.

Definition with_loss (d : Z) (v : FakeNode) : FakeNode :=
  {| fn_parent := fn_parent v; fn_move := fn_move v; fn_n := fn_n v;
     fn_N := fn_N v; fn_expanded := fn_expanded v;
     fn_losses := fn_losses v + d; fn_policy := fn_policy v;
     fn_value := fn_value v; fn_children := fn_children v |}.

Definition with_result (pol : list float) (val : float) (v : FakeNode)
    : FakeNode :=
  {| fn_parent := fn_parent v; fn_move := fn_move v; fn_n := fn_n v;
     fn_N := fn_N v; fn_expanded := true; fn_losses := fn_losses v;
     fn_policy := pol; fn_value := val; fn_children := fn_children v |}.

Definition maybe_add_child (c : Coord) (node : nat) (t : Heap) : nat * Heap :=
  let v := read t node in
  match child_of (fn_children v) c with
  | Some a => (a, t)
  | None =>
      let a := fresh_address t in
      (a, write (write t a (fresh_node node c (fn_n v + 1)))
                node (with_children v ((c, a) :: fn_children v)))
  end.

(** The game of the fake ends with a pass, or at move 8. *)
Definition fake_game_over (node : nat) (t : Heap) : bool :=
  Nat.eqb (fn_move (read t node)) kPass && negb (Nat.eqb node 1).
Definition fake_at_move_limit (node : nat) (t : Heap) : bool :=
  8 <=? fn_n (read t node).

(** How busy a move is: visits and virtual losses of its child. *)
Definition load (v : FakeNode) (t : Heap) (c : Coord) : Z :=
  match child_of (fn_children v) c with
  | Some a => fn_N (read t a) + fn_losses (read t a)
  | None => 0
  end.

(** The least busy of the moves [c, c+1, ..., c+k], the lowest on ties. *)
Fixpoint least_busy (v : FakeNode) (t : Heap) (c : Coord) (k : nat) : Coord :=
  match k with
  | O => c
  | S k' =>
      let best := least_busy v t (S c) k' in
      if load v t best <? load v t c then best else c
  end.

(** Selection: walk down from [node] through expanded nodes, each time to
    the least busy move, until an unexpanded or finished node. *)
Fixpoint select_leaf (depth : nat) (node : nat) (t : Heap) : nat * Heap :=
  match depth with
  | O => (node, t)
  | S depth' =>
      let v := read t node in
      if negb (fn_expanded v) || fake_game_over node t
         || fake_at_move_limit node t
      then (node, t)
      else
        let '(child, t') := maybe_add_child (least_busy v t 0 (kN * kN)) node t in
        select_leaf depth' child t'
  end.

(** Apply [f] to [node] and to its ancestors up to [up_to]. *)
Fixpoint along_path (depth : nat) (f : FakeNode -> FakeNode)
    (up_to node : nat) (t : Heap) : Heap :=
  let t' := write t node (f (read t node)) in
  match depth with
  | O => t'
  | S depth' =>
      if Nat.eqb node up_to || Nat.eqb (fn_parent (read t node)) 0 then t'
      else along_path depth' f up_to (fn_parent (read t node)) t'
  end.

Definition max_depth : nat := 16.

Definition fake_child_N (node : nat) (t : Heap) (i : nat) : float :=
  match child_of (fn_children (read t node)) i with
  | Some a => f_of_int (fn_N (read t a))
  | None => f_zero
  end.

Definition child_visits (v : FakeNode) (t : Heap) (c : Coord) : Z :=
  match child_of (fn_children v) c with
  | Some a => fn_N (read t a)
  | None => 0
  end.

(** The most visited of the moves [c, ..., c+k], the lowest on ties. *)
Fixpoint most_visited (v : FakeNode) (t : Heap) (c : Coord) (k : nat) : Coord :=
  match k with
  | O => c
  | S k' =>
      let best := most_visited v t (S c) k' in
      if child_visits v t c <? child_visits v t best then best else c
  end.

(** The statistics of a node are not part of the node in the program: its
    constructors are given a pointer to them, or find them with the parent.
    The fake keeps the visit count in the node and stands for the pointer
    by the count behind it: a node built on statistics starts with their
    count. *)
Definition built_on (visits : Z) (v : FakeNode) : FakeNode :=
  {| fn_parent := fn_parent v; fn_move := fn_move v; fn_n := fn_n v;
     fn_N := visits; fn_expanded := fn_expanded v; fn_losses := fn_losses v;
     fn_policy := fn_policy v; fn_value := fn_value v;
     fn_children := fn_children v |}.

Definition fake_to_play (n : Z) : Color :=
  if Z.even n then kBlack else kWhite.

#[export] Instance tree : TreeAPI := {|
  Tree := Heap;
  Node := nat;
  Position := Z;
  StatsPtr := Z;
  Stones := unit;
  NodeValue := FakeNode;
  node_eqb := Nat.eqb;
  node_eqb_eq := Nat.eqb_eq;
  nullptr := 0%nat;
  game_root_ := 1%nat;
  node_parent := fun t p => fn_parent (read t p);
  node_move := fun t p => fn_move (read t p);
  node_position := fun t p => fn_n (read t p);
  node_stats := fun t p => fn_N (read t p);
  num_virtual_losses_applied := fun t p => fn_losses (read t p);
  children_clear := fun t p => write t p (with_children (read t p) []);
  MctsNode_child := fun t parent c =>
    built_on (child_visits (read t parent) t c)
             (fresh_node parent c (fn_n (read t parent) + 1));
  MctsNode_root := fun stats n => built_on stats (fresh_node 0 0 n);
  node_read := read;
  node_assign := write;
  node_read_assign := read_write;
  pos_n := fun n => n;
  to_play := fake_to_play;
  stones := fun _ => tt;
  legal_move := fun _ c => Nat.leb c kPass;
  CalculateScore := fun _ komi => f_sub f_zero komi;
  HasFlag_kExpanded := fun p t => fn_expanded (read t p);
  game_over := fake_game_over;
  at_move_limit := fake_at_move_limit;
  N := fun p t => fn_N (read t p);
  child_N := fake_child_N;
  Q := fun p t => fn_value (read t p);
  Q_perspective := fun p t => fn_value (read t p);
  GetMostVisitedMove := fun p t => most_visited (read t p) t 0 (kN * kN);
  Describe := fun _ _ => EmptyString;
  GetMoveHistory := fun _ p t => [fn_n (read t p)];
  SelectLeaf := select_leaf max_depth;
  MaybeAddChild := maybe_add_child;
  PruneChildren := fun c p t =>
    write t p (with_children (read t p)
      (filter (fun ca => Nat.eqb (fst ca) c) (fn_children (read t p))));
  InjectNoise := fun _ _ _ t => t;
  IncorporateResults := fun _ pol val up_to leaf t =>
    along_path max_depth with_visit up_to leaf
      (write t leaf (with_result pol val (read t leaf)));
  IncorporateEndGameResult := fun _ up_to leaf t =>
    along_path max_depth with_visit up_to leaf t;
  AddVirtualLoss := fun up_to leaf t =>
    along_path max_depth (with_loss 1) up_to leaf t;
  RevertVirtualLoss := fun up_to leaf t =>
    along_path max_depth (with_loss (-1)) up_to leaf t
|}.

(** ** The game history *)

Record MoveRecord : Type := {
  mv_color : Color;
  mv_c : Coord;
  mv_comment : string;
  mv_q : float;
  mv_pi : list float;
  mv_models : list string
}.

Inductive GameOver : Type :=
| NotOver
| OverByResign (winner : Color)
| OverByMoveLimit (score : float)
| OverByPasses (score : float).

Record FakeGame : Type := {
  fg_moves : list MoveRecord;
  fg_over : GameOver;
  fg_komi : float;
  fg_resign_enabled : bool;
  fg_resign_threshold : float
}.

Definition with_moves (ms : list MoveRecord) (o : GameOver) (g : FakeGame)
    : FakeGame :=
  {| fg_moves := ms; fg_over := o; fg_komi := fg_komi g;
     fg_resign_enabled := fg_resign_enabled g;
     fg_resign_threshold := fg_resign_threshold g |}.

Definition no_move : MoveRecord :=
  {| mv_color := kEmpty; mv_c := 0; mv_comment := EmptyString;
     mv_q := f_zero; mv_pi := []; mv_models := [] |}.

#[export] Instance game : GameAPI := {|
  Game := FakeGame;
  komi := fg_komi;
  resign_enabled := fg_resign_enabled;
  resign_threshold := fg_resign_threshold;
  Game_NewGame := with_moves [] NotOver;
  Game_UndoMove := fun g => with_moves (removelast (fg_moves g)) NotOver g;
  num_moves := fun g => List.length (fg_moves g);
  GetMove := fun g i =>
    let m := nth i (fg_moves g) no_move in (mv_color m, mv_c m);
  AddMove := fun color c _ comment q pi models g =>
    with_moves (fg_moves g ++
                [{| mv_color := color; mv_c := c; mv_comment := comment;
                    mv_q := q; mv_pi := pi; mv_models := models |}])
               (fg_over g) g;
  SetGameOverBecauseOfResign := fun winner g =>
    with_moves (fg_moves g) (OverByResign winner) g;
  SetGameOverBecauseMoveLimitReached := fun score g =>
    with_moves (fg_moves g) (OverByMoveLimit score) g;
  SetGameOverBecauseOfPasses := fun score g =>
    with_moves (fg_moves g) (OverByPasses score) g
|}.

(** ** The symmetries of the square *)

Inductive Sym : Type :=
| Identity | Rot90 | Rot180 | Rot270
| Flip | FlipRot90 | FlipRot180 | FlipRot270.

Definition sym_of_int (z : Z) : Sym :=
  match z with
  | 0 => Identity | 1 => Rot90 | 2 => Rot180 | 3 => Rot270
  | 4 => Flip | 5 => FlipRot90 | 6 => FlipRot180 | _ => FlipRot270
  end.

Definition sym_inverse (s : Sym) : Sym :=
  match s with
  | Rot90 => Rot270
  | Rot270 => Rot90
  | _ => s
  end.

(** The cell of the source that lands on row [r], column [c]. *)
Definition source_cell (n : nat) (s : Sym) (r c : nat) : nat * nat :=
  match s with
  | Identity => (r, c)
  | Rot90 => (c, n - 1 - r)
  | Rot180 => (n - 1 - r, n - 1 - c)
  | Rot270 => (n - 1 - c, r)
  | Flip => (c, r)
  | FlipRot90 => (r, n - 1 - c)
  | FlipRot180 => (n - 1 - c, n - 1 - r)
  | FlipRot270 => (n - 1 - r, c)
  end%nat.

(** Arrays are laid out cell by cell, the channels of a cell together. *)
Definition apply_symmetry (n channels : nat) (s : Sym) (src : list float)
    : list float :=
  map (fun k =>
         let cell := (k / channels)%nat in
         let '(r, c) := source_cell n s (cell / n)%nat (cell mod n)%nat in
         nth ((r * n + c) * channels + k mod channels)%nat src f_zero)
      (seq 0 (n * n * channels)).

(** ** The network and the cache *)

Definition key_eqb (a b : Coord * Z) : bool :=
  Nat.eqb (fst a) (fst b) && (snd a =? snd b).

Fixpoint cache_find (key : Coord * Z) (c : list ((Coord * Z) * Output))
    : option Output :=
  match c with
  | [] => None
  | (k, v) :: c' => if key_eqb key k then Some v else cache_find key c'
  end.

(** The features of the fake: the move numbers of the history, spread over
    the board so that no two cells agree. *)
Definition fake_features (history : list Z) (to_move : Color) : list float :=
  map (fun k => f_of_int (hd 0 history + Z.of_nat k))
      (seq 0 (kN * kN * kNumStoneFeatures)).

(** The network is given by what it predicts for one position; its state is
    the name of the model it serves. *)
Definition net (predict : list float -> Output) : NetAPI := {|
  Net := string;
  Cache := list ((Coord * Z) * Output);
  Symmetry := Sym;
  kIdentity := Identity;
  kNumSymmetries := 8;
  Symmetry_of_int := sym_of_int;
  Inverse := sym_inverse;
  ApplySymmetry := apply_symmetry;
  SetFeatures := fake_features;
  RunMany := fun fs name => (fun i => predict (nth i fs []), name, name);
  TryGet := fun key c => (cache_find key c, c);
  CacheAdd := fun key out c => (key, out) :: c;
  InferenceInfo_new := fun name n =>
    {| model := name; first_move := n; last_move := n; total_count := 0 |}
|}.

(** A prediction that ignores its input: weight [k+1] on cell [k], weight 1
    on pass. *)
Definition constant_prediction (features : list float) : Output :=
  {| policy := map (fun k => f_of_int (Z.of_nat k + 1)) (seq 0 (kN * kN))
               ++ [f_one];
     value := f_zero |}.

(** A prediction that follows its input: the first feature of each cell is
    the weight of that cell. *)
Definition plane_prediction (features : list float) : Output :=
  {| policy := map (fun k => nth (k * kNumStoneFeatures) features f_zero)
                   (seq 0 (kN * kN))
               ++ [f_one];
     value := f_zero |}.

(** ** Randomness and time *)

#[export] Instance random : RandomAPI := {|
  Rnd := Z;
  rnd_uniform := fun r => (f_div (f_of_int (r mod 4)) (f_of_int 4), r + 1);
  UniformInt := fun lo hi r => (lo + r mod (hi - lo + 1), r + 1);
  Dirichlet := fun n r =>
    (repeat (f_div f_one (f_of_int (Z.of_nat n))) n, r + 1);
  Clock := Z;
  Time := Z;
  Now := fun c => (c, c + 1);
  elapsed_less := fun start now seconds => f_gt seconds (f_of_int (now - start))
|}.

(** ** Construction *)

(** A game that has not begun, with resignation disabled. *)
Definition new_game : FakeGame :=
  {| fg_moves := []; fg_over := NotOver; fg_komi := f_zero;
     fg_resign_enabled := false; fg_resign_threshold := f_zero |}.

(** A position of the fake is its move number: 0 with black to play, 1 with
    white to play.  The player's root statistics are the cleared ones: no
    visit. *)
#[export] Instance start : StartAPI := {|
  root_stats_ := 0;
  stats_reset := fun _ t => t;
  Position_new := fun color => match color with kWhite => 1 | _ => 0 end;
  Position_copy := fun n => n;
  Random_new := fun seed => seed
|}.

End Fake.

(** ** A player on the fake *)

(** The player as its constructor leaves it, over the fake collaborators:
    a tree that is just the game root (address 1), an empty history. *)
Definition new_player {FM : FloatModel} {BD : Build}
    (predict : list float -> Output) (o : Options) (name : string)
    (with_cache has_observer : bool)
    : @Player FM (@tree FM BD) (@game FM BD) (@net FM BD predict) (@random FM) :=
  @Build_Player FM (@tree FM BD) (@game FM BD) (@net FM BD predict) (@random FM)
    name                                   (* network_            *)
    [(1%nat, fresh_node 0 0 0)]            (* tree_               *)
    1%nat                                  (* root_               *)
    {| fg_moves := []; fg_over := NotOver; fg_komi := f_zero;
       fg_resign_enabled := false; fg_resign_threshold := f_zero |}
    (random_seed o)                        (* rnd_                *)
    0                                      (* clock_              *)
    o                                      (* options_            *)
    (if with_cache then Some [] else None) (* inference_cache_    *)
    (temperature_cutoff_of o)              (* temperature_cutoff_ *)
    [] [] [] []                            (* scratch vectors     *)
    EmptyString                            (* inference_model_    *)
    []                                     (* inferences_         *)
    has_observer                           (* tree_search_cb_     *)
    []                                     (* cb_calls_           *)
    [].                                    (* log_                *)

End Fake.

(* ===================================================================== *)
(** * Concrete players for the examples *)
(* ===================================================================== *)

Module Examples.

(** Boards: 2x2 with assertions compiled in, and 5x5 (the smallest on which
    soft-pick has a cutoff above zero) with and without them.  One feature
    plane, one position of history. *)
Definition board2 : Build :=
  {| kN := 2; kMoveHistory := 1; kNumStoneFeatures := 1; debug_build := true |}.
Definition board5 : Build :=
  {| kN := 5; kMoveHistory := 1; kNumStoneFeatures := 1; debug_build := true |}.
Definition board5_release : Build :=
  {| kN := 5; kMoveHistory := 1; kNumStoneFeatures := 1; debug_build := false |}.

(** Options in single precision: fixed readouts, no noise, no resignation;
    the batch size, the soft-pick, random-symmetry and tree-reuse flags,
    the temperature and the seed are left open. *)
Definition options32 (batch : Z) (soft random_sym reuse : bool)
    (temp : spec_float) (seed : Z) : @Options binary32 :=
  {| inject_noise := false; soft_pick := soft; random_symmetry := random_sym;
     value_init_penalty := Binary32.of_int 0; policy_softmax_temp := temp;
     virtual_losses := batch; num_readouts := 4;
     seconds_per_move := Binary32.of_int 0; time_limit := Binary32.of_int 0;
     decay_factor := Binary32.of_int 0; noise_mix := Binary32.of_int 0;
     tree_reuse := reuse; prune_orphaned_nodes := false; random_seed := seed |}.

(** The same options in exact arithmetic, with temperature one. *)
Definition pow_first (x y : Qc) : Qc := x.
Definition optionsQ (batch : Z) : @Options (exact pow_first) :=
  @Build_Options (exact pow_first)
    false false false                      (* noise, soft-pick, symmetry *)
    (Exact.of_int 0) (Exact.of_int 1)      (* penalty, temperature       *)
    batch 4                                (* batch size, readouts       *)
    (Exact.of_int 0) (Exact.of_int 0) (Exact.of_int 0)   (* time control *)
    (Exact.of_int 0)                       (* noise mix                  *)
    true false 0.                          (* reuse, pruning, seed       *)

(** What a result holds when the call returned, and whether it did. *)
Definition returned {A : Type} (r : result A) : option A :=
  match r with Ok a => Some a | _ => None end.

Definition is_ok {A : Type} (r : result A) : bool :=
  match r with Ok _ => true | _ => false end.

(** Whether the call died in an assertion. *)
Definition check_failed {A : Type} (r : result A) : bool :=
  match r with CheckFailed => true | _ => false end.

Section Helpers.
Context {FM : FloatModel} {BD : Build} {TA : TreeAPI} {GA : GameAPI}
        {NA : NetAPI} {RA : RandomAPI}.

(** The player a successful call leaves, [p] if the call did not return. *)
Definition after {A : Type} (r : result (A * Player)) (p : Player) : Player :=
  match r with Ok (_, p') => p' | _ => p end.

(** The player with one leaf selected from its root, as [TreeSearch] has it
    between [SelectLeaves] and [ProcessLeaves]. *)
Definition select_one (p : Player) : Player :=
  match SelectLeaves 8 (root_ p) 1 [] p with
  | Ok (s, q) => set_leaves (sel_leaves s) q
  | _ => p
  end.

(** That player after [ProcessLeaves] on the selected leaf. *)
Definition process_one (p : Player) : Player :=
  match ProcessLeaves (tree_search_leaves_ p)
                      (random_symmetry (options_ p)) p with
  | Ok p' => p'
  | _ => p
  end.

End Helpers.

(** ** On the 2x2 board, with the constant network *)
Section ConstantNetwork.
#[local] Existing Instance binary32.
#[local] Existing Instance board2.
#[local] Existing Instance Fake.tree.
#[local] Existing Instance Fake.game.
#[local] Existing Instance Fake.random.
#[local] Instance constant_net : NetAPI := Fake.net Fake.constant_prediction.

(** A new player served by model [name]. *)
Definition player2 (batch : Z) (random_sym reuse : bool) (seed : Z)
    (name : string) : Player :=
  Fake.new_player Fake.constant_prediction
    (options32 batch false random_sym reuse (Binary32.of_int 1) seed)
    name false false.

(** A new player without tree reuse; the same after the move 0; the same
    after a pass, which ends the game of the fake. *)
Definition fresh : Player := player2 1 false false 0 "m1".
Definition moved : Player := snd (PlayMove 0%nat fresh).
Definition passed : Player := snd (PlayMove 4%nat fresh).

(** The new player after a resignation. *)
Definition resigned : Player := snd (PlayMove kResign fresh).

(** A player whose root has children with 1, 2, 3 and 1 visits on the four
    cells, and none on pass. *)
Definition visited (parent : nat) (move : Coord) (visits : Z) : Fake.FakeNode :=
  {| Fake.fn_parent := parent; Fake.fn_move := move; Fake.fn_n := 1;
     Fake.fn_N := visits; Fake.fn_expanded := false; Fake.fn_losses := 0;
     Fake.fn_policy := []; Fake.fn_value := f_zero; Fake.fn_children := [] |}.
Definition uneven : Player :=
  set_tree
    [(1%nat, Fake.with_children (Fake.fresh_node 0 0 0)
               [(0%nat, 2%nat); (1%nat, 3%nat); (2%nat, 4%nat); (3%nat, 5%nat)]);
     (2%nat, visited 1 0 1); (3%nat, visited 1 1 2);
     (4%nat, visited 1 2 3); (5%nat, visited 1 3 1)]
    fresh.


(** A player with batches of two leaves, before and after two calls of
    [SuggestMove] that each ask for one more readout. *)
Definition batched : Player := player2 2 false true 0 "m1".
Definition searched : Player := after (SuggestMove 4 8 1 false batched) batched.
Definition searched_twice : Player :=
  after (SuggestMove 4 8 1 false searched) searched.

(** The player [searched] after a call of [SelectLeaves] that asks for
    eight leaves below its root, and the vector that call returns. *)
Definition crowded : Player :=
  after (SelectLeaves 40 (root_ searched) 8 [] searched) searched.
Definition crowded_leaves : list Node :=
  match SelectLeaves 40 (root_ searched) 8 [] searched with
  | Ok (s, _) => sel_leaves s
  | _ => []
  end.

(** A player whose root is selected for evaluation, served by "m1"; the
    same served by a model without a name; and a player who has records
    for "m1" and is now served by "m2". *)
Definition selected : Player := select_one fresh.
Definition selected_anonymous : Player :=
  select_one (player2 1 false false 0 EmptyString).
Definition reselected : Player :=
  select_one
    (@Build_Player binary32 _ _ _ _
       "m2"%string (tree_ searched) (root_ searched) (game_ searched)
       (rnd_ searched) (clock_ searched) (options_ searched)
       (inference_cache_ searched) (temperature_cutoff_ searched)
       [] [] [] [] (inference_model_ searched) (inferences_ searched)
       false [] []).

(** A player whose root is selected and whose seed makes the symmetry of
    the next batch a quarter turn. *)
Definition turned : Player := select_one (player2 1 true false 1 "m1").

End ConstantNetwork.

(** ** On the 2x2 board, with the network that follows its input *)
Section PlaneNetwork.
#[local] Existing Instance binary32.
#[local] Existing Instance board2.
#[local] Existing Instance Fake.tree.
#[local] Existing Instance Fake.game.
#[local] Existing Instance Fake.random.
#[local] Instance plane_net : NetAPI := Fake.net Fake.plane_prediction.

Definition turned_plane : Player :=
  select_one
    (Fake.new_player Fake.plane_prediction
       (options32 1 false true false (Binary32.of_int 1) 1) "m1" false false).

End PlaneNetwork.

(** ** On the 5x5 board, with soft-pick *)
Section SoftPick.
#[local] Existing Instance binary32.
#[local] Existing Instance Fake.random.

(** The player type over the fake collaborators of a board. *)
Definition FakePlayer (BD : Build) : Type :=
  @Player binary32 (@Fake.tree binary32 BD) (@Fake.game binary32 BD)
          (@Fake.net binary32 BD (@Fake.constant_prediction binary32 BD))
          (@Fake.random binary32).

(** New players with soft-pick: temperature one, temperature zero, and
    temperature zero in a build without assertions. *)
Definition soft_player (BD : Build) (temp : spec_float) : FakePlayer BD :=
  @Fake.new_player binary32 BD (@Fake.constant_prediction binary32 BD)
    (options32 1 true false true temp 0) "m1" false false.

Definition soft_warm : FakePlayer board5 :=
  soft_player board5 (Binary32.of_int 1).
Definition soft_cold : FakePlayer board5 :=
  soft_player board5 (Binary32.of_int 0).
Definition soft_cold_release : FakePlayer board5_release :=
  soft_player board5_release (Binary32.of_int 0).

End SoftPick.

(** ** On the 2x2 board, in exact arithmetic *)
Section ExactArithmetic.
#[local] Instance exact_first : FloatModel := exact pow_first.
#[local] Existing Instance board2.
#[local] Existing Instance Fake.tree.
#[local] Existing Instance Fake.game.
#[local] Existing Instance Fake.random.
#[local] Instance exact_net : NetAPI := Fake.net Fake.constant_prediction.

(** A player after a search of three more readouts. *)
Definition counted : Player :=
  let p := Fake.new_player Fake.constant_prediction (optionsQ 1)
             "m1" false false in
  after (SuggestMove 4 8 3 false p) p.

End ExactArithmetic.

(** ** Players made by the constructor, and others for the further
       properties *)

(** The boards of the game proper. *)
Definition board9 : Build :=
  {| kN := 9; kMoveHistory := 8; kNumStoneFeatures := 17; debug_build := false |}.
Definition board19 : Build :=
  {| kN := 19; kMoveHistory := 8; kNumStoneFeatures := 17; debug_build := false |}.

(** What a call returned, [d] if it did not return. *)
Definition result_or {A : Type} (r : result A) (d : A) : A :=
  match r with Ok a => a | _ => d end.

(** A player with soft-pick, made by the constructor on any board. *)
Definition built_soft (BD : Build) : FakePlayer BD :=
  @MctsPlayer_new binary32 BD (@Fake.tree binary32 BD) (@Fake.game binary32 BD)
    (@Fake.net binary32 BD (@Fake.constant_prediction binary32 BD))
    (@Fake.random binary32) (@Fake.start binary32 BD)
    "m1"%string None Fake.new_game
    (options32 8 true false true (Binary32.of_int 1) 0) [] 0.

(** The soft-pick player of the 5x5 board after a search of three more
    readouts. *)
Definition soft_searched : FakePlayer board5 :=
  @after binary32 (@Fake.tree binary32 board5) (@Fake.game binary32 board5)
    (@Fake.net binary32 board5 (@Fake.constant_prediction binary32 board5))
    (@Fake.random binary32) Coord
    (SuggestMove (BD := board5) 4 8 3 false soft_warm) soft_warm.

Section Built.
#[local] Existing Instance binary32.
#[local] Existing Instance board2.
#[local] Existing Instance Fake.tree.
#[local] Existing Instance Fake.game.
#[local] Existing Instance Fake.random.
#[local] Existing Instance Fake.start.
#[local] Existing Instance constant_net.

(** A player as the constructor makes it, with batches of two leaves; the
    same after a search for one more readout; the same after the move 0
    that follows. *)
Definition built : Player :=
  MctsPlayer_new "m1"%string None Fake.new_game
    (options32 2 false false true (Binary32.of_int 1) 0) [] 0.
Definition built_searched : Player :=
  after (SuggestMove 4 8 1 false built) built.
Definition built_moved : Player := snd (PlayMove 0%nat built_searched).

(** The player [searched] with its batch size set to zero. *)
Definition stalled : Player :=
  @Build_Player binary32 _ _ _ _
    (network_ searched) (tree_ searched) (root_ searched) (game_ searched)
    (rnd_ searched) (clock_ searched)
    (options32 0 false false true (Binary32.of_int 1) 0)
    (inference_cache_ searched) (temperature_cutoff_ searched)
    [] [] [] [] (inference_model_ searched) (inferences_ searched)
    false [] [].

(** A new player whose observer is registered, after one round of search. *)
Definition watched : Player :=
  result_or (TreeSearch 8 (SetTreeSearchCallback true fresh)) fresh.

(** A new player with two seconds for every move and no time limit,
    before and after a call of [SuggestMove]. *)
Definition options_timed : @Options binary32 :=
  {| inject_noise := false; soft_pick := false; random_symmetry := false;
     value_init_penalty := Binary32.of_int 0;
     policy_softmax_temp := Binary32.of_int 1;
     virtual_losses := 1; num_readouts := 4;
     seconds_per_move := Binary32.of_int 2; time_limit := Binary32.of_int 0;
     decay_factor := Binary32.of_int 0; noise_mix := Binary32.of_int 0;
     tree_reuse := true; prune_orphaned_nodes := false; random_seed := 0 |}.
Definition timed : Player :=
  Fake.new_player Fake.constant_prediction options_timed "m1" false false.
Definition timed_searched : Player :=
  after (SuggestMove 4 8 0 false timed) timed.

(** The player [searched] after [NewGame]. *)
Definition renewed : Player := NewGame searched.

End Built.

End Examples.

Unset Implicit Arguments.

(* ===================================================================== *)
(** * Properties of TimeRecommendation *)
(* ===================================================================== *)

Lemma quot2_in_int_range (z : Z) :
  in_int_range z = true -> in_int_range (Z.quot z 2) = true.
Proof.
  unfold in_int_range, INT_MIN, INT_MAX.
  change (2 ^ 31) with 2147483648.
  rewrite !andb_true_iff, !Z.leb_le. intros [Hlo Hhi].
  pose proof (Z.quot_rem' z 2) as Hq.
  destruct (Z.le_gt_cases 0 z) as [Hz|Hz].
  - pose proof (Z.rem_bound_pos_pos z 2 ltac:(lia) Hz). lia.
  - pose proof (Z.rem_bound_pos_neg z 2 ltac:(lia) ltac:(lia)). lia.
Qed.

Lemma int_checked_Some (z : Z) :
  in_int_range z = true -> int_checked z = Some z.
Proof. unfold int_checked. intros ->. reflexivity. Qed.

(** ** Signs in single precision *)

Section SinglePrecision.












End SinglePrecision.



(** The run in numbers: with one second for a move, a hundred seconds in
    all and a decay of 0.98f, the endgame time is a little above 50 and 49
    core moves are played at the base rate; the decay has not begun at
    move 0, and at move 120, the player's sixtieth, it has run for eleven
    moves. *)
Example TimeRecommendation_core_moves_run :
  f_to_int (FloatModel := binary32)
    (core_quotient (Binary32.of_int 1) (Binary32.of_int 100) f32_0_98)
  = Some 49
  /\ TimeRecommendation (FM := binary32) 98
       (Binary32.of_int 1) (Binary32.of_int 100) f32_0_98
     = Some (Binary32.of_int 1)
  /\ TimeRecommendation (FM := binary32) 120
       (Binary32.of_int 1) (Binary32.of_int 100) f32_0_98
     = Some (decayed (FM := binary32) (Binary32.of_int 1) f32_0_98 11).
Proof. vm_compute. repeat split. Qed.

(** C5, as amended.  With so little main time that
    [endgame_time > time_limit], the base time is
    [time_limit * (1 - decay_factor)] and there are no core moves, so the
    decay starts at once: the result is
    [time_limit * (1 - decay_factor) * decay_factor ^ max(move_num/2, 0)]. *)
Theorem TimeRecommendation_endgame (FM : FloatModel) (move_num : Z)
    (seconds_per_move time_limit decay_factor : float) :
  f_gt (endgame_time seconds_per_move decay_factor) time_limit = true ->
  in_int_range move_num = true ->
  TimeRecommendation move_num seconds_per_move time_limit decay_factor
    = Some (decayed (TimeRecommendation_flat time_limit decay_factor)
                    decay_factor (Z.max (Z.quot move_num 2) 0)).
Proof.
  intros Hgt Hrange. unfold TimeRecommendation. rewrite Hgt.
  rewrite Z.sub_0_r, (int_checked_Some _ (quot2_in_int_range _ Hrange)).
  reflexivity.
Qed.

Lemma TimeRecommendation_endgame_witness :
  f_gt (FloatModel := binary32)
       (endgame_time (Binary32.of_int 1) f32_half) (Binary32.of_int 1) = true
  /\ in_int_range 4 = true
  /\ TimeRecommendation (FM := binary32) 4
       (Binary32.of_int 1) (Binary32.of_int 1) f32_half
     = Some (Binary32.lit 1 (-3)).
Proof.
  split; [vm_compute; reflexivity|].
  split; [vm_compute; reflexivity|].
  rewrite (TimeRecommendation_endgame binary32 4
             (Binary32.of_int 1) (Binary32.of_int 1) f32_half);
    vm_compute; reflexivity.
Defined.

(** C5 as stated fails: with seconds_per_move = 1, time_limit = 1 and
    decay_factor = 0.5 the endgame branch is taken, the flat allocation is
    0.5, and at move 2 the code returns 0.25. *)
Lemma TimeRecommendation_flat_counterexample :
  f_gt (FloatModel := binary32)
       (endgame_time (Binary32.of_int 1) f32_half) (Binary32.of_int 1) = true
  /\ TimeRecommendation_flat (FM := binary32) (Binary32.of_int 1) f32_half
     = Binary32.lit 1 (-1)
  /\ TimeRecommendation (FM := binary32) 2
       (Binary32.of_int 1) (Binary32.of_int 1) f32_half
     = Some (Binary32.lit 1 (-2))
  /\ TimeRecommendation (FM := binary32) 2
       (Binary32.of_int 1) (Binary32.of_int 1) f32_half
     <> Some (TimeRecommendation_flat (FM := binary32) (Binary32.of_int 1) f32_half).
Proof.
  split; [vm_compute; reflexivity|].
  split; [vm_compute; reflexivity|].
  split; [vm_compute; reflexivity|].
  vm_compute. discriminate.
Qed.

(* ===================================================================== *)
(** * Properties of UndoMove *)
(* ===================================================================== *)

Section UndoMoveProperties.
Context {FM : FloatModel} {BD : Build} {TA : TreeAPI} {GA : GameAPI}
        {NA : NetAPI} {RA : RandomAPI}.


End UndoMoveProperties.

(* ===================================================================== *)
(** * Properties of SelectLeaves *)
(* ===================================================================== *)

Section SelectLeavesProperties.
Context {FM : FloatModel} {BD : Build} {TA : TreeAPI} {GA : GameAPI}
        {NA : NetAPI} {RA : RandomAPI}.

Lemma virtual_loss_targets_app (l : list NodeCall) (c : NodeCall) :
  virtual_loss_targets (l ++ [c])
  = virtual_loss_targets l
    ++ match c with VirtualLoss leaf => [leaf] | _ => [] end.
Proof.
  unfold virtual_loss_targets. rewrite flat_map_app. simpl.
  rewrite app_nil_r. reflexivity.
Qed.

Lemma misses_in_app (l : list NodeCall) (c : NodeCall) :
  misses_in (l ++ [c]) = misses_in l + (if counts_as_miss c then 1 else 0).
Proof.
  unfold misses_in. rewrite filter_app, length_app. simpl.
  destruct (counts_as_miss c); simpl; lia.
Qed.

Lemma hits_in_app (l : list NodeCall) (c : NodeCall) :
  hits_in (l ++ [c]) = hits_in l + (if counts_as_miss c then 0 else 1).
Proof.
  unfold hits_in. rewrite filter_app, length_app. simpl.
  destruct (counts_as_miss c); simpl; lia.
Qed.

Section Loop.
Variables (o : Options) (g : Game) (root : Node) (num_leaves : Z)
          (leaves : list Node).

Ltac app_calls :=
  cbn [sel_leaves sel_calls num_selected num_cache_misses num_cache_hits
       sel_cache sel_tree];
  rewrite ?virtual_loss_targets_app, ?misses_in_app, ?hits_in_app,
          ?length_app, ?app_nil_r, ?app_assoc;
  cbn [counts_as_miss List.length].

Lemma select_new_leaf_step (leaf : Node) (t : Tree) (cache : option Cache)
    (s : SelectState) :
  selecting num_leaves leaves s -> num_selected s < num_leaves ->
  num_cache_misses s < num_leaves * 2 ->
  match select_new_leaf root num_leaves leaf t cache s with
  | Continue s' =>
      selecting num_leaves leaves s' /\ num_selected s' < num_leaves
      /\ passes_made s' = passes_made s + 1
      /\ num_cache_hits s' = num_cache_hits s /\ sel_cache s' = cache
  | Break s' => selecting num_leaves leaves s' /\ num_selected s' <= num_leaves
  end.
Proof.
  intros (Hl & Hn & Hm & Hh & Hb) Hsel Hmiss.
  unfold select_new_leaf, selecting, passes_made.
  destruct (num_selected s + 1 =? num_leaves) eqn:E1;
    [apply Z.eqb_eq in E1 | apply Z.eqb_neq in E1];
    [| destruct (node_eqb leaf root)];
    app_calls; rewrite Hl;
    repeat split; try reflexivity; try lia.
Qed.

Lemma SelectLeaves_body_step (s : SelectState) :
  selecting num_leaves leaves s -> num_selected s < num_leaves ->
  num_cache_misses s < num_leaves * 2 ->
  match SelectLeaves_body o g root num_leaves s with
  | Continue s' =>
      selecting num_leaves leaves s' /\ num_selected s' < num_leaves
      /\ passes_made s' = passes_made s + 1
      /\ (sel_cache s = None ->
          sel_cache s' = None /\ num_cache_hits s' = num_cache_hits s)
  | Break s' => selecting num_leaves leaves s' /\ num_selected s' <= num_leaves
  end.
Proof.
  intros Hinv Hsel Hmiss. unfold SelectLeaves_body.
  destruct (SelectLeaf root (sel_tree s)) as [leaf t].
  destruct (game_over leaf t || at_move_limit leaf t).
  - destruct Hinv as (Hl & Hn & Hm & Hh & Hb).
    unfold selecting, passes_made. app_calls.
    repeat split; try assumption; try lia.
  - destruct (sel_cache s) as [cache|] eqn:Ecache.
    + destruct (TryGet (node_move t leaf, node_position t leaf) cache)
        as [[cached|] cache'].
      * destruct Hinv as (Hl & Hn & Hm & Hh & Hb).
        unfold selecting, passes_made. app_calls.
        repeat split; try assumption; try lia; congruence.
      * pose proof (select_new_leaf_step leaf t (Some cache') s Hinv Hsel Hmiss)
          as Hstep.
        destruct (select_new_leaf root num_leaves leaf t (Some cache') s);
          [|exact Hstep].
        destruct Hstep as (H1 & H2 & H3 & _ & _).
        split; [exact H1|]. split; [exact H2|]. split; [exact H3|].
        intros Hnone. congruence.
    + pose proof (select_new_leaf_step leaf t None s Hinv Hsel Hmiss) as Hstep.
      destruct (select_new_leaf root num_leaves leaf t None s);
        [|exact Hstep].
      destruct Hstep as (H1 & H2 & H3 & H4 & H5).
      split; [exact H1|]. split; [exact H2|]. split; [exact H3|].
      intros _. split; assumption.
Qed.

Lemma SelectLeaves_after_selecting (passes : nat) (s : SelectState) :
  selecting num_leaves leaves s -> num_selected s < num_leaves ->
  let s' := SelectLeaves_after passes o g root num_leaves s in
  selecting num_leaves leaves s' /\ num_selected s' <= num_leaves.
Proof.
  revert s. induction passes as [|passes IH]; intros s Hinv Hsel; simpl.
  - destruct (num_cache_misses s <? num_leaves * 2); split; (assumption || lia).
  - destruct (num_cache_misses s <? num_leaves * 2) eqn:E.
    + apply Z.ltb_lt in E.
      pose proof (SelectLeaves_body_step s Hinv Hsel E) as Hstep.
      destruct (SelectLeaves_body o g root num_leaves s) as [s1|s1].
      * destruct Hstep as (H1 & H2 & _). apply IH; assumption.
      * exact Hstep.
    + split; (assumption || lia).
Qed.

Lemma SelectLeaves_loop_outcome (fuel : nat) (s : SelectState) :
  selecting num_leaves leaves s -> num_selected s < num_leaves ->
  let s' := SelectLeaves_after fuel o g root num_leaves s in
  SelectLeaves_loop fuel o g root num_leaves s = Ok s'
  \/ (SelectLeaves_loop fuel o g root num_leaves s = OutOfFuel
      /\ passes_made s' = passes_made s + Z.of_nat fuel
      /\ num_cache_misses s' < num_leaves * 2
      /\ (sel_cache s = None -> num_cache_hits s' = num_cache_hits s)).
Proof.
  revert s. induction fuel as [|fuel IH]; intros s Hinv Hsel; simpl.
  - destruct (num_cache_misses s <? num_leaves * 2) eqn:E.
    + right. apply Z.ltb_lt in E. repeat split; try reflexivity; lia.
    + left. reflexivity.
  - destruct (num_cache_misses s <? num_leaves * 2) eqn:E; [|left; reflexivity].
    apply Z.ltb_lt in E.
    pose proof (SelectLeaves_body_step s Hinv Hsel E) as Hstep.
    destruct (SelectLeaves_body o g root num_leaves s) as [s1|s1];
      [|left; reflexivity].
    destruct Hstep as (H1 & H2 & H3 & H4).
    destruct (IH s1 H1 H2) as [Hok|(Hout & Hp & Hm & Hc)]; [left; exact Hok|].
    right. repeat split; try assumption; try lia.
    intros Hnone. destruct (H4 Hnone) as [Hn1 Hh1].
    rewrite (Hc Hn1). exact Hh1.
Qed.

(** The tree is what the calls of the history make of the tree [t0] the
    loop started on. *)
Variable t0 : Tree.

Lemma node_eqb_refl (n : Node) : node_eqb n n = true.
Proof. apply node_eqb_eq. reflexivity. Qed.

Lemma replay_snoc (calls : list NodeCall) (c : NodeCall) (t t' : Tree) :
  replay o g root calls t = Some t' ->
  call_target c = fst (SelectLeaf root t') ->
  replay o g root (calls ++ [c]) t
  = Some (call_effect o g root c (snd (SelectLeaf root t'))).
Proof.
  revert t. induction calls as [|c0 calls IH]; intros t H Htarget.
  - injection H as ->. cbn [app replay].
    destruct (SelectLeaf root t') as [leaf t1]. cbn [fst snd] in *.
    rewrite Htarget, node_eqb_refl. reflexivity.
  - cbn [app replay] in *.
    destruct (SelectLeaf root t) as [leaf t1].
    destruct (node_eqb (call_target c0) leaf); [|discriminate].
    apply IH; assumption.
Qed.

Lemma SelectLeaves_body_replayed (s : SelectState) :
  replay o g root (sel_calls s) t0 = Some (sel_tree s) ->
  match SelectLeaves_body o g root num_leaves s with
  | Continue s' | Break s' =>
      replay o g root (sel_calls s') t0 = Some (sel_tree s')
  end.
Proof.
  intros H.
  pose proof (fun c => replay_snoc (sel_calls s) c t0 (sel_tree s) H) as Hsnoc.
  unfold SelectLeaves_body.
  destruct (SelectLeaf root (sel_tree s)) as [leaf t]. cbn [fst snd] in Hsnoc.
  destruct (game_over leaf t || at_move_limit leaf t).
  { exact (Hsnoc (EndGameResult leaf) eq_refl). }
  assert (Hnew : forall cache,
            match select_new_leaf root num_leaves leaf t cache s with
            | Continue s' | Break s' =>
                replay o g root (sel_calls s') t0 = Some (sel_tree s')
            end).
  { intros cache. unfold select_new_leaf.
    destruct (num_selected s + 1 =? num_leaves);
      [|destruct (node_eqb leaf root)];
      exact (Hsnoc (VirtualLoss leaf) eq_refl). }
  destruct (sel_cache s) as [cache|]; [|apply Hnew].
  destruct (TryGet (node_move t leaf, node_position t leaf) cache)
    as [[cached|] cache']; [|apply Hnew].
  exact (Hsnoc (CachedResults leaf cached) eq_refl).
Qed.

Lemma SelectLeaves_after_replayed (passes : nat) (s : SelectState) :
  replay o g root (sel_calls s) t0 = Some (sel_tree s) ->
  let s' := SelectLeaves_after passes o g root num_leaves s in
  replay o g root (sel_calls s') t0 = Some (sel_tree s').
Proof.
  revert s. induction passes as [|passes IH]; intros s H; simpl.
  - destruct (num_cache_misses s <? num_leaves * 2); exact H.
  - destruct (num_cache_misses s <? num_leaves * 2); [|exact H].
    pose proof (SelectLeaves_body_replayed s H) as Hstep.
    destruct (SelectLeaves_body o g root num_leaves s) as [s1|s1];
      [apply IH|]; exact Hstep.
Qed.

(** Every appended entry is a virtual loss of its node. *)
Hypothesis contract : virtual_loss_contract.

Lemma occurrences_snoc (n leaf : Node) (l : list Node) :
  occurrences n (l ++ [leaf])
  = occurrences n l + (if node_eqb n leaf then 1 else 0).
Proof.
  unfold occurrences. rewrite filter_app, length_app. simpl.
  destruct (node_eqb n leaf); simpl; lia.
Qed.

Lemma SelectLeaves_body_counted (s : SelectState) :
  (forall n,
      num_virtual_losses_applied t0 n
      + occurrences n (virtual_loss_targets (sel_calls s))
      <= num_virtual_losses_applied (sel_tree s) n) ->
  match SelectLeaves_body o g root num_leaves s with
  | Continue s' | Break s' =>
      forall n,
        num_virtual_losses_applied t0 n
        + occurrences n (virtual_loss_targets (sel_calls s'))
        <= num_virtual_losses_applied (sel_tree s') n
  end.
Proof.
  destruct contract as (Hselect & Hend & Hresults & Hloss & Hleaf).
  intros H.
  unfold SelectLeaves_body.
  pose proof (Hselect root (sel_tree s)) as Hs.
  destruct (SelectLeaf root (sel_tree s)) as [leaf t]. cbn [snd] in Hs.
  destruct (game_over leaf t || at_move_limit leaf t).
  { intros n. cbn [sel_calls sel_tree].
    rewrite virtual_loss_targets_app, app_nil_r.
    etransitivity; [apply H|]. etransitivity; [apply Hs|apply Hend]. }
  assert (Hnew : forall cache,
            match select_new_leaf root num_leaves leaf t cache s with
            | Continue s' | Break s' =>
                forall n,
                  num_virtual_losses_applied t0 n
                  + occurrences n (virtual_loss_targets (sel_calls s'))
                  <= num_virtual_losses_applied (sel_tree s') n
            end).
  { assert (Hn : forall n,
              num_virtual_losses_applied t0 n
              + occurrences n (virtual_loss_targets (sel_calls s) ++ [leaf])
              <= num_virtual_losses_applied (AddVirtualLoss root leaf t) n).
    { intros n. rewrite occurrences_snoc.
      specialize (H n). specialize (Hs n).
      destruct (node_eqb n leaf) eqn:E.
      - apply node_eqb_eq in E. subst n.
        specialize (Hleaf root leaf t). lia.
      - specialize (Hloss root leaf t n). lia. }
    intros cache. unfold select_new_leaf.
    destruct (num_selected s + 1 =? num_leaves);
      [|destruct (node_eqb leaf root)];
      intros n; cbn [sel_calls sel_tree];
      rewrite virtual_loss_targets_app; apply Hn. }
  destruct (sel_cache s) as [cache|]; [|apply Hnew].
  destruct (TryGet (node_move t leaf, node_position t leaf) cache)
    as [[cached|] cache']; [|apply Hnew].
  intros n. cbn [sel_calls sel_tree].
  rewrite virtual_loss_targets_app, app_nil_r.
  etransitivity; [apply H|]. etransitivity; [apply Hs|apply Hresults].
Qed.

Lemma SelectLeaves_after_counted (passes : nat) (s : SelectState) :
  (forall n,
      num_virtual_losses_applied t0 n
      + occurrences n (virtual_loss_targets (sel_calls s))
      <= num_virtual_losses_applied (sel_tree s) n) ->
  let s' := SelectLeaves_after passes o g root num_leaves s in
  forall n,
    num_virtual_losses_applied t0 n
    + occurrences n (virtual_loss_targets (sel_calls s'))
    <= num_virtual_losses_applied (sel_tree s') n.
Proof.
  revert s. induction passes as [|passes IH]; intros s H; simpl.
  - destruct (num_cache_misses s <? num_leaves * 2); exact H.
  - destruct (num_cache_misses s <? num_leaves * 2); [|exact H].
    pose proof (SelectLeaves_body_counted s H) as Hstep.
    destruct (SelectLeaves_body o g root num_leaves s) as [s1|s1];
      [apply IH|]; exact Hstep.
Qed.

End Loop.

(** C1, as amended.  For a batch size of at least one, [SelectLeaves]
    appends at most [num_leaves] entries; the appended entries are, in
    order, exactly the nodes on which it calls [AddVirtualLoss], one call
    for each entry and none besides; the passes that are not cache hits
    (end-game results and appended leaves) are what [num_cache_misses]
    counts and never exceed [2 * num_leaves].  The loop returns as soon as
    that bound is met: a run of [fuel] passes that has not returned
    consists of [fuel] passes of which fewer than [2 * num_leaves] were
    misses, and without a cache [2 * num_leaves] passes always suffice.
    The tree the call leaves is the tree it was given after the calls of
    the history, each made on the leaf that [SelectLeaf] returned; hence,
    [AddVirtualLoss] raising the count of its leaf and no call lowering a
    count, every node has at least as many virtual losses more as it has
    entries among the appended ones: one for a leaf appended once, two for
    a leaf appended twice. *)
Theorem SelectLeaves_spec (fuel : nat) (root : Node) (num_leaves : Z)
    (leaves : list Node) (p : Player) :
  1 <= num_leaves ->
  SelectLeaves_post fuel root num_leaves leaves p.
Proof.
  intros Hbatch. unfold SelectLeaves_post.
  set (s0 := SelectLeaves_init leaves p).
  assert (Hinit : selecting num_leaves leaves s0).
  { unfold selecting, s0, SelectLeaves_init, misses_in, hits_in. simpl.
    rewrite app_nil_r. repeat split; lia. }
  assert (Hsel : num_selected s0 < num_leaves) by (simpl; lia).
  pose proof (SelectLeaves_after_selecting (options_ p) (game_ p) root
                num_leaves leaves fuel s0 Hinit Hsel)
    as [(Hl & Hn & Hm & Hh & Hb) Hle].
  pose proof (SelectLeaves_loop_outcome (options_ p) (game_ p) root
                num_leaves leaves fuel s0 Hinit Hsel) as Hout.
  pose proof (SelectLeaves_after_replayed (options_ p) (game_ p) root
                num_leaves (tree_ p) fuel s0 eq_refl) as Htree.
  assert (Hcount : virtual_loss_contract ->
            forall n,
              num_virtual_losses_applied (tree_ p) n
              + occurrences n
                  (virtual_loss_targets
                     (sel_calls (SelectLeaves_after fuel (options_ p) (game_ p)
                                   root num_leaves s0)))
              <= num_virtual_losses_applied
                   (sel_tree (SelectLeaves_after fuel (options_ p) (game_ p)
                                root num_leaves s0)) n).
  { intros Hcontract.
    apply (SelectLeaves_after_counted (options_ p) (game_ p) root num_leaves
             (tree_ p) Hcontract fuel s0).
    intros n. unfold s0, SelectLeaves_init, occurrences. simpl. lia. }
  set (s := SelectLeaves_after fuel (options_ p) (game_ p) root num_leaves s0)
    in *.
  assert (Hret : SelectLeaves_loop fuel (options_ p) (game_ p) root
                   num_leaves s0 = Ok s ->
                 SelectLeaves fuel root num_leaves leaves p
                 = Ok (s, set_cache (sel_cache s) (set_tree (sel_tree s) p))).
  { intros E. unfold SelectLeaves. fold s0. rewrite E. reflexivity. }
  assert (Hfuel : SelectLeaves_loop fuel (options_ p) (game_ p) root
                    num_leaves s0 = OutOfFuel ->
                  SelectLeaves fuel root num_leaves leaves p = OutOfFuel).
  { intros E. unfold SelectLeaves. fold s0. rewrite E. reflexivity. }
  split; [exact Hl|]. split; [lia|]. split; [lia|]. split; [lia|].
  split; [lia|]. split; [|split; [|split; [exact Htree|exact Hcount]]].
  - destruct Hout as [Hok|(Hof & Hp & Hlt & _)]; [left; auto|].
    right. unfold passes_made in Hp. simpl in Hp. repeat split; auto; lia.
  - intros Hnone Hfuel2.
    destruct Hout as [Hok|(Hof & Hp & Hlt & Hc)]; [auto|].
    unfold passes_made in Hp. simpl in Hp, Hc.
    specialize (Hc Hnone). lia.
Qed.

End SelectLeavesProperties.

(* ===================================================================== *)
(** * Properties of ProcessLeaves *)
(* ===================================================================== *)

Section ProcessLeavesProperties.
Context {FM : FloatModel} {BD : Build} {TA : TreeAPI} {GA : GameAPI}
        {NA : NetAPI} {RA : RandomAPI}.

Lemma draw_symmetries_length (n : nat) (r : Rnd) :
  List.length (fst (draw_symmetries n r)) = n.
Proof.
  revert r. induction n as [|n IH]; intros r; simpl; [reflexivity|].
  destruct (UniformInt 0 (kNumSymmetries - 1) r) as [z r1].
  specialize (IH r1). destruct (draw_symmetries n r1) as [rest r2].
  simpl in *. rewrite IH. reflexivity.
Qed.

(** When no [MG_CHECK] fires, the features are the raw features of each
    leaf under that leaf's symmetry. *)
Lemma build_features_Ok (t : Tree) (leaves : list Node)
    (syms : list Symmetry) (fs : list (list float)) :
  build_features t leaves syms = Ok fs ->
  fs = map (fun ls => ApplySymmetry kN kNumStoneFeatures (snd ls)
                        (raw_features t (fst ls)))
           (combine leaves syms).
Proof.
  revert syms fs. induction leaves as [|leaf leaves IH]; intros syms fs H.
  - simpl in H. inversion H. reflexivity.
  - destruct syms as [|sym syms]; simpl in H; [inversion H; reflexivity|].
    destruct (0 <? num_virtual_losses_applied t leaf); [|discriminate].
    destruct (build_features t leaves syms) as [rest| | |] eqn:E;
      simpl in H; try discriminate.
    inversion H. simpl. rewrite <- (IH syms rest E). reflexivity.
Qed.

Lemma incorporate_leaves_fold (o : Options) (root : Node)
    (leaves : list Node) (syms : list Symmetry) (outs : list Output)
    (tc : Tree * option Cache) :
  incorporate_leaves o root leaves syms outs tc
  = fold_left (fun acc lw => incorporate_leaf o root (fst lw) (snd lw) acc)
              (combine leaves (written_back syms outs)) tc.
Proof.
  revert syms outs tc.
  induction leaves as [|leaf leaves IH]; intros syms outs tc; [reflexivity|].
  destruct syms as [|sym syms]; [reflexivity|].
  destruct outs as [|out outs]; [reflexivity|].
  simpl. apply IH.
Qed.

(** Everything a returning call on a non-empty batch leaves behind. *)
Lemma ProcessLeaves_Ok (leaves : list Node) (random_sym : bool)
    (p p' : Player) :
  leaves <> [] ->
  ProcessLeaves leaves random_sym p = Ok p' ->
  let n := List.length leaves in
  let syms := symmetries_used_ p' in
  List.length syms = n
  /\ (random_sym = false -> syms = repeat kIdentity n)
  /\ features_ p'
     = map (fun ls => ApplySymmetry kN kNumStoneFeatures (snd ls)
                        (raw_features (tree_ p) (fst ls)))
           (combine leaves syms)
  /\ outputs_ p'
     = map (fst (fst (RunMany (features_ p') (network_ p)))) (seq 0 n)
  /\ inference_model_ p' = snd (fst (RunMany (features_ p') (network_ p)))
  /\ inferences_ p'
     = record_inference (inference_model_ p')
         (pos_n (node_position (tree_ p) (root_ p))) (Z.of_nat n)
         (inferences_ p)
  /\ (tree_ p', inference_cache_ p')
     = incorporate_leaves (options_ p) (root_ p) leaves syms (outputs_ p')
         (tree_ p, inference_cache_ p)
  /\ root_ p' = root_ p
  /\ options_ p' = options_ p.
Proof.
  intros Hne H. unfold ProcessLeaves in H.
  destruct leaves as [|leaf0 leaves0] eqn:El; [contradiction|].
  rewrite <- El in *. clear Hne.
  set (n := List.length leaves) in *.
  destruct (if random_sym then draw_symmetries n (rnd_ p)
            else (repeat kIdentity n, rnd_ p)) as [syms rnd] eqn:Es.
  destruct (build_features (tree_ p) leaves syms) as [fs| | |] eqn:Ef;
    simpl in H; try discriminate.
  destruct (RunMany fs (network_ p)) as [[out_at name] net] eqn:Er.
  destruct (incorporate_leaves (options_ p) (root_ p) leaves syms
              (map out_at (seq 0 n)) (tree_ p, inference_cache_ p))
    as [t cache] eqn:Ei.
  assert (Hlen : List.length syms = n).
  { destruct random_sym.
    - pose proof (draw_symmetries_length n (rnd_ p)) as Hd.
      rewrite Es in Hd. exact Hd.
    - inversion Es. apply repeat_length. }
  assert (Hid : random_sym = false -> syms = repeat kIdentity n).
  { intros ->. inversion Es. reflexivity. }
  apply build_features_Ok in Ef.
  inversion H as [Hp]. clear H.
  destruct (tree_search_cb_ p); cbn;
    rewrite <- Ef, Er; cbn; rewrite Ei; repeat split; assumption.
Qed.

(** ** The inference records *)

Lemma back_snoc {A : Type} (l : list A) (x : A) : back (l ++ [x]) = Some x.
Proof. unfold back. rewrite map_app. simpl. apply last_last. Qed.

Lemma update_back_snoc {A : Type} (f : A -> A) (l : list A) (x : A) :
  update_back f (l ++ [x]) = l ++ [f x].
Proof.
  induction l as [|y l IH]; [reflexivity|].
  simpl. rewrite IH. destruct (l ++ [x]) eqn:E; [|reflexivity].
  destruct l; discriminate.
Qed.

Lemma string_empty_false (s : string) :
  s <> EmptyString -> string_empty s = false.
Proof. destruct s; [contradiction|reflexivity]. Qed.

Lemma record_inference_first (name : string) (n batch : Z) :
  name <> EmptyString ->
  record_inference name n batch [] = [touch n batch (InferenceInfo_new name n)].
Proof.
  intros Hname. unfold record_inference.
  rewrite (string_empty_false _ Hname). reflexivity.
Qed.

Lemma record_inference_new_model (name : string) (n batch : Z)
    (init : list InferenceInfo) (r : InferenceInfo) :
  name <> EmptyString -> model r <> name ->
  record_inference name n batch (init ++ [r])
  = init ++ [r; touch n batch (InferenceInfo_new name n)].
Proof.
  intros Hname Hdiff. unfold record_inference.
  rewrite (string_empty_false _ Hname), back_snoc. simpl.
  destruct (String.eqb name (model r)) eqn:E.
  - apply String.eqb_eq in E. congruence.
  - simpl. rewrite update_back_snoc, <- app_assoc. reflexivity.
Qed.

Lemma record_inference_same_model (name : string) (n batch : Z)
    (init : list InferenceInfo) (r : InferenceInfo) :
  name <> EmptyString -> model r = name ->
  record_inference name n batch (init ++ [r]) = init ++ [touch n batch r].
Proof.
  intros Hname Hsame. unfold record_inference.
  rewrite (string_empty_false _ Hname), back_snoc. simpl.
  rewrite <- Hsame, String.eqb_refl. simpl. apply update_back_snoc.
Qed.

(** C9, as amended.  A returning [ProcessLeaves] leaves [inferences_]
    untouched when the batch is empty or the serving model has an empty
    name.  Otherwise, with [n] the move index of the current root: a first
    record, or a record for a model other than the last one, is appended,
    anchored at [n]; and in every such case the last record of the list,
    the appended one included, gets [last_move = n] and the batch size added
    to its count.  The records before it stay as and where they were. *)
Theorem ProcessLeaves_inferences (leaves : list Node) (random_sym : bool)
    (p p' : Player) :
  ProcessLeaves leaves random_sym p = Ok p' ->
  inferences_recorded leaves p p'.
Proof.
  intros H. unfold inferences_recorded.
  set (n := pos_n (node_position (tree_ p) (root_ p))).
  set (batch := Z.of_nat (List.length leaves)).
  set (name := inference_model_ p').
  split.
  - intros [Hempty|Hname].
    + subst leaves. simpl in H. inversion H. reflexivity.
    + destruct leaves as [|leaf leaves'] eqn:El;
        [simpl in H; inversion H; reflexivity|].
      assert (Hne : leaf :: leaves' <> []) by discriminate.
      destruct (ProcessLeaves_Ok _ _ _ _ Hne H) as (_ & _ & _ & _ & _ & Hinf & _).
      rewrite Hinf. fold name. rewrite Hname. reflexivity.
  - intros Hne Hname.
    destruct (ProcessLeaves_Ok _ _ _ _ Hne H) as (_ & _ & _ & _ & _ & Hinf & _).
    fold n batch name in Hinf. rewrite Hinf. split.
    + intros ->. apply record_inference_first. exact Hname.
    + intros init r ->. split; intros Hmodel.
      * apply record_inference_new_model; assumption.
      * apply record_inference_same_model; assumption.
Qed.

(** ** The symmetry round trip *)

Lemma map_nth_seq {A : Type} (l : list A) (d : A) :
  map (fun i => nth i l d) (seq 0 (List.length l)) = l.
Proof.
  induction l as [|x l IH]; [reflexivity|].
  simpl. f_equal. rewrite <- seq_shift, map_map. exact IH.
Qed.

Lemma firstn_snoc_nth {A : Type} (l : list A) (k : nat) (d : A) :
  List.length l = S k -> firstn k l ++ [nth k l d] = l.
Proof.
  revert l. induction k as [|k IH]; intros l Hl.
  - destruct l as [|x [|y l]]; try discriminate. reflexivity.
  - destruct l as [|x l]; [discriminate|].
    simpl. f_equal. apply IH. simpl in Hl. lia.
Qed.

Lemma nth_error_combine {A B : Type} (l : list A) (l' : list B) (i : nat)
    (a : A) (b : B) :
  nth_error l i = Some a -> nth_error l' i = Some b ->
  nth_error (combine l l') i = Some (a, b).
Proof.
  revert l l'. induction i as [|i IH]; intros [|x l] [|y l'] Ha Hb;
    simpl in *; try discriminate.
  - inversion Ha. inversion Hb. reflexivity.
  - apply IH; assumption.
Qed.

Lemma normalize_output_equivariant (predict : list float -> Output)
    (sym : Symmetry) (features : list float) :
  equivariant predict -> inverse_undoes ->
  List.length features = (kN * kN * kNumStoneFeatures)%nat ->
  List.length (policy (predict features)) = kNumMoves ->
  normalize_output sym
    (predict (ApplySymmetry kN kNumStoneFeatures sym features))
  = predict features.
Proof.
  intros Heq Hinv Hlen Hpol.
  destruct (Heq sym features Hlen) as (Hboard & Hpass & Hval).
  unfold normalize_output. rewrite Hboard, Hpass, Hval.
  rewrite Hinv by (rewrite firstn_length_le; unfold kNumMoves in Hpol; lia).
  unfold kPass. rewrite firstn_snoc_nth
    by (rewrite Hpol; unfold kNumMoves; lia).
  destruct (predict features); reflexivity.
Qed.

Lemma written_back_equivariant (predict : list float -> Output)
    (t : Tree) (leaves : list Node) (syms : list Symmetry) :
  equivariant predict -> inverse_undoes ->
  (forall leaf, In leaf leaves ->
     List.length (raw_features t leaf) = (kN * kN * kNumStoneFeatures)%nat
     /\ List.length (policy (predict (raw_features t leaf))) = kNumMoves) ->
  List.length syms = List.length leaves ->
  written_back syms
    (map predict
       (map (fun ls => ApplySymmetry kN kNumStoneFeatures (snd ls)
                         (raw_features t (fst ls)))
            (combine leaves syms)))
  = map (fun leaf => predict (raw_features t leaf)) leaves.
Proof.
  intros Heq Hinv Hraw. revert syms.
  induction leaves as [|leaf leaves IH]; intros syms Hlen.
  - destruct syms; reflexivity.
  - destruct syms as [|sym syms]; [discriminate|].
    unfold written_back. simpl. f_equal.
    + destruct (Hraw leaf (or_introl eq_refl)) as [H1 H2].
      apply normalize_output_equivariant; assumption.
    + apply IH; [|simpl in Hlen; lia].
      intros l Hl. apply Hraw. right. exact Hl.
Qed.

(** C3, as amended.  After a returning [ProcessLeaves] the tree and the
    cache are what the leaves' results, taken in order through
    [IncorporateResults], the cache and [RevertVirtualLoss], make of them,
    where the result of leaf [i] is the predictor's output [i] with the
    inverse of symmetry [i] applied to the [kN * kN] board cells of the
    policy, the pass entry copied and the value copied.  If moreover the
    predictor is equivariant under the symmetries and [Inverse] undoes
    them, each leaf receives what the predictor emits on that leaf's
    features without any symmetry. *)
Theorem ProcessLeaves_undoes_symmetry (leaves : list Node)
    (random_sym : bool) (p p' : Player) :
  leaves <> [] ->
  ProcessLeaves leaves random_sym p = Ok p' ->
  symmetry_undone leaves p p'.
Proof.
  intros Hne H. unfold symmetry_undone.
  set (syms := symmetries_used_ p'). set (outs := outputs_ p').
  destruct (ProcessLeaves_Ok _ _ _ _ Hne H)
    as (Hlen & _ & Hfs & Houts & _ & _ & Htree & _).
  fold syms in Hlen, Hfs, Htree. fold outs in Houts, Htree.
  assert (Hfl : List.length (features_ p') = List.length leaves).
  { rewrite Hfs, length_map, length_combine. lia. }
  assert (Hol : List.length outs = List.length leaves).
  { rewrite Houts, length_map, length_seq. reflexivity. }
  split; [rewrite Htree; apply incorporate_leaves_fold|].
  split; [unfold written_back; rewrite length_map, length_combine; lia|].
  split.
  - intros i sym out Hs Ho. unfold written_back.
    rewrite nth_error_map.
    rewrite (nth_error_combine _ _ _ _ _ Hs Ho). reflexivity.
  - intros predict Heq Hinv Hnet Hraw.
    assert (Hmap : outs = map predict (features_ p')).
    { rewrite Houts. rewrite <- Hfl.
      rewrite <- (map_nth_seq (features_ p') []) at 3.
      rewrite map_map. apply map_ext_in. intros i Hi.
      apply in_seq in Hi. apply Hnet. lia. }
    rewrite Hmap, Hfs.
    apply written_back_equivariant; assumption.
Qed.

End ProcessLeavesProperties.

(* ===================================================================== *)
(** * Properties of SuggestMove *)
(* ===================================================================== *)

Section SuggestMoveProperties.
Context {FM : FloatModel} {BD : Build} {TA : TreeAPI} {GA : GameAPI}
        {NA : NetAPI} {RA : RandomAPI}.

Lemma SelectLeaves_keeps (fuel : nat) (root : Node) (num_leaves : Z)
    (leaves : list Node) (p : Player) (s : SelectState) (p' : Player) :
  SelectLeaves fuel root num_leaves leaves p = Ok (s, p') ->
  root_ p' = root_ p /\ options_ p' = options_ p.
Proof.
  unfold SelectLeaves.
  destruct (SelectLeaves_loop fuel (options_ p) (game_ p) root num_leaves
              (SelectLeaves_init leaves p)); simpl; try discriminate.
  intros H. inversion H. split; reflexivity.
Qed.

Lemma ProcessLeaves_keeps (leaves : list Node) (random_sym : bool)
    (p p' : Player) :
  ProcessLeaves leaves random_sym p = Ok p' ->
  root_ p' = root_ p /\ options_ p' = options_ p.
Proof.
  destruct leaves as [|leaf leaves].
  - intros H. inversion H. split; reflexivity.
  - intros H.
    assert (Hne : leaf :: leaves <> []) by discriminate.
    destruct (ProcessLeaves_Ok _ _ _ _ Hne H)
      as (_ & _ & _ & _ & _ & _ & _ & Hr & Ho).
    split; assumption.
Qed.

Lemma TreeSearch_keeps (fuel : nat) (p p' : Player) :
  TreeSearch fuel p = Ok p' ->
  root_ p' = root_ p /\ options_ p' = options_ p.
Proof.
  unfold TreeSearch.
  destruct (SelectLeaves fuel (root_ p) (virtual_losses (options_ p)) [] p)
    as [[s p1]| | |] eqn:Es; simpl; try discriminate.
  intros H. apply ProcessLeaves_keeps in H. simpl in H.
  apply SelectLeaves_keeps in Es. destruct H, Es. split; congruence.
Qed.

(** The fixed-readouts loop, when it returns: the target is reached, no
    round was run if it was reached already, and otherwise the last round
    started below the target. *)
Lemma search_until_readouts_Ok (rounds fuel : nat) (target : Z)
    (p p' : Player) :
  search_until_readouts rounds fuel target p = Ok p' ->
  target <= N (root_ p') (tree_ p')
  /\ root_ p' = root_ p
  /\ (target <= N (root_ p) (tree_ p) -> p' = p)
  /\ (N (root_ p) (tree_ p) < target ->
      exists q, N (root_ q) (tree_ q) < target /\ TreeSearch fuel q = Ok p').
Proof.
  revert p. induction rounds as [|rounds IH]; intros p H; simpl in H.
  - destruct (N (root_ p) (tree_ p) <? target) eqn:E; [discriminate|].
    apply Z.ltb_ge in E. inversion H. subst p'.
    repeat split; try assumption; try reflexivity; lia.
  - destruct (N (root_ p) (tree_ p) <? target) eqn:E.
    + apply Z.ltb_lt in E.
      destruct (TreeSearch fuel p) as [p1| | |] eqn:Et; simpl in H;
        try discriminate.
      destruct (IH p1 H) as (H1 & H2 & H3 & H4).
      destruct (TreeSearch_keeps _ _ _ Et) as [Hr _].
      split; [exact H1|]. split; [congruence|]. split; [lia|].
      intros _. destruct (Z.lt_ge_cases (N (root_ p1) (tree_ p1)) target)
        as [Hlt|Hge].
      * exact (H4 Hlt).
      * exists p. rewrite (H3 Hge). split; assumption.
    + apply Z.ltb_ge in E. inversion H. subst p'.
      repeat split; try assumption; try reflexivity; lia.
Qed.

(** The loop returns when every round does and adds at least one visit:
    [rounds] need not exceed the visits still missing.  [ready] is whatever
    is known to hold of the player between rounds. *)
Lemma search_until_readouts_returns (ready : Player -> Prop)
    (rounds fuel : nat) (target : Z) (p : Player) :
  (forall q, ready q ->
     exists q', TreeSearch fuel q = Ok q' /\ ready q'
                /\ N (root_ q) (tree_ q) + 1 <= N (root_ q') (tree_ q')) ->
  ready p ->
  target - N (root_ p) (tree_ p) <= Z.of_nat rounds ->
  exists p', search_until_readouts rounds fuel target p = Ok p'.
Proof.
  intros Hstep. revert p.
  induction rounds as [|rounds IH]; intros p Hp Hr; simpl.
  - destruct (N (root_ p) (tree_ p) <? target) eqn:E;
      [apply Z.ltb_lt in E; lia | exists p; reflexivity].
  - destruct (N (root_ p) (tree_ p) <? target) eqn:E;
      [|exists p; reflexivity].
    destruct (Hstep p Hp) as (q' & Ht & Hq & Hn).
    rewrite Ht. simpl. apply IH; [exact Hq|lia].
Qed.

Lemma PickMove_keeps (p : Player) (c : Coord) (p' : Player) :
  PickMove p = Ok (c, p') -> tree_ p' = tree_ p /\ root_ p' = root_ p.
Proof.
  unfold PickMove.
  destruct (temperature_cutoff_ p <=? pos_n (node_position (tree_ p) (root_ p)));
    [intros H; inversion H; split; reflexivity|].
  destruct (f_eqb (last (pick_cdf p) f_zero) f_zero);
    [intros H; inversion H; split; reflexivity|].
  destruct (rnd_uniform (rnd_ p)) as [e rnd].
  destruct (debug_build && _); [discriminate|].
  intros H. inversion H. split; reflexivity.
Qed.

Lemma SuggestMove_prepare_keeps (fuel : nat) (inject : bool)
    (p p1 : Player) :
  SuggestMove_prepare fuel inject p = Ok p1 -> options_ p1 = options_ p.
Proof.
  unfold SuggestMove_prepare.
  set (first := if negb (HasFlag_kExpanded (root_ p) (tree_ p)) then _ else _).
  destruct first as [q2| | |] eqn:Ef; simpl; try discriminate.
  intros H. inversion H as [H1]. clear H H1.
  assert (Hq : options_ q2 = options_ p).
  { subst first. destruct (negb (HasFlag_kExpanded (root_ p) (tree_ p)));
      [|inversion Ef; reflexivity].
    destruct (SelectLeaves fuel (root_ p) 1 [] p) as [[s q]| | |] eqn:Es;
      simpl in Ef; try discriminate.
    apply ProcessLeaves_keeps in Ef. apply SelectLeaves_keeps in Es.
    destruct Ef as [_ Ef], Es as [_ Es]. simpl in Ef. congruence. }
  destruct inject; [destruct (Dirichlet kNumMoves (rnd_ q2))|]; exact Hq.
Qed.

(** C2, as amended.  Without a time budget ([seconds_per_move > 0] is
    false), a returning [SuggestMove] leaves the root's visit count at least
    [new_readouts] above [current_readouts], the count read after the
    forced first round on an unexpanded root and after the noise.  The loop
    runs whole [TreeSearch] rounds: none if the count is there already,
    and otherwise the last round started below the target, so the count
    ends above the request by less than that round added. *)
Theorem SuggestMove_readouts (rounds fuel : nat) (new_readouts : Z)
    (inject : bool) (p : Player) (c : Coord) (p' : Player) :
  f_gt (seconds_per_move (options_ p)) f_zero = false ->
  SuggestMove rounds fuel new_readouts inject p = Ok (c, p') ->
  readouts_added fuel new_readouts inject p p'.
Proof.
  intros Hspm H. unfold readouts_added. unfold SuggestMove in H.
  destruct (Now (clock_ p)) as [start clk] eqn:En. simpl.
  destruct (SuggestMove_prepare fuel inject (set_clock clk p))
    as [p1| | |] eqn:Ep; simpl in H; try discriminate.
  assert (Ho : options_ p1 = options_ p)
    by (apply SuggestMove_prepare_keeps in Ep; exact Ep).
  unfold SuggestMove_search in H. rewrite Ho, Hspm in H.
  destruct (search_until_readouts rounds fuel
              (N (root_ p1) (tree_ p1) + new_readouts) p1)
    as [p2| | |] eqn:Es; simpl in H; try discriminate.
  destruct (search_until_readouts_Ok _ _ _ _ _ Es) as (H1 & H2 & H3 & H4).
  assert (Hp : tree_ p' = tree_ p2 /\ root_ p' = root_ p2).
  { destruct (ShouldResign p2).
    - inversion H. split; reflexivity.
    - apply PickMove_keeps in H. exact H. }
  destruct Hp as [Ht Hr].
  exists p1, p2. split; [reflexivity|].
  split; [exact Ht|]. split; [exact Hr|]. split; [exact H2|].
  rewrite Ht, Hr. split; [exact H1|]. split.
  - intros Hn. apply H3. lia.
  - intros Hn. apply H4. lia.
Qed.

End SuggestMoveProperties.

(* ===================================================================== *)
(** * Properties of PickMove *)
(* ===================================================================== *)

Section PickMoveProperties.
Context {FM : FloatModel} {BD : Build} {TA : TreeAPI} {GA : GameAPI}
        {NA : NetAPI} {RA : RandomAPI}.

Lemma accumulate_zeros (n : nat) :
  accumulate f_zero (repeat f_zero n) = repeat f_zero n.
Proof.
  induction n as [|n IH]; [reflexivity|].
  cbn [repeat accumulate].
  replace (f_add f_zero f_zero) with f_zero by (symmetry; apply f_add_zero).
  rewrite IH. reflexivity.
Qed.

Lemma partial_sums_zeros (n : nat) :
  partial_sums (repeat f_zero n) = repeat f_zero n.
Proof.
  destruct n as [|n]; [reflexivity|].
  simpl. rewrite accumulate_zeros. reflexivity.
Qed.

Lemma last_repeat {A : Type} (x : A) (n : nat) : last (repeat x n) x = x.
Proof.
  induction n as [|n IH]; [reflexivity|].
  simpl. destruct (repeat x n) eqn:E; [reflexivity|exact IH].
Qed.

Lemma map_const_seq {A : Type} (f : nat -> A) (x : A) (start len : nat) :
  (forall i, (start <= i < start + len)%nat -> f i = x) ->
  map f (seq start len) = repeat x len.
Proof.
  revert start. induction len as [|len IH]; intros start H; [reflexivity|].
  simpl. rewrite H by lia. f_equal. apply IH. intros i Hi. apply H. lia.
Qed.

(** C7, where the code keeps it.  Before the temperature cutoff, when
    every board-cell child has a visit count of zero and zero raised to the
    softmax temperature is zero (as it is for every positive temperature),
    [PickMove] returns the pass move and draws no sample.  From the cutoff
    on it returns the most visited move, whatever the move index. *)
Theorem PickMove_spec (p : Player) :
  let n := pos_n (node_position (tree_ p) (root_ p)) in
  (n < temperature_cutoff_ p ->
   (forall i, (i < kN * kN)%nat -> child_N (root_ p) (tree_ p) i = f_zero) ->
   f_pow f_zero (policy_softmax_temp (options_ p)) = f_zero ->
   PickMove p = Ok (kPass, p))
  /\ (temperature_cutoff_ p <= n ->
      PickMove p = Ok (GetMostVisitedMove (root_ p) (tree_ p), p)).
Proof.
  intros n. unfold PickMove. fold n. split.
  - intros Hbefore Hzero Hpow.
    destruct (temperature_cutoff_ p <=? n) eqn:E;
      [apply Z.leb_le in E; lia|].
    assert (Hcdf : pick_cdf p = repeat f_zero (kN * kN)).
    { unfold pick_cdf. rewrite map_const_seq with (x := f_zero).
      - apply partial_sums_zeros.
      - intros i Hi. rewrite Hzero by lia. exact Hpow. }
    rewrite Hcdf, last_repeat.
    replace (f_eqb f_zero f_zero) with true by (symmetry; apply f_eqb_zero).
    reflexivity.
  - intros Hafter.
    destruct (temperature_cutoff_ p <=? n) eqn:E;
      [reflexivity|apply Z.leb_gt in E; lia].
Qed.

End PickMoveProperties.

(* ===================================================================== *)
(** * Properties of PlayMove *)
(* ===================================================================== *)

Section PlayMoveProperties.
Context {FM : FloatModel} {BD : Build} {TA : TreeAPI} {GA : GameAPI}
        {NA : NetAPI} {RA : RandomAPI}.

(** C6, as amended.  [PlayMove] returns false when the position at the
    root is finished ([root_->game_over()], the one test it makes: the marks
    that [SetGameOverBecauseOfResign] and [SetGameOverBecauseMoveLimitReached]
    leave on the game history are not read), and when the move is illegal
    on the current position (a move other than the resignation, which is
    dealt with before the position is asked).  In both cases the player is
    as before except for the lines added to the error log: the root
    pointer, the tree with every visit count, and the game history are
    unchanged. *)
Theorem PlayMove_failure (c : Coord) (p : Player) :
  game_over (root_ p) (tree_ p) = true
  \/ (c <> kResign
      /\ legal_move (node_position (tree_ p) (root_ p)) c = false) ->
  rejected c p.
Proof.
  intros Hfail. unfold rejected, PlayMove.
  destruct (game_over (root_ p) (tree_ p)) eqn:Eover.
  - cbn. repeat split. eexists. reflexivity.
  - destruct Hfail as [Hover|[Hmove Hillegal]]; [discriminate|].
    apply Nat.eqb_neq in Hmove. rewrite Hmove, Hillegal.
    cbn. repeat split. eexists. reflexivity.
Qed.

End PlayMoveProperties.

(* ===================================================================== *)
(** * Properties of UpdateGame *)
(* ===================================================================== *)

Section UpdateGameProperties.
Variable pow : Qc -> Qc -> Qc.
Let FM : FloatModel := exact pow.
Context {BD : Build} {TA : @TreeAPI FM} {GA : @GameAPI FM TA}
        {NA : @NetAPI FM TA} {RA : @RandomAPI FM}.

Local Open Scope Qc_scope.

Lemma fold_left_Qcplus (l : list Qc) (a : Qc) :
  fold_left Qcplus l a = a + fold_left Qcplus l 0.
Proof.
  revert a. induction l as [|x l IH]; intros a; simpl.
  - ring.
  - rewrite (IH (a + x)), (IH (0 + x)). ring.
Qed.

Lemma sum_of_quotients (l : list Qc) (s : Qc) :
  fold_left Qcplus (map (fun w => w / s) l) 0
  = fold_left Qcplus l 0 / s.
Proof.
  induction l as [|x l IH]; simpl.
  - unfold Qcdiv. ring.
  - rewrite (fold_left_Qcplus _ (0 + x / s)), (fold_left_Qcplus _ (0 + x)), IH.
    unfold Qcdiv. ring.
Qed.

(** C8, with rounding taken away.  [UpdateGame] forwards to the game
    history the weights [w_i / sum], where [w_i] is the visit count of child
    [i] raised to the softmax temperature before the temperature cutoff and
    the visit count itself from the cutoff on, and [sum] is the total of the
    weights.  In exact arithmetic the forwarded distribution sums to one
    whenever that total is not zero; in single precision it does so up to
    rounding only, and for a total of zero see [UpdateGame_unvisited]. *)
Theorem UpdateGame_search_pi (c : Coord) (p : @Player FM TA GA NA RA) :
  sum_floats (visit_weights p) <> 0 ->
  distribution_forwarded c p.
Proof.
  intros Hsum. unfold distribution_forwarded.
  set (n := pos_n (node_position (tree_ p) (root_ p))).
  split; [reflexivity|]. split; [reflexivity|].
  unfold visit_weights in *. fold n in Hsum |- *. split; [|split].
  - intros Hlt. apply Z.ltb_lt in Hlt. rewrite Hlt. reflexivity.
  - intros Hle. apply Z.ltb_ge in Hle. rewrite Hle. reflexivity.
  - unfold search_pi, sum_floats, visit_weights in *. fold n.
    change (@f_add FM) with Qcplus in *.
    change (@f_div FM) with Qcdiv in *.
    change (@f_zero FM) with (Exact.of_int 0) in *.
    assert (H0 : Exact.of_int 0 = 0) by (apply Qc_is_canon; reflexivity).
    rewrite H0 in *. rewrite sum_of_quotients.
    unfold Qcdiv. apply Qcmult_inv_r. exact Hsum.
Qed.

End UpdateGameProperties.

(* ===================================================================== *)
(** * Further properties of TimeRecommendation *)
(* ===================================================================== *)

(** X1.  Black and white get the same budget for the same turn: from move
    0 on, the moves [2 * turn] and [2 * turn + 1] are recommended the same
    time, whatever the three settings (and undefined together). *)
Theorem TimeRecommendation_same_turn (FM : FloatModel) (turn : Z)
    (seconds_per_move time_limit decay_factor : float) :
  0 <= turn ->
  TimeRecommendation (2 * turn + 1) seconds_per_move time_limit decay_factor
  = TimeRecommendation (2 * turn) seconds_per_move time_limit decay_factor.
Proof.
  intros Hturn. unfold TimeRecommendation.
  assert (H1 : Z.quot (2 * turn + 1) 2 = turn).
  { rewrite Z.quot_div_nonneg by lia.
    symmetry. apply (Z.div_unique_pos _ _ _ 1); lia. }
  assert (H2 : Z.quot (2 * turn) 2 = turn).
  { rewrite Z.quot_div_nonneg by lia.
    symmetry. apply (Z.div_unique_pos _ _ _ 0); lia. }
  rewrite H1, H2. reflexivity.
Qed.

(** X2.  While the player's move count has not passed [core_moves] the
    recommendation does not decay: it is the base time multiplied by
    [pow(decay_factor, 0)], the same for every such move.  In exact
    arithmetic that is [seconds_per_move] itself. *)
Theorem TimeRecommendation_core_phase :
  (forall (FM : FloatModel) (move_num : Z)
          (seconds_per_move time_limit decay_factor : float) (core_moves : Z),
      f_gt (endgame_time seconds_per_move decay_factor) time_limit = false ->
      f_to_int (core_quotient seconds_per_move time_limit decay_factor)
        = Some core_moves ->
      in_int_range (Z.quot move_num 2 - core_moves) = true ->
      Z.quot move_num 2 <= core_moves ->
      TimeRecommendation move_num seconds_per_move time_limit decay_factor
      = Some (decayed seconds_per_move decay_factor 0))
  /\ (forall (pow : Qc -> Qc -> Qc) (seconds_per_move decay_factor : Qc),
        decayed (FM := exact pow) seconds_per_move decay_factor 0
        = seconds_per_move).
Proof.
  split.
  - intros FM mn spm tl d core Hgt Hcore Hrange Hle.
    unfold TimeRecommendation.
    rewrite Hgt, Hcore, (int_checked_Some _ Hrange).
    rewrite Z.max_r by lia. reflexivity.
  - intros pow spm d. unfold decayed. cbn.
    change (Qcpower d 0) with (Q2Qc 1). ring.
Qed.


(* ===================================================================== *)
(** * What the member functions leave alone *)
(* ===================================================================== *)

(** Goals of the kind "nothing of this has changed", on a player that
    differs from the old one by setters. *)
Ltac same_fields :=
  unfold search_frame, setup_kept;
  repeat (split; [reflexivity|]);
  first [reflexivity | intros _ Hw; exact Hw].

Section FrameProperties.
Context {FM : FloatModel} {BD : Build} {TA : TreeAPI} {GA : GameAPI}
        {NA : NetAPI} {RA : RandomAPI}.

Lemma search_frame_refl (p : Player) : search_frame p p.
Proof. same_fields. Qed.

Lemma search_frame_trans (p q r : Player) :
  search_frame p q -> search_frame q r -> search_frame p r.
Proof.
  unfold search_frame.
  intros (H1 & H2 & H3 & H4 & H5 & H6) (K1 & K2 & K3 & K4 & K5 & K6).
  repeat split; congruence.
Qed.

Lemma setup_kept_refl (p : Player) : setup_kept p p.
Proof. same_fields. Qed.

Lemma setup_kept_trans (p q r : Player) :
  setup_kept p q -> setup_kept q r -> setup_kept p r.
Proof.
  unfold setup_kept.
  intros (H1 & H2 & H3 & H4) (K1 & K2 & K3 & K4).
  split; [congruence|]. split; [congruence|]. split; [congruence|].
  intros Hc Hw. exact (K4 Hc (H4 Hc Hw)).
Qed.

(** ** SelectLeaves *)

Lemma SelectLeaves_body_cache (o : Options) (g : Game) (root : Node)
    (num_leaves : Z) (s : SelectState) :
  match SelectLeaves_body o g root num_leaves s with
  | Continue s' | Break s' =>
      has_value (sel_cache s') = has_value (sel_cache s)
  end.
Proof.
  unfold SelectLeaves_body.
  destruct (SelectLeaf root (sel_tree s)) as [leaf t].
  destruct (game_over leaf t || at_move_limit leaf t); [reflexivity|].
  destruct (sel_cache s) as [cache|].
  - destruct (TryGet (node_move t leaf, node_position t leaf) cache)
      as [[out|] cache']; [reflexivity|].
    unfold select_new_leaf.
    destruct (num_selected s + 1 =? num_leaves); [reflexivity|].
    destruct (node_eqb leaf root); reflexivity.
  - unfold select_new_leaf.
    destruct (num_selected s + 1 =? num_leaves); [reflexivity|].
    destruct (node_eqb leaf root); reflexivity.
Qed.

Lemma SelectLeaves_loop_cache (fuel : nat) (o : Options) (g : Game)
    (root : Node) (num_leaves : Z) (s s' : SelectState) :
  SelectLeaves_loop fuel o g root num_leaves s = Ok s' ->
  has_value (sel_cache s') = has_value (sel_cache s).
Proof.
  revert s. induction fuel as [|fuel IH]; intros s H; simpl in H.
  - destruct (num_cache_misses s <? num_leaves * 2); [discriminate|].
    inversion H. reflexivity.
  - destruct (num_cache_misses s <? num_leaves * 2);
      [|inversion H; reflexivity].
    pose proof (SelectLeaves_body_cache o g root num_leaves s) as Hb.
    destruct (SelectLeaves_body o g root num_leaves s) as [s1|s1].
    + rewrite (IH s1 H). exact Hb.
    + inversion H. subst s1. exact Hb.
Qed.

(** [SelectLeaves] writes to the tree and to the cache, and to nothing
    else of the player. *)
Lemma SelectLeaves_writes (fuel : nat) (root : Node) (num_leaves : Z)
    (leaves : list Node) (p : Player) (s : SelectState) (p' : Player) :
  SelectLeaves fuel root num_leaves leaves p = Ok (s, p') ->
  p' = set_cache (sel_cache s) (set_tree (sel_tree s) p)
  /\ cache_present p' = cache_present p.
Proof.
  unfold SelectLeaves.
  destruct (SelectLeaves_loop fuel (options_ p) (game_ p) root num_leaves
              (SelectLeaves_init leaves p)) as [s1| | |] eqn:E;
    simpl; try discriminate.
  intros H. inversion H. subst s1 p'. split; [reflexivity|].
  apply SelectLeaves_loop_cache in E. exact E.
Qed.

Lemma SelectLeaves_kept (fuel : nat) (root : Node) (num_leaves : Z)
    (leaves : list Node) (p : Player) (s : SelectState) (p' : Player) :
  SelectLeaves fuel root num_leaves leaves p = Ok (s, p') ->
  search_frame p p' /\ setup_kept p p'.
Proof.
  intros H. destruct (SelectLeaves_writes _ _ _ _ _ _ _ H) as [Hp Hc].
  subst p'. split; [same_fields|].
  unfold setup_kept. rewrite Hc.
  repeat (split; [reflexivity|]). intros _ Hw. exact Hw.
Qed.

(** ** ProcessLeaves *)

Lemma adjacent_distinct_snoc (l : list string) (a b : string) :
  adjacent_distinct (l ++ [a]) -> a <> b -> adjacent_distinct (l ++ [a; b]).
Proof.
  induction l as [|x l IH]; intros H Hab.
  - simpl. split; [exact Hab|exact I].
  - destruct l as [|y l].
    + simpl in *. destruct H as [Hxa _]. repeat split; assumption.
    + simpl in H. destruct H as [Hxy H]. simpl. split; [exact Hxy|].
      apply IH; assumption.
Qed.

Lemma record_inference_well_formed (name : string) (n batch : Z)
    (infs : list InferenceInfo) :
  inference_info_contract -> 1 <= batch ->
  inferences_well_formed infs ->
  inferences_well_formed (record_inference name n batch infs).
Proof.
  intros Hnew Hbatch [Hall Hadj].
  destruct (string_empty name) eqn:En.
  { unfold record_inference. rewrite En. split; assumption. }
  assert (Hname : name <> EmptyString).
  { intros E. rewrite E in En. discriminate. }
  destruct (Hnew name n) as (Hmodel & _ & Hcount).
  assert (Hfresh : model (touch n batch (InferenceInfo_new name n)) <> EmptyString
                   /\ 1 <= total_count (touch n batch (InferenceInfo_new name n))).
  { simpl. rewrite Hmodel, Hcount. split; [exact Hname|lia]. }
  destruct infs as [|r0 infs0] using rev_ind.
  - rewrite (record_inference_first _ _ _ Hname). split.
    + constructor; [exact Hfresh|constructor].
    + exact I.
  - clear IHinfs0.
    apply Forall_app in Hall. destruct Hall as [Hinit Hr].
    inversion Hr as [|? ? [Hrm Hrc] _]. subst.
    destruct (String.eqb (model r0) name) eqn:Esame.
    + apply String.eqb_eq in Esame.
      rewrite (record_inference_same_model _ _ _ _ _ Hname Esame). split.
      * apply Forall_app. split; [exact Hinit|].
        constructor; [|constructor]. simpl. split; [exact Hrm|lia].
      * rewrite map_app in *. exact Hadj.
    + apply String.eqb_neq in Esame.
      rewrite (record_inference_new_model _ _ _ _ _ Hname Esame). split.
      * apply Forall_app. split; [exact Hinit|].
        constructor; [split; assumption|]. constructor; [exact Hfresh|constructor].
      * rewrite map_app in *. simpl. rewrite Hmodel.
        apply adjacent_distinct_snoc; assumption.
Qed.

Lemma incorporate_leaves_cache (o : Options) (root : Node)
    (leaves : list Node) (syms : list Symmetry) (outs : list Output)
    (t : Tree) (cache : option Cache) :
  has_value (snd (incorporate_leaves o root leaves syms outs (t, cache)))
  = has_value cache.
Proof.
  revert syms outs t cache.
  induction leaves as [|leaf leaves IH]; intros syms outs t cache;
    [reflexivity|].
  destruct syms as [|sym syms]; [reflexivity|].
  destruct outs as [|out outs]; [reflexivity|].
  simpl. destruct cache as [c|]; simpl; rewrite IH; reflexivity.
Qed.

(** Everything a returning call leaves as it was, and what it shows the
    observer. *)
Lemma ProcessLeaves_writes (leaves : list Node) (random_sym : bool)
    (p p' : Player) :
  ProcessLeaves leaves random_sym p = Ok p' ->
  search_frame p p'
  /\ cache_present p' = cache_present p
  /\ clock_ p' = clock_ p
  /\ tree_search_leaves_ p' = tree_search_leaves_ p
  /\ cb_calls_ p'
     = cb_calls_ p
       ++ (if tree_search_cb_ p
           then match leaves with [] => [] | _ => [leaves] end
           else [])
  /\ (random_sym = false -> rnd_ p' = rnd_ p)
  /\ (random_sym = true ->
      rnd_ p' = snd (draw_symmetries (List.length leaves) (rnd_ p)))
  /\ (leaves = [] -> p' = p).
Proof.
  intros H. unfold ProcessLeaves in H.
  destruct leaves as [|leaf0 leaves0] eqn:El.
  { inversion H. subst p'. unfold search_frame.
    destruct (tree_search_cb_ p); rewrite ?app_nil_r; repeat split. }
  rewrite <- El in *.
  set (n := List.length leaves) in *.
  destruct (if random_sym then draw_symmetries n (rnd_ p)
            else (repeat kIdentity n, rnd_ p)) as [syms rnd] eqn:Es.
  destruct (build_features (tree_ p) leaves syms) as [fs| | |] eqn:Ef;
    simpl in H; try discriminate.
  destruct (RunMany fs (network_ p)) as [[out_at name] net] eqn:Er.
  pose proof (incorporate_leaves_cache (options_ p) (root_ p) leaves syms
                (map out_at (seq 0 n)) (tree_ p) (inference_cache_ p)) as Hc.
  destruct (incorporate_leaves (options_ p) (root_ p) leaves syms
              (map out_at (seq 0 n)) (tree_ p, inference_cache_ p))
    as [t cache] eqn:Ei.
  simpl in Hc.
  assert (Hrnd0 : random_sym = false -> rnd = rnd_ p).
  { intros ->. inversion Es. reflexivity. }
  assert (Hrnd1 : random_sym = true -> rnd = snd (draw_symmetries n (rnd_ p))).
  { intros ->. rewrite Es. reflexivity. }
  assert (Hne : leaves = [] -> False) by (rewrite El; discriminate).
  inversion H as [Hp]. clear H.
  unfold search_frame, cache_present.
  destruct (tree_search_cb_ p) eqn:Ecb; cbn; rewrite ?Ecb, ?app_nil_r;
    repeat split; try assumption; try reflexivity;
      try (intros E; destruct (Hne E)).
Qed.

Lemma ProcessLeaves_kept (leaves : list Node) (random_sym : bool)
    (p p' : Player) :
  ProcessLeaves leaves random_sym p = Ok p' ->
  search_frame p p' /\ setup_kept p p'.
Proof.
  intros H.
  destruct (ProcessLeaves_writes _ _ _ _ H) as (Hf & Hc & _ & _ & _ & _ & _ & He).
  split; [exact Hf|].
  destruct Hf as (_ & _ & Ho & Ht & _).
  unfold setup_kept. split; [exact Ho|]. split; [exact Ht|].
  split; [exact Hc|]. intros Hnew Hw.
  destruct leaves as [|leaf leaves'] eqn:El.
  - rewrite (He eq_refl). exact Hw.
  - assert (Hne : leaf :: leaves' <> []) by discriminate.
    destruct (ProcessLeaves_Ok _ _ _ _ Hne H) as (_ & _ & _ & _ & _ & Hinf & _).
    rewrite Hinf. apply record_inference_well_formed; try assumption.
    simpl List.length. lia.
Qed.

(** ** TreeSearch *)

Lemma TreeSearch_kept (fuel : nat) (p p' : Player) :
  TreeSearch fuel p = Ok p' -> search_frame p p' /\ setup_kept p p'.
Proof.
  unfold TreeSearch.
  destruct (SelectLeaves fuel (root_ p) (virtual_losses (options_ p)) [] p)
    as [[s p1]| | |] eqn:Es; simpl; try discriminate.
  intros H. apply ProcessLeaves_kept in H. apply SelectLeaves_kept in Es.
  destruct H as [H1 H2], Es as [E1 E2].
  split.
  - apply (search_frame_trans _ _ _ E1). exact H1.
  - apply (setup_kept_trans _ _ _ E2). exact H2.
Qed.

(** ** The loops of SuggestMove *)

Lemma search_until_readouts_kept (rounds fuel : nat) (target : Z)
    (p p' : Player) :
  search_until_readouts rounds fuel target p = Ok p' ->
  search_frame p p' /\ setup_kept p p'.
Proof.
  revert p. induction rounds as [|rounds IH]; intros p H; simpl in H.
  - destruct (N (root_ p) (tree_ p) <? target); [discriminate|].
    inversion H. split; [apply search_frame_refl|apply setup_kept_refl].
  - destruct (N (root_ p) (tree_ p) <? target).
    + destruct (TreeSearch fuel p) as [p1| | |] eqn:Et; simpl in H;
        try discriminate.
      destruct (TreeSearch_kept _ _ _ Et) as [T1 T2].
      destruct (IH p1 H) as [I1 I2]. split.
      * exact (search_frame_trans _ _ _ T1 I1).
      * exact (setup_kept_trans _ _ _ T2 I2).
    + inversion H. split; [apply search_frame_refl|apply setup_kept_refl].
Qed.

Lemma set_clock_kept (clk : Clock) (p : Player) :
  search_frame p (set_clock clk p) /\ setup_kept p (set_clock clk p).
Proof.
  split; same_fields.
Qed.

Lemma search_until_deadline_kept (rounds fuel : nat) (start : Time)
    (seconds : float) (p p' : Player) :
  search_until_deadline rounds fuel start seconds p = Ok p' ->
  search_frame p p' /\ setup_kept p p'.
Proof.
  revert p. induction rounds as [|rounds IH]; intros p H; simpl in H;
    destruct (Now (clock_ p)) as [now clk];
    destruct (set_clock_kept clk p) as [C1 C2];
    destruct (elapsed_less start now seconds).
  - discriminate.
  - inversion H. subst p'. split; assumption.
  - destruct (TreeSearch fuel (set_clock clk p)) as [p1| | |] eqn:Et;
      simpl in H; try discriminate.
    destruct (TreeSearch_kept _ _ _ Et) as [T1 T2].
    destruct (IH p1 H) as [I1 I2]. split.
    + exact (search_frame_trans _ _ _ C1 (search_frame_trans _ _ _ T1 I1)).
    + exact (setup_kept_trans _ _ _ C2 (setup_kept_trans _ _ _ T2 I2)).
  - inversion H. subst p'. split; assumption.
Qed.

Lemma SuggestMove_prepare_kept (fuel : nat) (inject : bool) (p p1 : Player) :
  SuggestMove_prepare fuel inject p = Ok p1 ->
  search_frame p p1 /\ setup_kept p p1.
Proof.
  unfold SuggestMove_prepare.
  set (first := if negb (HasFlag_kExpanded (root_ p) (tree_ p)) then _ else _).
  destruct first as [q2| | |] eqn:Ef; simpl; try discriminate.
  intros H. inversion H as [H1]. clear H H1.
  assert (Hq : search_frame p q2 /\ setup_kept p q2).
  { subst first. destruct (negb (HasFlag_kExpanded (root_ p) (tree_ p))).
    - destruct (SelectLeaves fuel (root_ p) 1 [] p) as [[s q]| | |] eqn:Es;
        simpl in Ef; try discriminate.
      apply ProcessLeaves_kept in Ef. apply SelectLeaves_kept in Es.
      destruct Ef as [F1 F2], Es as [E1 E2]. split.
      + apply (search_frame_trans _ _ _ E1). exact F1.
      + apply (setup_kept_trans _ _ _ E2). exact F2.
    - inversion Ef. split; [apply search_frame_refl|apply setup_kept_refl]. }
  destruct inject; [|exact Hq].
  destruct (Dirichlet kNumMoves (rnd_ q2)) as [noise rnd].
  destruct Hq as [Q1 Q2]. split.
  - apply (search_frame_trans _ _ _ Q1). same_fields.
  - apply (setup_kept_trans _ _ _ Q2). same_fields.
Qed.

Lemma SuggestMove_search_kept (rounds fuel : nat) (start : Time)
    (new_readouts : Z) (p p' : Player) :
  SuggestMove_search rounds fuel start new_readouts p = Ok p' ->
  search_frame p p' /\ setup_kept p p'.
Proof.
  unfold SuggestMove_search.
  destruct (f_gt (seconds_per_move (options_ p)) f_zero).
  - destruct (if f_gt (time_limit (options_ p)) f_zero then _ else _)
      as [seconds| | |]; simpl; try discriminate.
    apply search_until_deadline_kept.
  - apply search_until_readouts_kept.
Qed.

Lemma accumulate_length (prev : float) (l : list float) :
  List.length (accumulate prev l) = List.length l.
Proof.
  revert prev. induction l as [|x l IH]; intros prev; [reflexivity|].
  simpl. rewrite IH. reflexivity.
Qed.

Lemma pick_cdf_length (p : Player) : List.length (pick_cdf p) = (kN * kN)%nat.
Proof.
  unfold pick_cdf, partial_sums.
  destruct (seq 0 (kN * kN)) as [|i l] eqn:E.
  - apply (f_equal (@List.length nat)) in E. rewrite length_seq in E.
    simpl in *. congruence.
  - apply (f_equal (@List.length nat)) in E. rewrite length_seq in E.
    simpl map. simpl List.length in *.
    rewrite accumulate_length, length_map. congruence.
Qed.

Lemma SearchSorted_bound (cdf : list float) (x : float) :
  (SearchSorted cdf x <= List.length cdf)%nat.
Proof.
  induction cdf as [|v cdf IH]; simpl; [lia|].
  destruct (f_gt x v); lia.
Qed.

Lemma PickMove_kept (p : Player) (c : Coord) (p' : Player) :
  PickMove p = Ok (c, p') -> search_frame p p' /\ setup_kept p p'.
Proof.
  unfold PickMove.
  destruct (temperature_cutoff_ p <=? pos_n (node_position (tree_ p) (root_ p))).
  { intros H. injection H as <- <-.
    split; [apply search_frame_refl|apply setup_kept_refl]. }
  destruct (f_eqb (last (pick_cdf p) f_zero) f_zero).
  { intros H. injection H as <- <-.
    split; [apply search_frame_refl|apply setup_kept_refl]. }
  destruct (rnd_uniform (rnd_ p)) as [e rnd].
  destruct (debug_build && _); [discriminate|].
  intros H. injection H as <- <-. split; same_fields.
Qed.

Lemma SuggestMove_setup_kept (rounds fuel : nat) (new_readouts : Z)
    (inject : bool) (p : Player) (c : Coord) (p' : Player) :
  SuggestMove rounds fuel new_readouts inject p = Ok (c, p') ->
  setup_kept p p'.
Proof.
  unfold SuggestMove. destruct (Now (clock_ p)) as [start clk].
  destruct (set_clock_kept clk p) as [_ C2].
  destruct (SuggestMove_prepare fuel inject (set_clock clk p))
    as [p1| | |] eqn:Ep; simpl; try discriminate.
  destruct (SuggestMove_search rounds fuel start new_readouts p1)
    as [p2| | |] eqn:Es; simpl; try discriminate.
  destruct (SuggestMove_prepare_kept _ _ _ _ Ep) as [_ P2].
  destruct (SuggestMove_search_kept _ _ _ _ _ _ Es) as [_ S2].
  pose proof (setup_kept_trans _ _ _ C2 (setup_kept_trans _ _ _ P2 S2)) as H2.
  destruct (ShouldResign p2).
  - intros H. injection H as <- <-. exact H2.
  - intros H. destruct (PickMove_kept _ _ _ H) as [_ K2].
    exact (setup_kept_trans _ _ _ H2 K2).
Qed.

End FrameProperties.

(* ===================================================================== *)
(** * Properties of the constructor, InitializeGame and NewGame *)
(* ===================================================================== *)

Section LifecycleProperties.
Context {FM : FloatModel} {BD : Build} {TA : TreeAPI} {GA : GameAPI}
        {NA : NetAPI} {RA : RandomAPI} {SA : StartAPI}.

(** X4.  The temperature cutoff that the constructor computes.  Without
    soft-pick it is -1.  With soft-pick it is an even number, the largest
    one not above [kN * kN / 12]: 30 on the 19x19 board and 6 on the 9x9
    board, as the comment in the constructor says. *)
Theorem MctsPlayer_new_cutoff (network : Net) (cache : option Cache)
    (game : Game) (o : Options) (memory : Tree) (clock : Clock) :
  let p := MctsPlayer_new network cache game o memory clock in
  let cells := Z.of_nat kN * Z.of_nat kN in
  (soft_pick o = false /\ temperature_cutoff_ p = -1)
  \/ (soft_pick o = true
      /\ Z.even (temperature_cutoff_ p) = true
      /\ cells / 12 - 1 <= temperature_cutoff_ p <= cells / 12
      /\ (kN = 19%nat -> temperature_cutoff_ p = 30)
      /\ (kN = 9%nat -> temperature_cutoff_ p = 6)).
Proof.
  intros p cells.
  change (temperature_cutoff_ p) with (temperature_cutoff_of o).
  unfold temperature_cutoff_of. fold cells.
  destruct (soft_pick o); cbn [negb]; [right|left; split; reflexivity].
  split; [reflexivity|]. split.
  { rewrite Z.even_mul. apply orb_true_r. }
  split.
  { pose proof (Z.div_mod (cells / 12) 2 ltac:(lia)) as Hd.
    pose proof (Z.mod_pos_bound (cells / 12) 2 ltac:(lia)) as Hm. lia. }
  split; intros HkN; unfold cells; rewrite HkN; reflexivity.
Qed.

(** X5.  [InitializeGame] puts the root pointer back on the game root,
    which then holds a newly built node for the given position, and starts
    a new game history; an [UndoMove] right after it fails and changes
    nothing.  The records of the models used are not reset (so
    [GetModelsUsedForInference] still reports the games played before),
    and neither are the inference cache, the random generator, the
    observer's registration or the error log. *)
Theorem InitializeGame_spec (position : Position) (p : Player) :
  let p' := InitializeGame position p in
  root_ p' = game_root_
  /\ node_read (tree_ p') (root_ p')
     = MctsNode_root root_stats_ (Position_copy position)
  /\ game_ p' = Game_NewGame (game_ p)
  /\ UndoMove p' = (false, p')
  /\ inferences_ p' = inferences_ p
  /\ GetModelsUsedForInference p' = GetModelsUsedForInference p
  /\ inference_cache_ p' = inference_cache_ p
  /\ rnd_ p' = rnd_ p
  /\ tree_search_cb_ p' = tree_search_cb_ p
  /\ log_ p' = log_ p.
Proof.
  intros p'. split; [reflexivity|].
  split; [apply node_read_assign|]. split; [reflexivity|].
  split; [|repeat split].
  unfold UndoMove.
  replace (node_eqb (root_ p') game_root_) with true; [reflexivity|].
  symmetry. apply node_eqb_eq. reflexivity.
Qed.

Lemma models_since_all (n : Z) (infs : list InferenceInfo) :
  Forall (fun r => n <= last_move r) infs ->
  models_since n infs = map model infs.
Proof.
  induction 1 as [|r infs Hr _ IH]; [reflexivity|].
  simpl. replace (last_move r <? n) with false
    by (symmetry; apply Z.ltb_ge; exact Hr).
  rewrite IH. reflexivity.
Qed.

(** X6.  Since [NewGame] keeps the records, the first move of the new game
    is credited with every model of the games before: when the new root is
    at move 0 and no record ends at a negative move, the models that
    [UpdateGame] lists for the move are those of all the records. *)
Theorem NewGame_keeps_models (p : Player) :
  pos_n (node_position (tree_ (NewGame p)) (root_ (NewGame p))) = 0 ->
  Forall (fun r => 0 <= last_move r) (inferences_ p) ->
  models_used (NewGame p) = map model (inferences_ p).
Proof.
  intros Hn Hall. unfold models_used. rewrite Hn.
  change (inferences_ (NewGame p)) with (inferences_ p).
  rewrite models_since_all by (apply Forall_rev; exact Hall).
  rewrite map_rev, rev_involutive. reflexivity.
Qed.

(** ** What every member function keeps *)

Lemma UndoMove_kept (p : Player) : setup_kept p (snd (UndoMove p)).
Proof.
  unfold UndoMove. destruct (node_eqb (root_ p) game_root_); cbn [snd];
    same_fields.
Qed.

Lemma UpdateGame_kept (c : Coord) (p : Player) : setup_kept p (UpdateGame c p).
Proof. same_fields. Qed.

Lemma advance_root_kept (c : Coord) (p : Player) :
  setup_kept p (advance_root c p).
Proof.
  unfold advance_root. destruct (tree_reuse (options_ p)).
  - destruct (MaybeAddChild c (root_ p) (tree_ p)) as [child t]. same_fields.
  - destruct (MaybeAddChild c (root_ p) (children_clear (tree_ p) (root_ p)))
      as [child t]. same_fields.
Qed.

Lemma end_of_game_kept (p : Player) : setup_kept p (end_of_game p).
Proof.
  unfold end_of_game. destruct (at_move_limit (root_ p) (tree_ p));
    [same_fields|].
  destruct (game_over (root_ p) (tree_ p)); same_fields.
Qed.

Lemma PlayMove_kept (c : Coord) (p : Player) : setup_kept p (snd (PlayMove c p)).
Proof.
  unfold PlayMove. destruct (game_over (root_ p) (tree_ p)); [same_fields|].
  destruct (Nat.eqb c kResign); [same_fields|].
  destruct (negb (legal_move (node_position (tree_ p) (root_ p)) c));
    [same_fields|].
  cbn [snd].
  apply (setup_kept_trans _ _ _ (UpdateGame_kept c p)).
  apply (setup_kept_trans _ _ _ (advance_root_kept c _)).
  apply end_of_game_kept.
Qed.

Lemma call_returns_kept (p p' : Player) :
  call_returns p p' -> setup_kept p p'.
Proof.
  intros H. destruct H.
  - same_fields.
  - same_fields.
  - apply UndoMove_kept.
  - exact (SuggestMove_setup_kept _ _ _ _ _ _ _ H).
  - exact (proj2 (PickMove_kept _ _ _ H)).
  - exact (proj2 (TreeSearch_kept _ _ _ H)).
  - exact (proj2 (SelectLeaves_kept _ _ _ _ _ _ _ H)).
  - exact (proj2 (ProcessLeaves_kept _ _ _ _ H)).
  - same_fields.
  - apply PlayMove_kept.
  - apply UpdateGame_kept.
Qed.

Lemma reachable_kept (start p : Player) :
  reachable start p -> setup_kept start p.
Proof.
  induction 1 as [|p p' _ IH Hcall]; [apply setup_kept_refl|].
  exact (setup_kept_trans _ _ _ IH (call_returns_kept _ _ Hcall)).
Qed.

(** X7.  What the constructor sets up stays: along any sequence of
    returning calls of member functions on a constructed player, the options
    are the ones given to the constructor, the temperature cutoff is the
    one computed from them, and a cache is held if and only if one was
    given.  So a player built without soft-pick picks the most visited move
    at every root whose move number is not below -1, and never samples. *)
Theorem MctsPlayer_configuration (network : Net) (cache : option Cache)
    (game : Game) (o : Options) (memory : Tree) (clock : Clock) (p : Player) :
  reachable (MctsPlayer_new network cache game o memory clock) p ->
  options_ p = o
  /\ temperature_cutoff_ p = temperature_cutoff_of o
  /\ cache_present p = has_value cache
  /\ (soft_pick o = false ->
      -1 <= pos_n (node_position (tree_ p) (root_ p)) ->
      PickMove p = Ok (GetMostVisitedMove (root_ p) (tree_ p), p)).
Proof.
  intros H. destruct (reachable_kept _ _ H) as (Ho & Ht & Hc & _).
  split; [exact Ho|]. split; [exact Ht|]. split; [exact Hc|].
  intros Hsoft Hn. unfold PickMove. rewrite Ht.
  change (temperature_cutoff_ (MctsPlayer_new network cache game o memory clock))
    with (temperature_cutoff_of o).
  unfold temperature_cutoff_of. rewrite Hsoft. cbn [negb].
  replace (-1 <=? pos_n (node_position (tree_ p) (root_ p))) with true
    by (symmetry; apply Z.leb_le; exact Hn).
  reflexivity.
Qed.

(** X8.  The records of the models used stay well formed: if
    [InferenceInfo]'s constructor stores the model's name and starts the
    count at zero, then along any sequence of returning calls on a
    constructed player every record names a model, counts at least one
    evaluated leaf, and names a model other than the record before it. *)
Theorem MctsPlayer_inferences (network : Net) (cache : option Cache)
    (game : Game) (o : Options) (memory : Tree) (clock : Clock) (p : Player) :
  inference_info_contract ->
  reachable (MctsPlayer_new network cache game o memory clock) p ->
  inferences_well_formed (inferences_ p).
Proof.
  intros Hnew H. destruct (reachable_kept _ _ H) as (_ & _ & _ & Hw).
  apply Hw; [exact Hnew|]. split; [constructor|exact I].
Qed.

End LifecycleProperties.

(* ===================================================================== *)
(** * Further properties of SelectLeaves and TreeSearch *)
(* ===================================================================== *)

Section SearchProperties.
Context {FM : FloatModel} {BD : Build} {TA : TreeAPI} {GA : GameAPI}
        {NA : NetAPI} {RA : RandomAPI}.

Lemma set_same_tree_cache (p : Player) :
  set_cache (inference_cache_ p) (set_tree (tree_ p) p) = p.
Proof. destruct p. reflexivity. Qed.

(** Asked for no leaf, [SelectLeaves] returns before its first pass. *)
Lemma SelectLeaves_no_leaves (fuel : nat) (root : Node) (num_leaves : Z)
    (leaves : list Node) (p : Player) :
  num_leaves <= 0 ->
  SelectLeaves fuel root num_leaves leaves p
  = Ok (SelectLeaves_init leaves p, p).
Proof.
  intros Hn. unfold SelectLeaves.
  assert (Hloop : SelectLeaves_loop fuel (options_ p) (game_ p) root num_leaves
                    (SelectLeaves_init leaves p)
                  = Ok (SelectLeaves_init leaves p)).
  { destruct fuel; simpl;
      replace (0 <? num_leaves * 2) with false
        by (symmetry; apply Z.ltb_ge; lia); reflexivity. }
  rewrite Hloop. simpl. rewrite set_same_tree_cache. reflexivity.
Qed.

Lemma TreeSearch_no_leaves (fuel : nat) (p : Player) :
  virtual_losses (options_ p) <= 0 ->
  TreeSearch fuel p = Ok (set_leaves [] p).
Proof.
  intros Hn. unfold TreeSearch.
  rewrite (SelectLeaves_no_leaves _ _ _ _ _ Hn). reflexivity.
Qed.

Lemma search_until_readouts_no_leaves (rounds fuel : nat) (target : Z)
    (p : Player) :
  virtual_losses (options_ p) <= 0 ->
  N (root_ p) (tree_ p) < target ->
  search_until_readouts rounds fuel target p = OutOfFuel.
Proof.
  revert p. induction rounds as [|rounds IH]; intros p Hn Hlt; simpl;
    replace (N (root_ p) (tree_ p) <? target) with true
      by (symmetry; apply Z.ltb_lt; exact Hlt); [reflexivity|].
  rewrite (TreeSearch_no_leaves _ _ Hn). simpl.
  apply IH; assumption.
Qed.

(** X9.  A batch size that is not positive stalls the search.  With
    [virtual_losses <= 0], [TreeSearch] selects nothing and changes nothing
    but the (emptied) vector of leaves, so the visit count of the root
    never moves: the fixed-readouts loop of [SuggestMove] cannot reach a
    target above the present count, and a call that asks for a positive
    number of readouts on an expanded root never returns. *)
Theorem TreeSearch_zero_batch (p : Player) :
  virtual_losses (options_ p) <= 0 ->
  (forall fuel, TreeSearch fuel p = Ok (set_leaves [] p))
  /\ (forall rounds fuel target,
        N (root_ p) (tree_ p) < target ->
        search_until_readouts rounds fuel target p = OutOfFuel)
  /\ (forall rounds fuel new_readouts,
        f_gt (seconds_per_move (options_ p)) f_zero = false ->
        HasFlag_kExpanded (root_ p) (tree_ p) = true ->
        0 < new_readouts ->
        SuggestMove rounds fuel new_readouts false p = OutOfFuel).
Proof.
  intros Hn. split; [|split].
  - intros fuel. apply TreeSearch_no_leaves. exact Hn.
  - intros rounds fuel target Hlt.
    apply search_until_readouts_no_leaves; assumption.
  - intros rounds fuel new_readouts Hspm Hexp Hnew.
    unfold SuggestMove. destruct (Now (clock_ p)) as [start clk].
    unfold SuggestMove_prepare. cbn [root_ tree_ set_clock].
    rewrite Hexp. cbn [negb bind].
    unfold SuggestMove_search. cbn [options_ root_ tree_ set_clock].
    rewrite Hspm.
    rewrite search_until_readouts_no_leaves; [reflexivity|exact Hn|].
    cbn [root_ tree_ set_clock]. lia.
Qed.

(** X10.  "If the root is a leaf, we can't possibly find any other
    leaves": when selection from [root] ends at [root] itself, which is not
    a finished game and is not served by the cache, [SelectLeaves] appends
    the root once, gives it one virtual loss and returns after that single
    pass, however many leaves were asked for. *)
Theorem SelectLeaves_root_leaf (fuel : nat) (root : Node) (num_leaves : Z)
    (leaves : list Node) (p : Player) (t : Tree) :
  1 <= num_leaves ->
  SelectLeaf root (tree_ p) = (root, t) ->
  game_over root t = false ->
  at_move_limit root t = false ->
  (forall cache, inference_cache_ p = Some cache ->
     fst (TryGet (node_move t root, node_position t root) cache) = None) ->
  exists s p',
    SelectLeaves (S fuel) root num_leaves leaves p = Ok (s, p')
    /\ sel_leaves s = leaves ++ [root]
    /\ sel_calls s = [VirtualLoss root]
    /\ tree_ p' = AddVirtualLoss root root t.
Proof.
  intros Hn Hsel Hover Hlimit Hmiss.
  assert (Hroot : node_eqb root root = true) by (apply node_eqb_eq; reflexivity).
  unfold SelectLeaves, SelectLeaves_init.
  cbn [SelectLeaves_loop num_cache_misses].
  replace (0 <? num_leaves * 2) with true by (symmetry; apply Z.ltb_lt; lia).
  unfold SelectLeaves_body. cbn [sel_tree sel_cache]. rewrite Hsel.
  rewrite Hover, Hlimit. cbn [orb].
  destruct (inference_cache_ p) as [cache|] eqn:Ecache.
  - specialize (Hmiss cache eq_refl).
    destruct (TryGet (node_move t root, node_position t root) cache)
      as [[out|] cache']; [discriminate Hmiss|].
    unfold select_new_leaf. cbn [num_selected]. rewrite Hroot.
    destruct (0 + 1 =? num_leaves); cbn [bind];
      eexists; eexists; (split; [reflexivity|]); repeat split.
  - unfold select_new_leaf. cbn [num_selected]. rewrite Hroot.
    destruct (0 + 1 =? num_leaves); cbn [bind];
      eexists; eexists; (split; [reflexivity|]); repeat split.
Qed.

(** ** The MG_CHECK of ProcessLeaves *)

Lemma select_new_leaf_losses (root : Node) (num_leaves : Z) (leaf : Node)
    (t : Tree) (cache : option Cache) (s : SelectState) :
  virtual_loss_contract ->
  (forall n, num_virtual_losses_applied (sel_tree s) n
             <= num_virtual_losses_applied t n) ->
  losses_applied (sel_tree s) (sel_leaves s) ->
  match select_new_leaf root num_leaves leaf t cache s with
  | Continue s' | Break s' => losses_applied (sel_tree s') (sel_leaves s')
  end.
Proof.
  intros (_ & _ & _ & Hadd & Hleaf) Hmono [Hnonneg Hpos].
  assert (H : losses_applied (AddVirtualLoss root leaf t)
                             (sel_leaves s ++ [leaf])).
  { split.
    - intros n. specialize (Hnonneg n). specialize (Hmono n).
      specialize (Hadd root leaf t n). lia.
    - apply Forall_app. split.
      + apply (Forall_impl _ (P := fun l =>
                 0 < num_virtual_losses_applied (sel_tree s) l));
          [|exact Hpos].
        intros l Hl. specialize (Hmono l). specialize (Hadd root leaf t l). lia.
      + constructor; [|constructor].
        specialize (Hnonneg leaf). specialize (Hmono leaf).
        specialize (Hleaf root leaf t). lia. }
  unfold select_new_leaf.
  destruct (num_selected s + 1 =? num_leaves); [exact H|].
  destruct (node_eqb leaf root); exact H.
Qed.

Lemma losses_applied_mono (t t' : Tree) (leaves : list Node) :
  (forall n, num_virtual_losses_applied t n
             <= num_virtual_losses_applied t' n) ->
  losses_applied t leaves -> losses_applied t' leaves.
Proof.
  intros Hmono [Hnonneg Hpos]. split.
  - intros n. specialize (Hnonneg n). specialize (Hmono n). lia.
  - apply (Forall_impl _ (P := fun l => 0 < num_virtual_losses_applied t l));
      [|exact Hpos].
    intros l Hl. specialize (Hmono l). lia.
Qed.

Lemma SelectLeaves_body_losses (o : Options) (g : Game) (root : Node)
    (num_leaves : Z) (s : SelectState) :
  virtual_loss_contract ->
  losses_applied (sel_tree s) (sel_leaves s) ->
  match SelectLeaves_body o g root num_leaves s with
  | Continue s' | Break s' => losses_applied (sel_tree s') (sel_leaves s')
  end.
Proof.
  intros Hc Hs. pose proof Hc as (Hselect & Hend & Hres & _ & _).
  unfold SelectLeaves_body.
  pose proof (Hselect root (sel_tree s)) as Hmono.
  destruct (SelectLeaf root (sel_tree s)) as [leaf t]. cbn [snd] in Hmono.
  destruct (game_over leaf t || at_move_limit leaf t).
  { cbn [sel_tree sel_leaves].
    apply (losses_applied_mono (sel_tree s)); [|exact Hs].
    intros n. specialize (Hmono n).
    match goal with |- _ <= num_virtual_losses_applied
                              (IncorporateEndGameResult ?v _ _ _) _ =>
      specialize (Hend v root leaf t n) end. lia. }
  destruct (sel_cache s) as [cache|].
  - destruct (TryGet (node_move t leaf, node_position t leaf) cache)
      as [[out|] cache'].
    + cbn [sel_tree sel_leaves].
      apply (losses_applied_mono (sel_tree s)); [|exact Hs].
      intros n. specialize (Hmono n).
      specialize (Hres (value_init_penalty o) (policy out) (value out)
                       root leaf t n). lia.
    + apply select_new_leaf_losses; assumption.
  - apply select_new_leaf_losses; assumption.
Qed.

Lemma SelectLeaves_loop_losses (fuel : nat) (o : Options) (g : Game)
    (root : Node) (num_leaves : Z) (s s' : SelectState) :
  virtual_loss_contract ->
  losses_applied (sel_tree s) (sel_leaves s) ->
  SelectLeaves_loop fuel o g root num_leaves s = Ok s' ->
  losses_applied (sel_tree s') (sel_leaves s').
Proof.
  intros Hc. revert s. induction fuel as [|fuel IH]; intros s Hs H; simpl in H.
  - destruct (num_cache_misses s <? num_leaves * 2); [discriminate|].
    inversion H. subst s'. exact Hs.
  - destruct (num_cache_misses s <? num_leaves * 2);
      [|inversion H; subst s'; exact Hs].
    pose proof (SelectLeaves_body_losses o g root num_leaves s Hc Hs) as Hb.
    destruct (SelectLeaves_body o g root num_leaves s) as [s1|s1].
    + exact (IH s1 Hb H).
    + inversion H. subst s1. exact Hb.
Qed.

Lemma build_features_returns (t : Tree) (leaves : list Node)
    (syms : list Symmetry) :
  Forall (fun leaf => 0 < num_virtual_losses_applied t leaf) leaves ->
  exists fs, build_features t leaves syms = Ok fs.
Proof.
  intros H. revert syms. induction H as [|leaf leaves Hleaf _ IH]; intros syms.
  - exists []. reflexivity.
  - destruct syms as [|sym syms]; [exists []; reflexivity|].
    simpl. replace (0 <? num_virtual_losses_applied t leaf) with true
      by (symmetry; apply Z.ltb_lt; exact Hleaf).
    destruct (IH syms) as [rest Hrest]. rewrite Hrest. simpl.
    eexists. reflexivity.
Qed.

Lemma build_features_fails (t : Tree) (leaves : list Node)
    (syms : list Symmetry) :
  List.length syms = List.length leaves ->
  Exists (fun leaf => num_virtual_losses_applied t leaf <= 0) leaves ->
  build_features t leaves syms = CheckFailed.
Proof.
  intros Hlen H. revert syms Hlen.
  induction leaves as [|leaf leaves IH]; intros syms Hlen;
    [inversion H|].
  destruct syms as [|sym syms]; [discriminate|].
  simpl. destruct (0 <? num_virtual_losses_applied t leaf) eqn:E;
    [|reflexivity].
  apply Z.ltb_lt in E.
  inversion H as [? ? Hbad|? ? Hrest]; subst; [lia|].
  rewrite (IH Hrest syms) by (simpl in Hlen; lia). reflexivity.
Qed.

Lemma symmetries_drawn_length (random_sym : bool) (n : nat) (r : Rnd) :
  List.length (fst (if random_sym then draw_symmetries n r
                    else (repeat kIdentity n, r))) = n.
Proof.
  destruct random_sym; [apply draw_symmetries_length|apply repeat_length].
Qed.

Lemma ProcessLeaves_features (leaves : list Node) (random_sym : bool)
    (p : Player) :
  leaves <> [] ->
  match build_features (tree_ p) leaves
          (fst (if random_sym
                then draw_symmetries (List.length leaves) (rnd_ p)
                else (repeat kIdentity (List.length leaves), rnd_ p))) with
  | Ok _ => exists p', ProcessLeaves leaves random_sym p = Ok p'
  | CheckFailed => ProcessLeaves leaves random_sym p = CheckFailed
  | Undefined => ProcessLeaves leaves random_sym p = Undefined
  | OutOfFuel => ProcessLeaves leaves random_sym p = OutOfFuel
  end.
Proof.
  intros Hne. unfold ProcessLeaves.
  destruct leaves as [|leaf0 leaves0] eqn:El; [contradiction|].
  rewrite <- El in *. clear Hne.
  set (n := List.length leaves) in *.
  destruct (if random_sym then draw_symmetries n (rnd_ p)
            else (repeat kIdentity n, rnd_ p)) as [syms rnd].
  cbn [fst].
  destruct (build_features (tree_ p) leaves syms) as [fs| | |];
    try reflexivity.
  cbn [bind].
  destruct (RunMany fs (network_ p)) as [[out_at name] net].
  destruct (incorporate_leaves (options_ p) (root_ p) leaves syms
              (map out_at (seq 0 n)) (tree_ p, inference_cache_ p))
    as [t cache].
  eexists. reflexivity.
Qed.

(** With a virtual loss on every leaf the call returns. *)
Lemma ProcessLeaves_returns (leaves : list Node) (random_sym : bool)
    (p : Player) :
  Forall (fun leaf => 0 < num_virtual_losses_applied (tree_ p) leaf) leaves ->
  exists p', ProcessLeaves leaves random_sym p = Ok p'.
Proof.
  intros Hall.
  destruct leaves as [|leaf0 leaves0] eqn:El; [exists p; reflexivity|].
  rewrite <- El in *.
  assert (Hne : leaves <> []) by (rewrite El; discriminate).
  pose proof (ProcessLeaves_features leaves random_sym p Hne) as Hf.
  destruct (build_features_returns (tree_ p) leaves
              (fst (if random_sym
                    then draw_symmetries (List.length leaves) (rnd_ p)
                    else (repeat kIdentity (List.length leaves), rnd_ p)))
              Hall) as [fs Hfs].
  rewrite Hfs in Hf. exact Hf.
Qed.

(** X11.  [ProcessLeaves] either returns or dies in its [MG_CHECK], and it
    dies exactly when some leaf of the batch has no virtual loss applied;
    an empty batch always returns. *)
Theorem ProcessLeaves_check (leaves : list Node) (random_sym : bool)
    (p : Player) :
  (Forall (fun leaf => 0 < num_virtual_losses_applied (tree_ p) leaf) leaves
   /\ exists p', ProcessLeaves leaves random_sym p = Ok p')
  \/ (Exists (fun leaf => num_virtual_losses_applied (tree_ p) leaf <= 0)
             leaves
      /\ ProcessLeaves leaves random_sym p = CheckFailed).
Proof.
  destruct leaves as [|leaf0 leaves0] eqn:El.
  { left. split; [constructor|]. exists p. reflexivity. }
  rewrite <- El.
  assert (Hne : leaves <> []) by (rewrite El; discriminate).
  pose proof (ProcessLeaves_features leaves random_sym p Hne) as Hf.
  pose proof (symmetries_drawn_length random_sym (List.length leaves) (rnd_ p))
    as Hlen.
  set (syms := fst (if random_sym
                    then draw_symmetries (List.length leaves) (rnd_ p)
                    else (repeat kIdentity (List.length leaves), rnd_ p))) in *.
  assert (Hdec : Forall (fun leaf => 0 < num_virtual_losses_applied (tree_ p) leaf)
                        leaves
                 \/ Exists (fun leaf => num_virtual_losses_applied (tree_ p) leaf <= 0)
                           leaves).
  { clear. induction leaves as [|leaf leaves IH]; [left; constructor|].
    destruct (Z.lt_ge_cases 0 (num_virtual_losses_applied (tree_ p) leaf))
      as [Hpos|Hbad]; [|right; left; exact Hbad].
    destruct IH as [Hall|Hex]; [left; constructor; assumption|].
    right. right. exact Hex. }
  destruct Hdec as [Hall|Hex].
  - left. split; [exact Hall|].
    apply ProcessLeaves_returns. exact Hall.
  - right. split; [exact Hex|].
    rewrite (build_features_fails (tree_ p) leaves syms Hlen Hex) in Hf.
    exact Hf.
Qed.

(** X12.  When [MctsNode] keeps its count of virtual losses (no call that
    [SelectLeaves] makes lowers a count, and [AddVirtualLoss] raises that of
    its leaf) and no count is negative to begin with, the [MG_CHECK] of
    [ProcessLeaves] cannot fire inside [TreeSearch]: a round either returns
    or is still selecting.  Without a cache it returns within
    [2 * virtual_losses] passes of the selection loop. *)
Theorem TreeSearch_returns (fuel : nat) (p : Player) :
  virtual_loss_contract ->
  (forall n, 0 <= num_virtual_losses_applied (tree_ p) n) ->
  (TreeSearch fuel p = OutOfFuel \/ exists p', TreeSearch fuel p = Ok p')
  /\ (inference_cache_ p = None ->
      2 * virtual_losses (options_ p) <= Z.of_nat fuel ->
      exists p', TreeSearch fuel p = Ok p').
Proof.
  intros Hc Hnonneg.
  set (s0 := SelectLeaves_init [] p).
  assert (Hs0 : losses_applied (sel_tree s0) (sel_leaves s0))
    by (split; [exact Hnonneg|constructor]).
  assert (Hok : forall s,
            SelectLeaves_loop fuel (options_ p) (game_ p) (root_ p)
              (virtual_losses (options_ p)) s0 = Ok s ->
            exists p', TreeSearch fuel p = Ok p').
  { intros s Hloop.
    pose proof (SelectLeaves_loop_losses _ _ _ _ _ _ _ Hc Hs0 Hloop)
      as [_ Hpos].
    unfold TreeSearch, SelectLeaves. fold s0. rewrite Hloop. cbn [bind].
    set (p2 := set_leaves (sel_leaves s)
                 (set_cache (sel_cache s) (set_tree (sel_tree s) p))).
    apply ProcessLeaves_returns. exact Hpos. }
  assert (Hfuel : SelectLeaves_loop fuel (options_ p) (game_ p) (root_ p)
                    (virtual_losses (options_ p)) s0 = OutOfFuel ->
                  TreeSearch fuel p = OutOfFuel).
  { intros Hloop. unfold TreeSearch, SelectLeaves. fold s0.
    rewrite Hloop. reflexivity. }
  destruct (Z.le_gt_cases (virtual_losses (options_ p)) 0) as [Hzero|Hbatch].
  { assert (Hret : exists p', TreeSearch fuel p = Ok p')
      by (exists (set_leaves [] p); apply TreeSearch_no_leaves; exact Hzero).
    split; [right; exact Hret|intros _ _; exact Hret]. }
  assert (Hinit : selecting (virtual_losses (options_ p)) [] s0).
  { unfold selecting, s0, SelectLeaves_init, misses_in, hits_in. simpl.
    repeat split; lia. }
  assert (Hsel : num_selected s0 < virtual_losses (options_ p))
    by (simpl; lia).
  pose proof (SelectLeaves_loop_outcome (options_ p) (game_ p) (root_ p)
                (virtual_losses (options_ p)) [] fuel s0 Hinit Hsel) as Hout.
  split.
  - destruct Hout as [Hloop|[Hloop _]]; [right; exact (Hok _ Hloop)|].
    left. exact (Hfuel Hloop).
  - intros Hnone Henough.
    destruct Hout as [Hloop|(_ & Hp & Hlt & Hhits)]; [exact (Hok _ Hloop)|].
    exfalso. unfold passes_made in Hp. simpl in Hp, Hhits.
    specialize (Hhits Hnone). lia.
Qed.

End SearchProperties.

(* ===================================================================== *)
(** * Further properties of ProcessLeaves and of the inference records *)
(* ===================================================================== *)

Section BatchProperties.
Context {FM : FloatModel} {BD : Build} {TA : TreeAPI} {GA : GameAPI}
        {NA : NetAPI} {RA : RandomAPI}.

(** X13.  The observer sees every batch once.  After
    [SetTreeSearchCallback], a returning [ProcessLeaves] has shown the
    observer its batch, once, if a callback was given and the batch is not
    empty, and has shown it nothing otherwise; a returning [TreeSearch]
    likewise shows the leaves it selected.  Neither changes the
    registration. *)
Theorem ProcessLeaves_observer (cb : bool) (p : Player) :
  (forall leaves random_sym p',
      ProcessLeaves leaves random_sym (SetTreeSearchCallback cb p) = Ok p' ->
      cb_calls_ p'
      = cb_calls_ p
        ++ (if cb then match leaves with [] => [] | _ => [leaves] end else [])
      /\ tree_search_cb_ p' = cb)
  /\ (forall fuel p',
        TreeSearch fuel (SetTreeSearchCallback cb p) = Ok p' ->
        cb_calls_ p'
        = cb_calls_ p
          ++ (if cb
              then match tree_search_leaves_ p' with
                   | [] => []
                   | _ => [tree_search_leaves_ p']
                   end
              else [])
        /\ tree_search_cb_ p' = cb).
Proof.
  split.
  - intros leaves random_sym p' H.
    destruct (ProcessLeaves_writes _ _ _ _ H)
      as ((_ & _ & _ & _ & Hcb & _) & _ & _ & _ & Hcalls & _).
    split; [exact Hcalls|exact Hcb].
  - intros fuel p' H. unfold TreeSearch in H.
    set (q := SetTreeSearchCallback cb p) in *.
    destruct (SelectLeaves fuel (root_ q) (virtual_losses (options_ q)) [] q)
      as [[s q1]| | |] eqn:Es; simpl in H; try discriminate.
    destruct (SelectLeaves_writes _ _ _ _ _ _ _ Es) as [Hq1 _].
    destruct (ProcessLeaves_writes _ _ _ _ H)
      as ((_ & _ & _ & _ & Hcb & _) & _ & _ & Hleaves & Hcalls & _).
    cbn [tree_search_leaves_ set_leaves tree_search_cb_ cb_calls_] in *.
    rewrite Hleaves. subst q1. split; [exact Hcalls|exact Hcb].
Qed.

(** X14.  After a returning [ProcessLeaves] on a batch that is not empty,
    [symmetries_used_], [features_] and [outputs_] hold one entry per leaf.
    Without random symmetry every symmetry is the identity and the random
    generator is not touched; with it the generator has been asked once per
    leaf. *)
Theorem ProcessLeaves_scratch (leaves : list Node) (random_sym : bool)
    (p p' : Player) :
  leaves <> [] ->
  ProcessLeaves leaves random_sym p = Ok p' ->
  List.length (symmetries_used_ p') = List.length leaves
  /\ List.length (features_ p') = List.length leaves
  /\ List.length (outputs_ p') = List.length leaves
  /\ (random_sym = false ->
      rnd_ p' = rnd_ p
      /\ Forall (fun sym => sym = kIdentity) (symmetries_used_ p'))
  /\ (random_sym = true ->
      rnd_ p' = snd (draw_symmetries (List.length leaves) (rnd_ p))).
Proof.
  intros Hne H.
  destruct (ProcessLeaves_Ok _ _ _ _ Hne H)
    as (Hlen & Hid & Hfs & Houts & _).
  destruct (ProcessLeaves_writes _ _ _ _ H)
    as (_ & _ & _ & _ & _ & Hrnd0 & Hrnd1 & _).
  split; [exact Hlen|]. split.
  { rewrite Hfs, length_map, length_combine, Hlen. apply Nat.min_id. }
  split.
  { rewrite Houts, length_map, length_seq. reflexivity. }
  split; [|exact Hrnd1].
  intros Hno. split; [exact (Hrnd0 Hno)|].
  rewrite (Hid Hno). apply Forall_forall. intros sym Hin.
  exact (repeat_spec _ _ _ Hin).
Qed.

Lemma evaluations_app (l l' : list InferenceInfo) :
  evaluations (l ++ l') = evaluations l + evaluations l'.
Proof.
  unfold evaluations. induction l as [|r l IH]; simpl; [reflexivity|].
  rewrite IH. lia.
Qed.

Lemma record_inference_evaluations (name : string) (n batch : Z)
    (infs : list InferenceInfo) :
  inference_info_contract ->
  evaluations (record_inference name n batch infs)
  = evaluations infs + (if string_empty name then 0 else batch).
Proof.
  intros Hnew.
  destruct (string_empty name) eqn:En.
  { unfold record_inference. rewrite En. simpl. lia. }
  assert (Hname : name <> EmptyString).
  { intros E. rewrite E in En. discriminate. }
  destruct (Hnew name n) as (_ & _ & Hcount).
  destruct infs as [|r0 infs0] using rev_ind.
  - rewrite (record_inference_first _ _ _ Hname).
    unfold evaluations. simpl. rewrite Hcount. lia.
  - clear IHinfs0.
    destruct (String.eqb (model r0) name) eqn:Esame.
    + apply String.eqb_eq in Esame.
      rewrite (record_inference_same_model _ _ _ _ _ Hname Esame).
      rewrite !evaluations_app. unfold evaluations. simpl. lia.
    + apply String.eqb_neq in Esame.
      rewrite (record_inference_new_model _ _ _ _ _ Hname Esame).
      rewrite !evaluations_app. unfold evaluations. simpl.
      rewrite Hcount. lia.
Qed.

(** X15.  Every evaluated leaf is counted once.  If [InferenceInfo]'s
    constructor starts the count at zero, a returning [ProcessLeaves] raises
    the total of the counts over all records by the size of the batch when
    the network names its model, and leaves it when the name is empty. *)
Theorem ProcessLeaves_counts (leaves : list Node) (random_sym : bool)
    (p p' : Player) :
  inference_info_contract ->
  ProcessLeaves leaves random_sym p = Ok p' ->
  evaluations (inferences_ p')
  = evaluations (inferences_ p)
    + (if string_empty (inference_model_ p') then 0
       else Z.of_nat (List.length leaves)).
Proof.
  intros Hnew H.
  destruct leaves as [|leaf leaves'] eqn:El.
  - simpl in H. inversion H. subst p'.
    destruct (string_empty (inference_model_ p)); simpl; lia.
  - assert (Hne : leaf :: leaves' <> []) by discriminate.
    destruct (ProcessLeaves_Ok _ _ _ _ Hne H) as (_ & _ & _ & _ & _ & Hinf & _).
    rewrite Hinf. apply record_inference_evaluations. exact Hnew.
Qed.

(** ** The models of a move *)

Lemma back_rev {A : Type} (l : list A) : back (rev l) = hd_error l.
Proof.
  destruct l as [|x l]; [reflexivity|]. simpl. apply back_snoc.
Qed.

Lemma models_since_split (n : Z) (infs : list InferenceInfo) :
  exists taken rest,
    infs = taken ++ rest
    /\ models_since n infs = map model taken
    /\ Forall (fun r => n <= last_move r) taken
    /\ (forall r, hd_error rest = Some r -> last_move r < n).
Proof.
  induction infs as [|r infs IH].
  - exists [], []. repeat split; try constructor. intros r H. discriminate.
  - simpl. destruct (last_move r <? n) eqn:E.
    + exists [], (r :: infs). split; [reflexivity|]. split; [reflexivity|].
      split; [constructor|]. intros r' H. inversion H. subst r'.
      apply Z.ltb_lt. exact E.
    + destruct IH as (taken & rest & Hsplit & Hm & Hall & Hrest).
      exists (r :: taken), rest. split; [simpl; rewrite Hsplit; reflexivity|].
      split; [simpl; rewrite Hm; reflexivity|].
      split; [|exact Hrest].
      constructor; [apply Z.ltb_ge; exact E|exact Hall].
Qed.

(** X16.  The models that [UpdateGame] lists for a move are those of a
    final stretch of the records, in the order of the records: the longest
    stretch at the end in which every record was last used at the move
    number of the root or later.  The record before that stretch, if there
    is one, was last used at an earlier move. *)
Theorem models_used_suffix (p : Player) :
  let n := pos_n (node_position (tree_ p) (root_ p)) in
  exists older recent,
    inferences_ p = older ++ recent
    /\ models_used p = map model recent
    /\ Forall (fun r => n <= last_move r) recent
    /\ (forall r, back older = Some r -> last_move r < n).
Proof.
  intros n. unfold models_used. fold n.
  destruct (models_since_split n (rev (inferences_ p)))
    as (taken & rest & Hsplit & Hm & Hall & Hrest).
  exists (rev rest), (rev taken).
  split.
  { rewrite <- rev_app_distr, <- Hsplit, rev_involutive. reflexivity. }
  split; [rewrite Hm, map_rev; reflexivity|].
  split; [apply Forall_rev; exact Hall|].
  intros r Hr. rewrite back_rev in Hr. exact (Hrest r Hr).
Qed.

Lemma record_inference_back (name : string) (n batch : Z)
    (infs : list InferenceInfo) :
  inference_info_contract -> name <> EmptyString ->
  exists init r,
    record_inference name n batch infs = init ++ [r]
    /\ model r = name /\ last_move r = n.
Proof.
  intros Hnew Hname. destruct (Hnew name n) as (Hmodel & _ & _).
  destruct infs as [|r0 infs0] using rev_ind.
  - rewrite (record_inference_first _ _ _ Hname).
    exists [], (touch n batch (InferenceInfo_new name n)).
    split; [reflexivity|]. split; [exact Hmodel|reflexivity].
  - clear IHinfs0.
    destruct (String.eqb (model r0) name) eqn:Esame.
    + apply String.eqb_eq in Esame.
      rewrite (record_inference_same_model _ _ _ _ _ Hname Esame).
      exists infs0, (touch n batch r0).
      split; [reflexivity|]. split; [exact Esame|reflexivity].
    + apply String.eqb_neq in Esame.
      rewrite (record_inference_new_model _ _ _ _ _ Hname Esame).
      exists (infs0 ++ [r0]), (touch n batch (InferenceInfo_new name n)).
      split; [rewrite <- app_assoc; reflexivity|].
      split; [exact Hmodel|reflexivity].
Qed.

(** X17.  A move is credited with the model that served its search.  If
    [InferenceInfo]'s constructor stores the model's name, then after a
    returning [ProcessLeaves] on a batch that is not empty, served by a
    model with a name, and with the root still at the same move number, the
    last of the models that [UpdateGame] lists for the move is that
    model. *)
Theorem ProcessLeaves_model_listed (leaves : list Node) (random_sym : bool)
    (p p' : Player) :
  inference_info_contract ->
  leaves <> [] ->
  ProcessLeaves leaves random_sym p = Ok p' ->
  inference_model_ p' <> EmptyString ->
  pos_n (node_position (tree_ p') (root_ p'))
  = pos_n (node_position (tree_ p) (root_ p)) ->
  back (models_used p') = Some (inference_model_ p').
Proof.
  intros Hnew Hne H Hname Hn.
  destruct (ProcessLeaves_Ok _ _ _ _ Hne H) as (_ & _ & _ & _ & _ & Hinf & _).
  destruct (record_inference_back (inference_model_ p')
              (pos_n (node_position (tree_ p) (root_ p)))
              (Z.of_nat (List.length leaves)) (inferences_ p) Hnew Hname)
    as (init & r & Hrec & Hmodel & Hlast).
  unfold models_used. rewrite Hinf, Hrec, Hn, rev_app_distr. simpl.
  replace (last_move r <? pos_n (node_position (tree_ p) (root_ p)))
    with false by (symmetry; apply Z.ltb_ge; lia).
  simpl. rewrite back_snoc, Hmodel. reflexivity.
Qed.

(** ** GetModelsUsedForInference *)

Lemma append_not_empty (a b : string) :
  b <> EmptyString -> (a ++ b)%string <> EmptyString.
Proof.
  intros Hb. destruct a as [|ch a]; [exact Hb|discriminate].
Qed.

Lemma inference_part_not_empty (info : InferenceInfo) :
  inference_part info <> EmptyString.
Proof. unfold inference_part. apply append_not_empty. discriminate. Qed.

Lemma string_append_assoc (a b c : string) :
  ((a ++ b) ++ c)%string = (a ++ (b ++ c))%string.
Proof. induction a as [|ch a IH]; simpl; [reflexivity|rewrite IH; reflexivity]. Qed.

Lemma concat_snoc (sep : string) (l : list string) (x : string) :
  l <> [] ->
  String.concat sep (l ++ [x])
  = (String.concat sep l ++ sep ++ x)%string.
Proof.
  induction l as [|a l IH]; intros Hne; [contradiction|].
  destruct l as [|b l].
  - reflexivity.
  - change (String.concat sep ((a :: b :: l) ++ [x]))
      with (a ++ sep ++ String.concat sep ((b :: l) ++ [x]))%string.
    rewrite IH by discriminate.
    change (String.concat sep (a :: b :: l))
      with (a ++ sep ++ String.concat sep (b :: l))%string.
    rewrite !string_append_assoc. reflexivity.
Qed.

(** X18.  [GetModelsUsedForInference] is the empty string exactly when no
    inference has been recorded; and when a record is added behind others,
    the string grows at its end by a comma, a space and that record's
    [model(first_move,last_move)]. *)
Theorem GetModelsUsedForInference_grows (p : Player) :
  (GetModelsUsedForInference p = EmptyString <-> inferences_ p = [])
  /\ (forall p' r,
        inferences_ p <> [] ->
        inferences_ p' = inferences_ p ++ [r] ->
        GetModelsUsedForInference p'
        = (GetModelsUsedForInference p ++ ", " ++ inference_part r)%string).
Proof.
  unfold GetModelsUsedForInference. split.
  - split.
    + destruct (inferences_ p) as [|r [|r' infs]]; [reflexivity| |]; intros H;
        exfalso.
      * exact (inference_part_not_empty r H).
      * simpl in H. destruct (inference_part r) eqn:E;
          [exact (inference_part_not_empty r E)|discriminate].
    + intros ->. reflexivity.
  - intros p' r Hne Hp'. rewrite Hp', map_app. simpl.
    apply concat_snoc. destruct (inferences_ p); [contradiction|discriminate].
Qed.

End BatchProperties.

(* ===================================================================== *)
(** * Further properties of PlayMove, SuggestMove and PickMove *)
(* ===================================================================== *)

Section MoveProperties.
Context {FM : FloatModel} {BD : Build} {TA : TreeAPI} {GA : GameAPI}
        {NA : NetAPI} {RA : RandomAPI}.

Lemma end_of_game_keeps (p : Player) :
  root_ (end_of_game p) = root_ p /\ tree_ (end_of_game p) = tree_ p
  /\ log_ (end_of_game p) = log_ p.
Proof.
  unfold end_of_game. destruct (at_move_limit (root_ p) (tree_ p));
    [repeat split|].
  destruct (game_over (root_ p) (tree_ p)); repeat split.
Qed.

Lemma advance_root_log (c : Coord) (p : Player) :
  log_ (advance_root c p) = log_ p.
Proof.
  unfold advance_root. destruct (tree_reuse (options_ p)).
  - destruct (MaybeAddChild c (root_ p) (tree_ p)). reflexivity.
  - destruct (MaybeAddChild c (root_ p) (children_clear (tree_ p) (root_ p))).
    reflexivity.
Qed.

(** X19.  [PlayMove] returns true exactly when the position at the root
    is not finished ([root_->game_over()] is false) and the move is the
    resignation or is legal on that position.  Nothing else is asked: the
    game history is not read, so the answer is the same whatever marks it
    carries, and after a resignation, which marks the game as over, a
    further resignation or legal move is still accepted.  A call that
    returns true writes nothing to the error log.  A resignation, which is
    looked at before legality, only marks the game as won by the opponent
    of the side to move: the root pointer and the tree stay, and no move is
    added to the history. *)
Theorem PlayMove_outcome (c : Coord) (p : Player) :
  let position := node_position (tree_ p) (root_ p) in
  let p' := snd (PlayMove c p) in
  fst (PlayMove c p)
  = negb (game_over (root_ p) (tree_ p))
    && (Nat.eqb c kResign || legal_move position c)
  /\ (forall g : Game, fst (PlayMove c (set_game g p)) = fst (PlayMove c p))
  /\ (game_over (root_ p) (tree_ p) = false ->
      fst (PlayMove c (snd (PlayMove kResign p)))
      = (Nat.eqb c kResign || legal_move position c))
  /\ (fst (PlayMove c p) = true -> log_ p' = log_ p)
  /\ (game_over (root_ p) (tree_ p) = false -> c = kResign ->
      p' = set_game (SetGameOverBecauseOfResign
                       (OtherColor (to_play position)) (game_ p)) p).
Proof.
  intros position p'. subst p'.
  assert (Hfst : forall q : Player,
            root_ q = root_ p -> tree_ q = tree_ p ->
            fst (PlayMove c q)
            = negb (game_over (root_ p) (tree_ p))
              && (Nat.eqb c kResign || legal_move position c)).
  { intros q Hr Ht. unfold PlayMove, position. rewrite Hr, Ht.
    destruct (game_over (root_ p) (tree_ p)); [reflexivity|].
    destruct (Nat.eqb c kResign); [reflexivity|].
    destruct (legal_move (node_position (tree_ p) (root_ p)) c); reflexivity. }
  split; [apply Hfst; reflexivity|].
  split; [intros g; rewrite !Hfst; reflexivity|].
  split.
  { intros Hover. rewrite Hfst.
    - rewrite Hover. reflexivity.
    - unfold PlayMove. rewrite Hover, Nat.eqb_refl. reflexivity.
    - unfold PlayMove. rewrite Hover, Nat.eqb_refl. reflexivity. }
  unfold PlayMove. fold position.
  destruct (game_over (root_ p) (tree_ p)).
  { cbn. split; [discriminate|discriminate]. }
  destruct (Nat.eqb c kResign) eqn:Er.
  { cbn. repeat split. }
  destruct (legal_move position c); cbn [negb fst snd andb orb].
  - split.
    + intros _. destruct (end_of_game_keeps (advance_root c (UpdateGame c p)))
        as (_ & _ & Hlog).
      rewrite Hlog, advance_root_log. reflexivity.
    + intros _ Hc. apply Nat.eqb_neq in Er. contradiction.
  - split; [discriminate|].
    intros _ Hc. apply Nat.eqb_neq in Er. contradiction.
Qed.

(** X20.  A move can be taken back.  When [PlayMove] plays a legal move
    and the child it makes the root hangs under the old root (and is not
    the game root), [PlayMove] returns true and an [UndoMove] right after
    it returns true as well, with the root pointer back on the old root
    and the history told to undo one move. *)
Theorem PlayMove_then_UndoMove (c : Coord) (p : Player) :
  game_over (root_ p) (tree_ p) = false ->
  c <> kResign ->
  legal_move (node_position (tree_ p) (root_ p)) c = true ->
  child_linked c p ->
  let p1 := snd (PlayMove c p) in
  fst (PlayMove c p) = true
  /\ fst (UndoMove p1) = true
  /\ root_ (snd (UndoMove p1)) = root_ p
  /\ game_ (snd (UndoMove p1)) = Game_UndoMove (game_ p1).
Proof.
  intros Hover Hc Hlegal [Hparent Hchild] p1. subst p1.
  unfold PlayMove. apply Nat.eqb_neq in Hc. rewrite Hover, Hc, Hlegal.
  cbn [negb fst snd].
  set (q := advance_root c (UpdateGame c p)) in *.
  destruct (end_of_game_keeps q) as (Hr & Ht & _).
  split; [reflexivity|]. unfold UndoMove. rewrite Hr, Ht.
  destruct (node_eqb (root_ q) game_root_) eqn:E.
  { apply node_eqb_eq in E. contradiction. }
  cbn [fst snd]. split; [reflexivity|]. split; [exact Hparent|reflexivity].
Qed.

(** X21.  With nothing to do, [SuggestMove] does not search.  Without a
    time budget, on a root that is expanded already, with no noise and a
    request for no readouts, the call reads the clock once and answers
    from the tree as it stands: the resignation if [ShouldResign] holds,
    what [PickMove] picks otherwise.  No pass of any loop is needed. *)
Theorem SuggestMove_idle (rounds fuel : nat) (new_readouts : Z) (p : Player) :
  f_gt (seconds_per_move (options_ p)) f_zero = false ->
  HasFlag_kExpanded (root_ p) (tree_ p) = true ->
  new_readouts <= 0 ->
  let p0 := set_clock (snd (Now (clock_ p))) p in
  tree_ p0 = tree_ p
  /\ SuggestMove rounds fuel new_readouts false p
     = (if ShouldResign p0 then Ok (kResign, p0) else PickMove p0).
Proof.
  intros Hspm Hexp Hnew p0. split; [reflexivity|]. subst p0.
  unfold SuggestMove. destruct (Now (clock_ p)) as [start clk]. cbn [snd].
  unfold SuggestMove_prepare. cbn [root_ tree_ set_clock].
  rewrite Hexp. cbn [negb bind].
  unfold SuggestMove_search. cbn [options_ root_ tree_ set_clock].
  rewrite Hspm.
  assert (Hloop : search_until_readouts rounds fuel
                    (N (root_ p) (tree_ p) + new_readouts) (set_clock clk p)
                  = Ok (set_clock clk p)).
  { destruct rounds; simpl;
      replace (N (root_ p) (tree_ p) <? N (root_ p) (tree_ p) + new_readouts)
        with false by (symmetry; apply Z.ltb_ge; lia); reflexivity. }
  rewrite Hloop. reflexivity.
Qed.

(** X22.  What [SuggestMove] answers.  If [ShouldResign] holds of the
    player a returning call leaves, the answer is the resignation;
    otherwise the answer is what [PickMove] picked after the search.  When
    the game has resignation disabled, [ShouldResign] does not hold, so the
    answer is always a pick. *)
Theorem SuggestMove_answer (rounds fuel : nat) (new_readouts : Z)
    (inject : bool) (p : Player) (c : Coord) (p' : Player) :
  SuggestMove rounds fuel new_readouts inject p = Ok (c, p') ->
  (ShouldResign p' = true -> c = kResign)
  /\ (ShouldResign p' = false ->
      exists p2, search_frame p p2 /\ PickMove p2 = Ok (c, p'))
  /\ (resign_enabled (game_ p) = false -> ShouldResign p' = false).
Proof.
  intros H.
  unfold SuggestMove in H. destruct (Now (clock_ p)) as [start clk].
  destruct (set_clock_kept clk p) as [C1 _].
  destruct (SuggestMove_prepare fuel inject (set_clock clk p))
    as [p1| | |] eqn:Ep; simpl in H; try discriminate.
  destruct (SuggestMove_search rounds fuel start new_readouts p1)
    as [p2| | |] eqn:Es; simpl in H; try discriminate.
  destruct (SuggestMove_prepare_kept _ _ _ _ Ep) as [P1 _].
  destruct (SuggestMove_search_kept _ _ _ _ _ _ Es) as [S1 _].
  pose proof (search_frame_trans _ _ _ C1 (search_frame_trans _ _ _ P1 S1))
    as Hframe.
  assert (Hoff : resign_enabled (game_ p) = false -> ShouldResign p2 = false).
  { intros He. destruct Hframe as (_ & Hgame & _).
    unfold ShouldResign. rewrite Hgame, He. reflexivity. }
  destruct (ShouldResign p2) eqn:Eresign.
  - injection H as <- <-. split; [reflexivity|].
    split; [rewrite Eresign; discriminate|].
    intros He. rewrite Eresign. exact (Hoff He).
  - assert (Hsame : ShouldResign p' = false).
    { destruct (PickMove_kept _ _ _ H) as [(_ & Hgame & _) _].
      destruct (PickMove_keeps _ _ _ H) as [Htree Hroot].
      unfold ShouldResign in *. rewrite Hgame, Htree, Hroot. exact Eresign. }
    split; [rewrite Hsame; discriminate|].
    split; [intros _; exists p2; split; assumption|].
    intros _. exact Hsame.
Qed.

(** How the loop on the clock ends: with a reading at which the time was
    up, which is the last thing it did. *)
Lemma search_until_deadline_loop (rounds fuel : nat) (start : Time)
    (seconds : float) (p p' : Player) :
  search_until_deadline rounds fuel start seconds p = Ok p' ->
  deadline_loop fuel start seconds p p'.
Proof.
  revert p. induction rounds as [|rounds IH]; intros p H; simpl in H;
    destruct (Now (clock_ p)) as [now clk] eqn:En;
    destruct (elapsed_less start now seconds) eqn:Ee.
  - discriminate.
  - inversion H. replace clk with (snd (Now (clock_ p))) by (rewrite En; reflexivity).
    apply deadline_reached. rewrite En. exact Ee.
  - destruct (TreeSearch fuel (set_clock clk p)) as [p1| | |] eqn:Et;
      simpl in H; try discriminate.
    apply deadline_round with (p1 := p1).
    + rewrite En. exact Ee.
    + rewrite En. exact Et.
    + exact (IH p1 H).
  - inversion H. replace clk with (snd (Now (clock_ p))) by (rewrite En; reflexivity).
    apply deadline_reached. rewrite En. exact Ee.
Qed.

(** Every run of the loop is a run of the program, given rounds enough. *)
Lemma deadline_loop_returns (fuel : nat) (start : Time) (seconds : float)
    (p p' : Player) :
  deadline_loop fuel start seconds p p' ->
  exists rounds, search_until_deadline rounds fuel start seconds p = Ok p'.
Proof.
  induction 1 as [p He|p p1 p' He Ht _ [rounds IH]].
  - exists 0%nat. simpl. destruct (Now (clock_ p)) as [now clk].
    cbn [fst snd] in *. rewrite He. reflexivity.
  - exists (S rounds). simpl. destruct (Now (clock_ p)) as [now clk].
    cbn [fst snd] in *. rewrite He, Ht. simpl. exact IH.
Qed.

Lemma deadline_loop_ends (fuel : nat) (start : Time) (seconds : float)
    (p p' : Player) :
  deadline_loop fuel start seconds p p' ->
  exists q,
    elapsed_less start (fst (Now (clock_ q))) seconds = false
    /\ p' = set_clock (snd (Now (clock_ q))) q
    /\ search_frame p q.
Proof.
  induction 1 as [p He|p p1 p' He Ht _ (q & Hq1 & Hq2 & Hq3)].
  - exists p. split; [exact He|]. split; [reflexivity|apply search_frame_refl].
  - exists q. split; [exact Hq1|]. split; [exact Hq2|].
    destruct (set_clock_kept (snd (Now (clock_ p))) p) as [C1 _].
    destruct (TreeSearch_kept _ _ _ Ht) as [T1 _].
    exact (search_frame_trans _ _ _ C1 (search_frame_trans _ _ _ T1 Hq3)).
Qed.

(** X23.  With a time budget the number of readouts asked for plays no
    part: when [seconds_per_move > 0], [SuggestMove] does the same for any
    two values of [new_readouts].  And the search goes on exactly until the
    clock says so.  A returning call has prepared the root, fixed the budget
    ([seconds_per_move] when there is no time limit, and what
    [TimeRecommendation] gives for the root's move number otherwise), and
    run the loop from the prepared player: each [TreeSearch] after a clock
    reading within the budget, counted from the time taken on entry.  The
    loop's last step was a reading at which the budget was used up; the
    player it left is the one that was read, with the clock moved on, and
    it is from that very player that the answer is chosen: the resignation
    if [ShouldResign] says so, what [PickMove] returns otherwise. *)
Theorem SuggestMove_time_budget (rounds fuel : nat) (inject : bool)
    (p : Player) :
  f_gt (seconds_per_move (options_ p)) f_zero = true ->
  (forall new_readouts new_readouts',
      SuggestMove rounds fuel new_readouts inject p
      = SuggestMove rounds fuel new_readouts' inject p)
  /\ (forall new_readouts c p',
        SuggestMove rounds fuel new_readouts inject p = Ok (c, p') ->
        exists seconds p1 p2 q,
          SuggestMove_prepare fuel inject (set_clock (snd (Now (clock_ p))) p)
          = Ok p1
          /\ (if f_gt (time_limit (options_ p)) f_zero
              then TimeRecommendation
                     (pos_n (node_position (tree_ p1) (root_ p1)))
                     (seconds_per_move (options_ p))
                     (time_limit (options_ p))
                     (decay_factor (options_ p)) = Some seconds
              else seconds = seconds_per_move (options_ p))
          /\ deadline_loop fuel (fst (Now (clock_ p))) seconds p1 p2
          /\ elapsed_less (fst (Now (clock_ p))) (fst (Now (clock_ q))) seconds
             = false
          /\ p2 = set_clock (snd (Now (clock_ q))) q
          /\ search_frame p q
          /\ (if ShouldResign p2 then c = kResign /\ p' = p2
              else PickMove p2 = Ok (c, p'))).
Proof.
  intros Hspm.
  assert (Hsearch : forall start new_readouts p1,
            options_ p1 = options_ p ->
            SuggestMove_search rounds fuel start new_readouts p1
            = (seconds <- (if f_gt (time_limit (options_ p)) f_zero then
                             match TimeRecommendation
                                     (pos_n (node_position (tree_ p1) (root_ p1)))
                                     (seconds_per_move (options_ p))
                                     (time_limit (options_ p))
                                     (decay_factor (options_ p)) with
                             | Some s => Ok s
                             | None => Undefined
                             end
                           else Ok (seconds_per_move (options_ p))) ;;
               search_until_deadline rounds fuel start seconds p1)).
  { intros start new_readouts p1 Ho. unfold SuggestMove_search.
    rewrite Ho, Hspm. reflexivity. }
  assert (Hanswer : forall (p2 : Player) c p',
            (if ShouldResign p2 then Ok (kResign, p2) else PickMove p2)
            = Ok (c, p') ->
            if ShouldResign p2 then c = kResign /\ p' = p2
            else PickMove p2 = Ok (c, p')).
  { intros p2 c p' H. destruct (ShouldResign p2); [|exact H].
    injection H as <- <-. split; reflexivity. }
  split.
  - intros new_readouts new_readouts'. unfold SuggestMove.
    destruct (Now (clock_ p)) as [start clk].
    destruct (SuggestMove_prepare fuel inject (set_clock clk p))
      as [p1| | |] eqn:Ep; simpl; try reflexivity.
    destruct (SuggestMove_prepare_kept _ _ _ _ Ep) as [(_ & _ & Ho & _) _].
    rewrite !(Hsearch _ _ _ Ho). reflexivity.
  - intros new_readouts c p' H. unfold SuggestMove in H.
    destruct (Now (clock_ p)) as [start clk]. cbn [fst snd].
    destruct (set_clock_kept clk p) as [C1 _].
    destruct (SuggestMove_prepare fuel inject (set_clock clk p))
      as [p1| | |] eqn:Ep; simpl in H; try discriminate.
    destruct (SuggestMove_prepare_kept _ _ _ _ Ep) as [P1 _].
    pose proof P1 as (_ & _ & Ho & _).
    rewrite (Hsearch _ _ _ Ho) in H.
    destruct (f_gt (time_limit (options_ p)) f_zero) eqn:Etl.
    + destruct (TimeRecommendation _ _ _ _) as [seconds|] eqn:Etr;
        simpl in H; try discriminate.
      destruct (search_until_deadline rounds fuel start seconds p1)
        as [p2| | |] eqn:Es; simpl in H; try discriminate.
      pose proof (search_until_deadline_loop _ _ _ _ _ _ Es) as Hloop.
      destruct (deadline_loop_ends _ _ _ _ _ Hloop) as (q & Hq1 & Hq2 & Hq3).
      exists seconds, p1, p2, q.
      split; [reflexivity|]. split; [exact Etr|]. split; [exact Hloop|].
      split; [exact Hq1|]. split; [exact Hq2|].
      split; [|exact (Hanswer _ _ _ H)].
      exact (search_frame_trans _ _ _ C1 (search_frame_trans _ _ _ P1 Hq3)).
    + simpl in H.
      destruct (search_until_deadline rounds fuel start
                  (seconds_per_move (options_ p)) p1)
        as [p2| | |] eqn:Es; simpl in H; try discriminate.
      pose proof (search_until_deadline_loop _ _ _ _ _ _ Es) as Hloop.
      destruct (deadline_loop_ends _ _ _ _ _ Hloop) as (q & Hq1 & Hq2 & Hq3).
      exists (seconds_per_move (options_ p)), p1, p2, q.
      split; [reflexivity|]. split; [reflexivity|]. split; [exact Hloop|].
      split; [exact Hq1|]. split; [exact Hq2|].
      split; [|exact (Hanswer _ _ _ H)].
      exact (search_frame_trans _ _ _ C1 (search_frame_trans _ _ _ P1 Hq3)).
Qed.

(** X24.  [SuggestMove] does not move in the game: a returning call
    leaves the root pointer, the game history, the options, the temperature
    cutoff, the observer's registration and the error log as they were. *)
Theorem SuggestMove_frame (rounds fuel : nat) (new_readouts : Z)
    (inject : bool) (p : Player) (c : Coord) (p' : Player) :
  SuggestMove rounds fuel new_readouts inject p = Ok (c, p') ->
  search_frame p p'.
Proof.
  unfold SuggestMove. destruct (Now (clock_ p)) as [start clk].
  destruct (set_clock_kept clk p) as [C1 _].
  destruct (SuggestMove_prepare fuel inject (set_clock clk p))
    as [p1| | |] eqn:Ep; simpl; try discriminate.
  destruct (SuggestMove_search rounds fuel start new_readouts p1)
    as [p2| | |] eqn:Es; simpl; try discriminate.
  destruct (SuggestMove_prepare_kept _ _ _ _ Ep) as [P1 _].
  destruct (SuggestMove_search_kept _ _ _ _ _ _ Es) as [S1 _].
  pose proof (search_frame_trans _ _ _ C1 (search_frame_trans _ _ _ P1 S1))
    as H2.
  destruct (ShouldResign p2).
  - intros H. injection H as <- <-. exact H2.
  - intros H. destruct (PickMove_kept _ _ _ H) as [K1 _].
    exact (search_frame_trans _ _ _ H2 K1).
Qed.

(** X25.  What a returning [PickMove] has done.  From the cutoff on it
    answers the most visited move; before it, the pass when the cumulative
    weights end at zero; in both cases the player is untouched.  Otherwise
    it has drawn exactly one random number and answers the index that
    [SearchSorted] finds for it, which is a board cell or the pass and never
    the resignation; when assertions are compiled in, that move has a visit
    count other than zero. *)
Theorem PickMove_outcome (p : Player) (c : Coord) (p' : Player) :
  PickMove p = Ok (c, p') -> PickMove_post p c p'.
Proof.
  unfold PickMove, PickMove_post.
  destruct (temperature_cutoff_ p <=? pos_n (node_position (tree_ p) (root_ p)))
    eqn:Ecut.
  - intros H. injection H as <- <-. left. apply Z.leb_le in Ecut.
    split; [exact Ecut|]. split; reflexivity.
  - apply Z.leb_gt in Ecut.
    destruct (f_eqb (last (pick_cdf p) f_zero) f_zero) eqn:Ezero.
    + intros H. injection H as <- <-. right. left.
      split; [exact Ecut|]. split; [reflexivity|]. split; reflexivity.
    + destruct (rnd_uniform (rnd_ p)) as [e rnd]. cbn [fst snd].
      destruct (debug_build && _) eqn:Edbg; [discriminate|].
      intros H. injection H as <- <-. right. right.
      split; [exact Ecut|]. split; [reflexivity|]. split; [reflexivity|].
      split; [reflexivity|]. split.
      { unfold kPass. rewrite <- (pick_cdf_length p). apply SearchSorted_bound. }
      intros Hd. rewrite Hd in Edbg. exact Edbg.
Qed.

End MoveProperties.

(* ===================================================================== *)
(** * The statements on concrete players *)
(* ===================================================================== *)

Module Runs.
Import Examples.

Section Returned.
Context {FM : FloatModel} {BD : Build} {TA : TreeAPI} {GA : GameAPI}
        {NA : NetAPI} {RA : RandomAPI}.

(** A call that returned, returned [after] it. *)
Lemma returned_after {A : Type} (r : result (A * Player)) (p : Player) (a : A) :
  option_map fst (returned r) = Some a -> r = Ok (a, after r p).
Proof.
  destruct r as [[a' p']| | |]; simpl; try discriminate.
  intros H. inversion H. reflexivity.
Qed.

Lemma process_one_returned (p : Player) :
  is_ok (ProcessLeaves (tree_search_leaves_ p)
                       (random_symmetry (options_ p)) p) = true ->
  ProcessLeaves (tree_search_leaves_ p) (random_symmetry (options_ p)) p
  = Ok (process_one p).
Proof.
  unfold process_one.
  destruct (ProcessLeaves (tree_search_leaves_ p)
                          (random_symmetry (options_ p)) p);
    simpl; try discriminate.
  reflexivity.
Qed.

End Returned.

(** ** On the 2x2 board, with the constant network *)
Section ConstantNetwork.
#[local] Existing Instance binary32.
#[local] Existing Instance board2.
#[local] Existing Instance Fake.tree.
#[local] Existing Instance Fake.game.
#[local] Existing Instance Fake.random.
#[local] Existing Instance Examples.constant_net.





(** The run in numbers: the move 0 takes the root of a new player to
    node 2, and [UndoMove] takes it back to node 1, which has no child
    again, with an empty history. *)
Example UndoMove_run :
  root_ moved = 2%nat
  /\ List.length (Fake.fg_moves (game_ moved)) = 1%nat
  /\ Fake.fn_children (Fake.read (tree_ moved) 1) = [(0%nat, 2%nat)]
  /\ fst (UndoMove moved) = true
  /\ root_ (snd (UndoMove moved)) = 1%nat
  /\ List.length (Fake.fg_moves (game_ (snd (UndoMove moved)))) = 0%nat
  /\ Fake.fn_children (Fake.read (tree_ (snd (UndoMove moved))) 1) = [].
Proof. vm_compute. repeat split. Qed.

Lemma PlayMove_failure_witness :
  ((game_over (root_ fresh) (tree_ fresh) = true
    \/ (7%nat <> kResign
        /\ legal_move (node_position (tree_ fresh) (root_ fresh)) 7%nat
           = false))
   /\ rejected 7%nat fresh)
  /\ ((game_over (root_ passed) (tree_ passed) = true
       \/ (0%nat <> kResign
           /\ legal_move (node_position (tree_ passed) (root_ passed)) 0%nat
              = false))
      /\ rejected 0%nat passed).
Proof.
  split.
  - assert (H : game_over (root_ fresh) (tree_ fresh) = true
                \/ (7%nat <> kResign
                    /\ legal_move (node_position (tree_ fresh) (root_ fresh))
                         7%nat = false))
      by (right; split; [discriminate|reflexivity]).
    split; [exact H|].
    exact (PlayMove_failure 7%nat fresh H).
  - assert (H : game_over (root_ passed) (tree_ passed) = true
                \/ (0%nat <> kResign
                    /\ legal_move (node_position (tree_ passed) (root_ passed))
                         0%nat = false))
      by (left; vm_compute; reflexivity).
    split; [exact H|].
    exact (PlayMove_failure 0%nat passed H).
Defined.

(** The runs in numbers: move 7 is off the 2x2 board, and after a
    pass the game is over; both calls fail and only write to the log. *)
Example PlayMove_run :
  fst (PlayMove 7%nat fresh) = false
  /\ log_ (snd (PlayMove 7%nat fresh))
     = [LogIllegalMove 7; LogPlayerOptions; LogGameOptions]
  /\ fst (PlayMove 0%nat passed) = false
  /\ log_ (snd (PlayMove 0%nat passed)) = [LogGameIsOver 0].
Proof. vm_compute. repeat split. Qed.

(** C6 as stated fails: a new player resigns, which marks the game as over
    and won by white; the move 0 played after that is not refused: the call
    returns true, the root goes from node 1 to node 2 and the move enters
    the history of the finished game. *)
Lemma PlayMove_resigned_counterexample :
  fst (PlayMove kResign fresh) = true
  /\ match Fake.fg_over (game_ resigned) with
     | Fake.OverByResign kWhite => true
     | _ => false
     end = true
  /\ legal_move (node_position (tree_ resigned) (root_ resigned)) 0%nat = true
  /\ fst (PlayMove 0%nat resigned) = true
  /\ root_ resigned = 1%nat
  /\ root_ (snd (PlayMove 0%nat resigned)) = 2%nat
  /\ num_moves (game_ resigned) = 0%nat
  /\ num_moves (game_ (snd (PlayMove 0%nat resigned))) = 1%nat
  /\ ~ rejected 0%nat resigned.
Proof.
  assert (H : fst (PlayMove 0%nat resigned) = true) by (vm_compute; reflexivity).
  split; [vm_compute; reflexivity|]. split; [vm_compute; reflexivity|].
  split; [vm_compute; reflexivity|]. split; [exact H|].
  split; [vm_compute; reflexivity|]. split; [vm_compute; reflexivity|].
  split; [vm_compute; reflexivity|]. split; [vm_compute; reflexivity|].
  intros [Hfalse _]. rewrite H in Hfalse. discriminate.
Qed.

(** The run in numbers: three leaves are asked for; the loop makes
    four passes, on nodes 4, 5, 6 and 7; nodes 4, 5 and 7 are appended and
    receive a virtual loss each, node 6 is a finished game and is resolved
    on the spot; that makes four misses. *)
Example SelectLeaves_run :
  option_map (fun sp => (sel_leaves (fst sp),
                         map call_target (sel_calls (fst sp)),
                         virtual_loss_targets (sel_calls (fst sp)),
                         num_cache_misses (fst sp), num_cache_hits (fst sp)))
             (returned (SelectLeaves 8 (root_ searched) 3 [] searched))
  = Some ([4; 5; 7]%nat, [4; 5; 6; 7]%nat, [4; 5; 7]%nat, 4, 0).
Proof. vm_compute. reflexivity. Qed.

Lemma SuggestMove_readouts_witness :
  f_gt (seconds_per_move (options_ batched)) f_zero = false
  /\ SuggestMove 4 8 1 false batched = Ok (0%nat, searched)
  /\ readouts_added 8 1 false batched searched.
Proof.
  assert (H1 : f_gt (seconds_per_move (options_ batched)) f_zero = false)
    by reflexivity.
  assert (H2 : SuggestMove 4 8 1 false batched = Ok (0%nat, searched))
    by (apply (returned_after _ batched); vm_compute; reflexivity).
  split; [exact H1|]. split; [exact H2|].
  exact (SuggestMove_readouts 4 8 1 false batched 0%nat searched H1 H2).
Defined.

(** C2 as stated fails: with batches of two leaves and one extra readout
    asked for, the first call takes the root from 0 visits to 3 (one for
    the forced first round, then a round of two) and the second call from
    3 to 5; neither adds exactly one. *)
Lemma SuggestMove_exact_counterexample :
  virtual_losses (options_ batched) = 2
  /\ f_gt (seconds_per_move (options_ batched)) f_zero = false
  /\ N (root_ batched) (tree_ batched) = 0
  /\ option_map fst (returned (SuggestMove 4 8 1 false batched)) = Some 0%nat
  /\ N (root_ searched) (tree_ searched) = 3
  /\ option_map fst (returned (SuggestMove 4 8 1 false searched)) = Some 0%nat
  /\ N (root_ searched_twice) (tree_ searched_twice) = 5
  /\ N (root_ searched) (tree_ searched)
     <> N (root_ batched) (tree_ batched) + 1
  /\ N (root_ searched_twice) (tree_ searched_twice)
     <> N (root_ searched) (tree_ searched) + 1.
Proof. vm_compute. repeat split; discriminate. Qed.

Lemma ProcessLeaves_inferences_witness :
  ProcessLeaves [1%nat] false selected = Ok (process_one selected)
  /\ inferences_recorded [1%nat] selected (process_one selected).
Proof.
  assert (H : ProcessLeaves [1%nat] false selected = Ok (process_one selected))
    by (apply (process_one_returned selected); vm_compute; reflexivity).
  split; [exact H|].
  exact (ProcessLeaves_inferences [1%nat] false selected
           (process_one selected) H).
Defined.

(** The runs in numbers.  The first batch served by "m1" opens a
    record; the later batches of the same search extend it; a batch served
    by "m2" opens a second record behind it. *)
Example ProcessLeaves_inferences_run :
  inferences_ selected = []
  /\ inferences_ (process_one selected)
     = [{| model := "m1"; first_move := 0; last_move := 0; total_count := 1 |}]
  /\ inferences_ searched
     = [{| model := "m1"; first_move := 0; last_move := 0; total_count := 3 |}]
  /\ inferences_ (process_one reselected)
     = [{| model := "m1"; first_move := 0; last_move := 0; total_count := 3 |};
        {| model := "m2"; first_move := 0; last_move := 0; total_count := 1 |}].
Proof. vm_compute. repeat split. Qed.

(** C9 as stated fails: a network that names no model evaluates a batch of
    one leaf for a player without any record, and no record is appended. *)
Lemma ProcessLeaves_anonymous_counterexample :
  tree_search_leaves_ selected_anonymous = [1%nat]
  /\ inferences_ selected_anonymous = []
  /\ is_ok (ProcessLeaves [1%nat] false selected_anonymous) = true
  /\ List.length (outputs_ (process_one selected_anonymous)) = 1%nat
  /\ inference_model_ (process_one selected_anonymous) = EmptyString
  /\ inferences_ (process_one selected_anonymous) = [].
Proof. vm_compute. repeat split. Qed.

(** C3 as stated fails for a predictor that is not equivariant: the
    constant network emits the policy 1, 2, 3, 4 (and 1 for pass) on every
    input; the leaf's symmetry is a quarter turn, and what is written back
    to the leaf is 3, 1, 4, 2 (and 1 for pass). *)
Lemma ProcessLeaves_constant_counterexample :
  tree_search_leaves_ turned = [1%nat]
  /\ is_ok (ProcessLeaves [1%nat] true turned) = true
  /\ symmetries_used_ (process_one turned) = [Fake.Rot90]
  /\ policy (Fake.constant_prediction (raw_features (tree_ turned) 1%nat))
     = map Binary32.of_int [1; 2; 3; 4; 1]
  /\ Fake.fn_policy (Fake.read (tree_ (process_one turned)) 1)
     = map Binary32.of_int [3; 1; 4; 2; 1]
  /\ Fake.fn_policy (Fake.read (tree_ (process_one turned)) 1)
     <> policy (Fake.constant_prediction (raw_features (tree_ turned) 1%nat)).
Proof. vm_compute. repeat split; discriminate. Qed.

(** C8, where the code misses it.  [UpdateGame] divides by the total of
    the weights without testing it, although "pi" is meant to be a
    probability distribution and [PickMove] tests the same total before it
    samples.  A move played before any search finds every child of the root
    without visits; the weights add up to zero and every entry of what is
    forwarded to the game history is 0/0, not a number; so is their sum. *)
Lemma UpdateGame_unvisited :
  N (root_ fresh) (tree_ fresh) = 0
  /\ visit_weights fresh = repeat (S754_zero false) 5
  /\ search_pi fresh = repeat S754_nan 5
  /\ map Fake.mv_pi (Fake.fg_moves (game_ (UpdateGame 0%nat fresh)))
     = [repeat S754_nan 5]
  /\ sum_floats (search_pi fresh) = S754_nan
  /\ f_eqb (sum_floats (search_pi fresh)) f_one = false.
Proof. vm_compute. repeat split. Qed.

(** The run in numbers, with visits: for 1, 2, 3 and 1 visits on the four
    cells the weights add up to 7, and the entries forwarded in single
    precision, the nearest numbers to 1/7, 2/7, 3/7 and 1/7, add up to
    1 + 2^-23. *)
Example UpdateGame_rounding_run :
  visit_weights uneven = map Binary32.of_int [1; 2; 3; 1; 0]
  /\ sum_floats (visit_weights uneven) = Binary32.of_int 7
  /\ search_pi uneven
     = [Binary32.lit 9586981 (-26); Binary32.lit 9586981 (-25);
        Binary32.lit 14380471 (-25); Binary32.lit 9586981 (-26);
        S754_zero false]
  /\ sum_floats (search_pi uneven) = Binary32.lit 8388609 (-23)
  /\ f_eqb (sum_floats (search_pi uneven)) f_one = false.
Proof. vm_compute. repeat split. Qed.

End ConstantNetwork.

(** ** On the 2x2 board, with the network that follows its input *)
Section PlaneNetwork.
#[local] Existing Instance binary32.
#[local] Existing Instance board2.
#[local] Existing Instance Fake.tree.
#[local] Existing Instance Fake.game.
#[local] Existing Instance Fake.random.
#[local] Existing Instance Examples.plane_net.

Lemma plane_prediction_equivariant : equivariant Fake.plane_prediction.
Proof.
  intros sym features Hlen.
  destruct features as [|a [|b [|c [|d [|e features]]]]]; try discriminate.
  destruct sym; repeat split; reflexivity.
Qed.

Lemma fake_inverse_undoes : inverse_undoes.
Proof.
  intros sym board Hlen.
  destruct board as [|a [|b [|c [|d [|e board]]]]]; try discriminate.
  destruct sym; reflexivity.
Qed.

Lemma plane_net_evaluates (name : string) :
  evaluates_by Fake.plane_prediction name.
Proof. intros fs i Hi. reflexivity. Qed.

Lemma ProcessLeaves_undoes_symmetry_witness :
  [1%nat] <> []
  /\ ProcessLeaves [1%nat] true turned_plane = Ok (process_one turned_plane)
  /\ symmetry_undone [1%nat] turned_plane (process_one turned_plane)
  /\ written_back (symmetries_used_ (process_one turned_plane))
                  (outputs_ (process_one turned_plane))
     = [Fake.plane_prediction (raw_features (tree_ turned_plane) 1%nat)].
Proof.
  assert (H1 : [1%nat] <> []) by discriminate.
  assert (H2 : ProcessLeaves [1%nat] true turned_plane
               = Ok (process_one turned_plane))
    by (apply (process_one_returned turned_plane); vm_compute; reflexivity).
  pose proof (ProcessLeaves_undoes_symmetry [1%nat] true turned_plane
                (process_one turned_plane) H1 H2) as H.
  split; [exact H1|]. split; [exact H2|]. split; [exact H|].
  destruct H as (_ & _ & _ & Hround).
  apply (Hround Fake.plane_prediction plane_prediction_equivariant
           fake_inverse_undoes (plane_net_evaluates _)).
  intros leaf [<-|[]]. split; reflexivity.
Defined.

(** The run in numbers: the features 0, 1, 2, 3 of the root reach
    the network under a quarter turn as 1, 3, 0, 2; the network answers
    with that policy, and the leaf receives 0, 1, 2, 3 (and 1 for pass),
    which is what the network emits on the features as they were. *)
Example ProcessLeaves_undoes_symmetry_run :
  symmetries_used_ (process_one turned_plane) = [Fake.Rot90]
  /\ raw_features (tree_ turned_plane) 1%nat = map Binary32.of_int [0; 1; 2; 3]
  /\ features_ (process_one turned_plane) = [map Binary32.of_int [1; 3; 0; 2]]
  /\ map (@policy _) (outputs_ (process_one turned_plane))
     = [map Binary32.of_int [1; 3; 0; 2; 1]]
  /\ Fake.fn_policy (Fake.read (tree_ (process_one turned_plane)) 1)
     = map Binary32.of_int [0; 1; 2; 3; 1]
  /\ policy (Fake.plane_prediction (raw_features (tree_ turned_plane) 1%nat))
     = map Binary32.of_int [0; 1; 2; 3; 1].
Proof. vm_compute. repeat split. Qed.

End PlaneNetwork.

(** ** On the 5x5 board, with soft-pick *)
Section SoftPick.
#[local] Existing Instance binary32.
#[local] Existing Instance board2.
#[local] Existing Instance Fake.tree.
#[local] Existing Instance Fake.game.
#[local] Existing Instance Fake.random.
#[local] Existing Instance Examples.constant_net.

Lemma PickMove_spec_witness :
  (pos_n (node_position (tree_ soft_warm) (root_ soft_warm))
   < temperature_cutoff_ soft_warm
   /\ (forall i, (i < 5 * 5)%nat ->
         child_N (root_ soft_warm) (tree_ soft_warm) i = f_zero)
   /\ f_pow f_zero (policy_softmax_temp (options_ soft_warm)) = f_zero
   /\ PickMove (BD := board5) soft_warm = Ok (25%nat, soft_warm))
  /\ (temperature_cutoff_ fresh
      <= pos_n (node_position (tree_ fresh) (root_ fresh))
      /\ PickMove fresh = Ok (GetMostVisitedMove (root_ fresh) (tree_ fresh),
                              fresh)).
Proof.
  split.
  - assert (H1 : pos_n (node_position (tree_ soft_warm) (root_ soft_warm))
                 < temperature_cutoff_ soft_warm) by (vm_compute; reflexivity).
    assert (H2 : forall i, (i < 5 * 5)%nat ->
                 child_N (root_ soft_warm) (tree_ soft_warm) i = f_zero)
      by (intros i _; reflexivity).
    assert (H3 : f_pow f_zero (policy_softmax_temp (options_ soft_warm))
                 = f_zero) by reflexivity.
    split; [exact H1|]. split; [exact H2|]. split; [exact H3|].
    exact (proj1 (PickMove_spec (BD := board5) soft_warm) H1 H2 H3).
  - assert (H1 : temperature_cutoff_ fresh
                 <= pos_n (node_position (tree_ fresh) (root_ fresh)))
      by (vm_compute; discriminate).
    split; [exact H1|].
    exact (proj2 (PickMove_spec fresh) H1).
Defined.

(** C7, where the code misses it.  The test for "all reads into pass" is
    made on the cells' weights, not on their visit counts.  With a softmax
    temperature of zero every weight is zero to the power zero, which is
    one: with no visit on any cell the cumulative weights are 1, 2, ..., 25
    and not zero, so the pass that the source's comment promises for this
    case is not taken; [PickMove] draws a sample and lands on cell 0, which
    has no visits.  With assertions compiled in, the call dies in its own
    [MG_DCHECK(root_->child_N(c) != 0)]; without them it returns cell 0.
    Pass is cell 25. *)
Lemma PickMove_zero_temperature :
  pos_n (node_position (tree_ soft_cold) (root_ soft_cold))
  < temperature_cutoff_ soft_cold
  /\ map (child_N (root_ soft_cold) (tree_ soft_cold)) (seq 0 (5 * 5))
     = repeat (S754_zero false) 25
  /\ pick_cdf (BD := board5) soft_cold
     = map Binary32.of_int (map Z.of_nat (seq 1 25))
  /\ check_failed (PickMove (BD := board5) soft_cold) = true
  /\ option_map fst (returned (PickMove (BD := board5_release) soft_cold_release))
     = Some 0%nat
  /\ kPass (BD := board5) = 25%nat.
Proof. vm_compute. repeat split. Qed.

End SoftPick.

(** ** On the 2x2 board, in exact arithmetic *)
Section ExactArithmetic.
#[local] Existing Instance Examples.exact_first.
#[local] Existing Instance board2.
#[local] Existing Instance Fake.tree.
#[local] Existing Instance Fake.game.
#[local] Existing Instance Fake.random.
#[local] Existing Instance Examples.exact_net.

Lemma UpdateGame_search_pi_witness :
  sum_floats (visit_weights counted) <> Q2Qc 0
  /\ distribution_forwarded (pow := pow_first) 0%nat counted.
Proof.
  assert (H : sum_floats (visit_weights counted) <> Q2Qc 0).
  { intros E. apply (f_equal this) in E. vm_compute in E. discriminate E. }
  split; [exact H|].
  exact (UpdateGame_search_pi pow_first 0%nat counted H).
Defined.

(** The run in numbers: after four readouts the children of the
    root have 1, 1, 1, 0 and 0 visits; the distribution is a third for each
    of the first three moves. *)
Example UpdateGame_search_pi_run :
  map this (visit_weights counted) = [1; 1; 1; 0; 0]%Q
  /\ map this (search_pi counted) = [1 # 3; 1 # 3; 1 # 3; 0; 0]%Q
  /\ this (sum_floats (search_pi counted)) = 1%Q.
Proof. vm_compute. repeat split. Qed.

End ExactArithmetic.
(** ** TimeRecommendation, further *)
Section TimeBudget.

Lemma TimeRecommendation_same_turn_witness :
  0 <= 4
  /\ TimeRecommendation (FM := binary32) (2 * 4 + 1)
       (Binary32.of_int 1) (Binary32.of_int 4) f32_half
     = TimeRecommendation (FM := binary32) (2 * 4)
         (Binary32.of_int 1) (Binary32.of_int 4) f32_half.
Proof.
  split; [lia|].
  apply (TimeRecommendation_same_turn binary32 4
           (Binary32.of_int 1) (Binary32.of_int 4) f32_half).
  lia.
Defined.

(** The run in numbers: with one second per move, four seconds in all
    and a decay of one half there are two core moves; the moves 8 and 9 of
    the game are the player's move 4, and both get a quarter of a second. *)
Example TimeRecommendation_same_turn_run :
  TimeRecommendation (FM := binary32) 8
    (Binary32.of_int 1) (Binary32.of_int 4) f32_half
  = Some (Binary32.lit 1 (-2))
  /\ TimeRecommendation (FM := binary32) 9
       (Binary32.of_int 1) (Binary32.of_int 4) f32_half
     = Some (Binary32.lit 1 (-2)).
Proof. vm_compute. split; reflexivity. Qed.

Lemma TimeRecommendation_core_phase_witness :
  f_gt (FloatModel := binary32)
       (endgame_time (Binary32.of_int 1) f32_0_98) (Binary32.of_int 100) = false
  /\ f_to_int (FloatModel := binary32)
       (core_quotient (Binary32.of_int 1) (Binary32.of_int 100) f32_0_98)
     = Some 49
  /\ in_int_range (Z.quot 98 2 - 49) = true
  /\ Z.quot 98 2 <= 49
  /\ TimeRecommendation (FM := binary32) 98
       (Binary32.of_int 1) (Binary32.of_int 100) f32_0_98
     = Some (decayed (FM := binary32) (Binary32.of_int 1) f32_0_98 0)
  /\ decayed (FM := binary32) (Binary32.of_int 1) f32_0_98 0
     = Binary32.of_int 1.
Proof.
  assert (H1 : f_gt (FloatModel := binary32)
                 (endgame_time (Binary32.of_int 1) f32_0_98)
                 (Binary32.of_int 100) = false) by (vm_compute; reflexivity).
  assert (H2 : f_to_int (FloatModel := binary32)
                 (core_quotient (Binary32.of_int 1) (Binary32.of_int 100)
                                f32_0_98) = Some 49)
    by (vm_compute; reflexivity).
  assert (H3 : in_int_range (Z.quot 98 2 - 49) = true)
    by (vm_compute; reflexivity).
  assert (H4 : Z.quot 98 2 <= 49) by (vm_compute; discriminate).
  split; [exact H1|]. split; [exact H2|]. split; [exact H3|].
  split; [exact H4|]. split; [|vm_compute; reflexivity].
  exact (proj1 TimeRecommendation_core_phase binary32 98
           (Binary32.of_int 1) (Binary32.of_int 100) f32_0_98 49
           H1 H2 H3 H4).
Defined.

End TimeBudget.

(** ** What the fake tree keeps *)
Section FakeContracts.
Context {FM : FloatModel} {BD : Build}.

Lemma fake_losses_write (f : Fake.FakeNode -> Fake.FakeNode) (t : Fake.Heap)
    (node n : nat) :
  (forall v, Fake.fn_losses v <= Fake.fn_losses (f v)) ->
  Fake.fn_losses (Fake.read t n)
  <= Fake.fn_losses (Fake.read (Fake.write t node (f (Fake.read t node))) n).
Proof.
  intros Hf. simpl. destruct (Nat.eqb n node) eqn:E; [|lia].
  apply Nat.eqb_eq in E. subst n. apply Hf.
Qed.

Lemma fake_losses_along_path (depth : nat)
    (f : Fake.FakeNode -> Fake.FakeNode) (up_to node : nat) (t : Fake.Heap)
    (n : nat) :
  (forall v, Fake.fn_losses v <= Fake.fn_losses (f v)) ->
  Fake.fn_losses (Fake.read t n)
  <= Fake.fn_losses (Fake.read (Fake.along_path depth f up_to node t) n).
Proof.
  intros Hf. revert node t.
  induction depth as [|depth IH]; intros node t; cbn [Fake.along_path].
  - apply fake_losses_write. exact Hf.
  - destruct (Nat.eqb node up_to || Nat.eqb (Fake.fn_parent (Fake.read t node)) 0).
    + apply fake_losses_write. exact Hf.
    + etransitivity; [apply (fake_losses_write f t node n Hf)|apply IH].
Qed.

Lemma fake_losses_leaf (depth : nat) (up_to leaf : nat) (t : Fake.Heap) :
  Fake.fn_losses (Fake.read t leaf) + 1
  <= Fake.fn_losses
       (Fake.read (Fake.along_path depth (Fake.with_loss 1) up_to leaf t) leaf).
Proof.
  assert (Hf : forall v, Fake.fn_losses v
                         <= Fake.fn_losses (Fake.with_loss 1 v))
    by (intros v; simpl; lia).
  assert (Hw : Fake.fn_losses (Fake.read t leaf) + 1
               <= Fake.fn_losses
                    (Fake.read (Fake.write t leaf
                                  (Fake.with_loss 1 (Fake.read t leaf))) leaf)).
  { rewrite Fake.read_write. simpl. lia. }
  destruct depth as [|depth]; cbn [Fake.along_path]; [exact Hw|].
  destruct (Nat.eqb leaf up_to || Nat.eqb (Fake.fn_parent (Fake.read t leaf)) 0);
    [exact Hw|].
  etransitivity; [exact Hw|].
  apply fake_losses_along_path. exact Hf.
Qed.

Lemma fake_fresh_address_above (t : Fake.Heap) (k : nat) (v : Fake.FakeNode) :
  In (k, v) t -> (k < Fake.fresh_address t)%nat.
Proof.
  unfold Fake.fresh_address. induction t as [|[k' v'] t IH]; intros Hin;
    [contradiction|].
  simpl. destruct Hin as [E|Hin].
  - inversion E. subst. lia.
  - specialize (IH Hin). lia.
Qed.

Lemma fake_read_unbound (t : Fake.Heap) (a : nat) :
  (forall k v, In (k, v) t -> (k < a)%nat) ->
  Fake.read t a = Fake.fresh_node 0 0 0.
Proof.
  induction t as [|[k v] t IH]; intros H; [reflexivity|].
  simpl. assert (Hk : (k < a)%nat) by (apply (H k v); left; reflexivity).
  replace (Nat.eqb a k) with false by (symmetry; apply Nat.eqb_neq; lia).
  apply IH. intros k' v' Hin. apply (H k' v'). right. exact Hin.
Qed.

Lemma fake_losses_child (c : Coord) (node : nat) (t : Fake.Heap) (n : nat) :
  Fake.fn_losses (Fake.read t n)
  <= Fake.fn_losses (Fake.read (snd (Fake.maybe_add_child c node t)) n).
Proof.
  unfold Fake.maybe_add_child.
  destruct (Fake.child_of (Fake.fn_children (Fake.read t node)) c);
    cbn [snd]; [lia|].
  simpl. destruct (Nat.eqb n node) eqn:En.
  - apply Nat.eqb_eq in En. subst n. simpl. lia.
  - destruct (Nat.eqb n (Fake.fresh_address t)) eqn:Ea; [|lia].
    apply Nat.eqb_eq in Ea. subst n.
    rewrite (fake_read_unbound t (Fake.fresh_address t)
               (fake_fresh_address_above t)).
    simpl. lia.
Qed.

Lemma fake_losses_select (depth : nat) (node : nat) (t : Fake.Heap) (n : nat) :
  Fake.fn_losses (Fake.read t n)
  <= Fake.fn_losses (Fake.read (snd (Fake.select_leaf depth node t)) n).
Proof.
  revert node t. induction depth as [|depth IH]; intros node t;
    cbn [Fake.select_leaf]; [cbn [snd]; lia|].
  destruct (negb (Fake.fn_expanded (Fake.read t node))
            || Fake.fake_game_over node t || Fake.fake_at_move_limit node t);
    [cbn [snd]; lia|].
  pose proof (fake_losses_child
                (Fake.least_busy (Fake.read t node) t 0 (kN * kN)) node t n)
    as Hchild.
  destruct (Fake.maybe_add_child
              (Fake.least_busy (Fake.read t node) t 0 (kN * kN)) node t)
    as [child t'].
  cbn [snd] in Hchild. etransitivity; [exact Hchild|apply IH].
Qed.

(** The fake tree keeps its counts of virtual losses. *)
Lemma fake_virtual_loss_contract :
  virtual_loss_contract (TA := Fake.tree).
Proof.
  assert (Hvisit : forall v : Fake.FakeNode,
            Fake.fn_losses v <= Fake.fn_losses (Fake.with_visit v))
    by (intros v; simpl; lia).
  assert (Hloss : forall v : Fake.FakeNode,
            Fake.fn_losses v <= Fake.fn_losses (Fake.with_loss 1 v))
    by (intros v; simpl; lia).
  unfold virtual_loss_contract. split; [|split; [|split; [|split]]].
  - intros root t n. apply fake_losses_select.
  - intros v root leaf t n. apply fake_losses_along_path. exact Hvisit.
  - intros penalty pol v root leaf t n.
    apply (Z.le_trans _
             (Fake.fn_losses
                (Fake.read (Fake.write t leaf
                              (Fake.with_result pol v (Fake.read t leaf))) n))).
    + apply (fake_losses_write (Fake.with_result pol v) t leaf n).
      intros w. simpl. lia.
    + apply (fake_losses_along_path Fake.max_depth Fake.with_visit root leaf
               _ n Hvisit).
  - intros root leaf t n. apply fake_losses_along_path. exact Hloss.
  - intros root leaf t. apply fake_losses_leaf.
Qed.

(** The network of the fake makes its records as assumed. *)
Lemma fake_inference_info_contract (predict : list float -> Output) :
  inference_info_contract (NA := Fake.net predict).
Proof. intros name n. repeat split. Qed.

End FakeContracts.

(** ** The further properties on the 2x2 board *)
Section Further.
#[local] Existing Instance binary32.
#[local] Existing Instance board2.
#[local] Existing Instance Fake.tree.
#[local] Existing Instance Fake.game.
#[local] Existing Instance Fake.random.
#[local] Existing Instance Fake.start.
#[local] Existing Instance Examples.constant_net.

Lemma SelectLeaves_spec_witness :
  1 <= 8
  /\ SelectLeaves_post 40 (root_ searched) 8 [] searched
  /\ let s := SelectLeaves_after 40 (options_ searched) (game_ searched)
                (root_ searched) 8 (SelectLeaves_init [] searched) in
     forall n,
       num_virtual_losses_applied (tree_ searched) n
       + occurrences n (virtual_loss_targets (sel_calls s))
       <= num_virtual_losses_applied (sel_tree s) n.
Proof.
  assert (H : 1 <= 8) by lia.
  pose proof (SelectLeaves_spec 40 (root_ searched) 8 [] searched H) as Hpost.
  split; [exact H|]. split; [exact Hpost|].
  destruct Hpost as (_ & _ & _ & _ & _ & _ & _ & _ & Hcount).
  exact (Hcount fake_virtual_loss_contract).
Defined.

(** C1 as stated fails: asked for eight leaves below the root of
    [searched], where no node has a virtual loss, the call returns with the
    nodes 4, 5, 7, 8, 4, 5, 9 and 10 appended, in this order.  The nodes 4
    and 5 are appended twice and have two virtual losses afterwards, not
    exactly one; and the nodes 2 and 3, on the way from the root to these
    leaves, are not appended and have two virtual losses as well. *)
Lemma SelectLeaves_repeated_counterexample :
  is_ok (SelectLeaves 40 (root_ searched) 8 [] searched) = true
  /\ crowded_leaves = [4; 5; 7; 8; 4; 5; 9; 10]%nat
  /\ map (num_virtual_losses_applied (tree_ searched))
         [2; 3; 4; 5; 7; 8; 9; 10]%nat
     = [0; 0; 0; 0; 0; 0; 0; 0]
  /\ map (num_virtual_losses_applied (tree_ crowded)) crowded_leaves
     = [2; 2; 1; 1; 2; 2; 1; 1]
  /\ map (num_virtual_losses_applied (tree_ crowded)) [2; 3]%nat = [2; 2]
  /\ ~ (forall leaf, In leaf crowded_leaves ->
          num_virtual_losses_applied (tree_ crowded) leaf
          = num_virtual_losses_applied (tree_ searched) leaf + 1).
Proof.
  assert (H4 : num_virtual_losses_applied (tree_ crowded) 4%nat
               = num_virtual_losses_applied (tree_ searched) 4%nat + 2)
    by (vm_compute; reflexivity).
  assert (Hin : In 4%nat crowded_leaves) by (vm_compute; left; reflexivity).
  split; [vm_compute; reflexivity|]. split; [vm_compute; reflexivity|].
  split; [vm_compute; reflexivity|]. split; [vm_compute; reflexivity|].
  split; [vm_compute; reflexivity|].
  intros Hone. specialize (Hone 4%nat Hin). lia.
Qed.

Lemma result_or_returned (r : result Player) (d : Player) :
  is_ok r = true -> r = Ok (result_or r d).
Proof. destruct r; simpl; try discriminate. reflexivity. Qed.

Lemma MctsPlayer_new_cutoff_witness :
  temperature_cutoff_ (built_soft board19) = 30
  /\ temperature_cutoff_ (built_soft board9) = 6.
Proof.
  split.
  - destruct (MctsPlayer_new_cutoff (BD := board19)
                (TA := @Fake.tree binary32 board19)
                (GA := @Fake.game binary32 board19)
                (NA := @Fake.net binary32 board19
                         (@Fake.constant_prediction binary32 board19))
                (SA := @Fake.start binary32 board19)
                "m1"%string None Fake.new_game
                (options32 8 true false true (Binary32.of_int 1) 0) [] 0)
      as [[H _]|(_ & _ & _ & H19 & _)]; [discriminate H|].
    exact (H19 eq_refl).
  - destruct (MctsPlayer_new_cutoff (BD := board9)
                (TA := @Fake.tree binary32 board9)
                (GA := @Fake.game binary32 board9)
                (NA := @Fake.net binary32 board9
                         (@Fake.constant_prediction binary32 board9))
                (SA := @Fake.start binary32 board9)
                "m1"%string None Fake.new_game
                (options32 8 true false true (Binary32.of_int 1) 0) [] 0)
      as [[H _]|(_ & _ & _ & _ & H9)]; [discriminate H|].
    exact (H9 eq_refl).
Defined.

(** The run in numbers: a new game on a searched player puts the
    root back on node 1 with no visit, empties the history and keeps the one
    record of model "m1". *)
Example InitializeGame_run :
  root_ renewed = 1%nat
  /\ N (root_ renewed) (tree_ renewed) = 0
  /\ N (root_ searched) (tree_ searched) = 3
  /\ num_moves (game_ renewed) = 0%nat
  /\ fst (UndoMove renewed) = false
  /\ inferences_ renewed
     = [{| model := "m1"; first_move := 0; last_move := 0; total_count := 3 |}]
  /\ GetModelsUsedForInference renewed = "m1(0,0)"%string.
Proof. vm_compute. repeat split. Qed.

Lemma NewGame_keeps_models_witness :
  pos_n (node_position (tree_ (NewGame searched)) (root_ (NewGame searched))) = 0
  /\ Forall (fun r => 0 <= last_move r) (inferences_ searched)
  /\ models_used (NewGame searched) = map model (inferences_ searched)
  /\ map model (inferences_ searched) = ["m1"%string].
Proof.
  assert (H1 : pos_n (node_position (tree_ (NewGame searched))
                        (root_ (NewGame searched))) = 0)
    by (vm_compute; reflexivity).
  assert (H2 : Forall (fun r => 0 <= last_move r) (inferences_ searched)).
  { replace (inferences_ searched)
      with [{| model := "m1"; first_move := 0; last_move := 0;
               total_count := 3 |}] by (vm_compute; reflexivity).
    repeat constructor. simpl. lia. }
  split; [exact H1|]. split; [exact H2|].
  split; [exact (NewGame_keeps_models searched H1 H2)|].
  vm_compute. reflexivity.
Defined.

Lemma built_moved_reachable : reachable built built_moved.
Proof.
  assert (H : SuggestMove 4 8 1 false built = Ok (0%nat, built_searched))
    by (apply (returned_after _ built); vm_compute; reflexivity).
  apply (@reachable_call _ _ _ _ _ _ _ built built_searched built_moved).
  - apply (@reachable_call _ _ _ _ _ _ _ built built built_searched);
      [apply reachable_start|].
    exact (returns_SuggestMove 4 8 1 false built H).
  - exact (returns_PlayMove 0%nat built_searched).
Qed.

Lemma MctsPlayer_configuration_witness :
  reachable built built_moved
  /\ soft_pick (options32 2 false false true (Binary32.of_int 1) 0) = false
  /\ -1 <= pos_n (node_position (tree_ built_moved) (root_ built_moved))
  /\ options_ built_moved = options32 2 false false true (Binary32.of_int 1) 0
  /\ temperature_cutoff_ built_moved = -1
  /\ cache_present built_moved = false
  /\ PickMove built_moved
     = Ok (GetMostVisitedMove (root_ built_moved) (tree_ built_moved),
           built_moved).
Proof.
  pose proof built_moved_reachable as Hr.
  assert (Hsoft : soft_pick (options32 2 false false true (Binary32.of_int 1) 0)
                  = false) by reflexivity.
  assert (Hn : -1 <= pos_n (node_position (tree_ built_moved)
                                          (root_ built_moved)))
    by (vm_compute; discriminate).
  destruct (MctsPlayer_configuration (FM := binary32) (BD := board2)
              (TA := Fake.tree) (GA := Fake.game)
              (NA := Examples.constant_net) (RA := Fake.random)
              (SA := Fake.start)
              "m1"%string None Fake.new_game
              (options32 2 false false true (Binary32.of_int 1) 0) [] 0
              built_moved Hr) as (Ho & Ht & Hc & Hpick).
  split; [exact Hr|]. split; [exact Hsoft|]. split; [exact Hn|].
  split; [exact Ho|]. split; [exact Ht|]. split; [exact Hc|].
  exact (Hpick Hsoft Hn).
Defined.

Lemma MctsPlayer_inferences_witness :
  inference_info_contract
  /\ reachable built built_moved
  /\ inferences_well_formed (inferences_ built_moved).
Proof.
  pose proof (fake_inference_info_contract Fake.constant_prediction) as Hc.
  pose proof built_moved_reachable as Hr.
  split; [exact Hc|]. split; [exact Hr|].
  exact (MctsPlayer_inferences (FM := binary32) (BD := board2)
              (TA := Fake.tree) (GA := Fake.game)
              (NA := Examples.constant_net) (RA := Fake.random)
              (SA := Fake.start)
           "m1"%string None Fake.new_game
           (options32 2 false false true (Binary32.of_int 1) 0) [] 0
           built_moved Hc Hr).
Defined.

(** The run in numbers: the constructed player has searched three
    readouts under model "m1" and played move 0; its one record counts
    them. *)
Example MctsPlayer_run :
  root_ built = 1%nat /\ root_ built_moved = 2%nat
  /\ num_moves (game_ built_moved) = 1%nat
  /\ inferences_ built_moved
     = [{| model := "m1"; first_move := 0; last_move := 0; total_count := 3 |}].
Proof. vm_compute. repeat split. Qed.

Lemma TreeSearch_zero_batch_witness :
  virtual_losses (options_ stalled) <= 0
  /\ f_gt (seconds_per_move (options_ stalled)) f_zero = false
  /\ HasFlag_kExpanded (root_ stalled) (tree_ stalled) = true
  /\ 0 < 1
  /\ TreeSearch 5 stalled = Ok (set_leaves [] stalled)
  /\ SuggestMove 3 5 1 false stalled = OutOfFuel.
Proof.
  assert (H1 : virtual_losses (options_ stalled) <= 0)
    by (vm_compute; discriminate).
  assert (H2 : f_gt (seconds_per_move (options_ stalled)) f_zero = false)
    by reflexivity.
  assert (H3 : HasFlag_kExpanded (root_ stalled) (tree_ stalled) = true)
    by (vm_compute; reflexivity).
  assert (H4 : 0 < 1) by lia.
  destruct (TreeSearch_zero_batch stalled H1) as (Ht & _ & Hs).
  split; [exact H1|]. split; [exact H2|]. split; [exact H3|].
  split; [exact H4|]. split; [exact (Ht 5%nat)|].
  exact (Hs 3%nat 5%nat 1 H2 H3 H4).
Defined.

Lemma SelectLeaves_root_leaf_witness :
  1 <= 3
  /\ SelectLeaf (root_ fresh) (tree_ fresh) = (root_ fresh, tree_ fresh)
  /\ game_over (root_ fresh) (tree_ fresh) = false
  /\ at_move_limit (root_ fresh) (tree_ fresh) = false
  /\ inference_cache_ fresh = None
  /\ exists s p',
       SelectLeaves 3 (root_ fresh) 3 [] fresh = Ok (s, p')
       /\ sel_leaves s = [] ++ [root_ fresh]
       /\ sel_calls s = [VirtualLoss (root_ fresh)]
       /\ tree_ p' = AddVirtualLoss (root_ fresh) (root_ fresh) (tree_ fresh).
Proof.
  assert (H1 : 1 <= 3) by lia.
  assert (H2 : SelectLeaf (root_ fresh) (tree_ fresh)
               = (root_ fresh, tree_ fresh)) by reflexivity.
  assert (H3 : game_over (root_ fresh) (tree_ fresh) = false) by reflexivity.
  assert (H4 : at_move_limit (root_ fresh) (tree_ fresh) = false)
    by reflexivity.
  assert (H5 : inference_cache_ fresh = None) by reflexivity.
  split; [exact H1|]. split; [exact H2|]. split; [exact H3|].
  split; [exact H4|]. split; [exact H5|].
  apply (SelectLeaves_root_leaf 2 (root_ fresh) 3 [] fresh (tree_ fresh)
           H1 H2 H3 H4).
  intros cache Hcache. rewrite H5 in Hcache. discriminate Hcache.
Defined.

(** The run in numbers: a batch whose leaf has no virtual loss kills
    the call; after [SelectLeaves] has given it one, the call returns. *)
Example ProcessLeaves_check_run :
  num_virtual_losses_applied (tree_ fresh) 1%nat = 0
  /\ check_failed (ProcessLeaves [1%nat] false fresh) = true
  /\ num_virtual_losses_applied (tree_ selected) 1%nat = 1
  /\ is_ok (ProcessLeaves [1%nat] false selected) = true
  /\ is_ok (ProcessLeaves [] false fresh) = true.
Proof. vm_compute. repeat split. Qed.

Lemma TreeSearch_returns_witness :
  virtual_loss_contract
  /\ (forall n, 0 <= num_virtual_losses_applied (tree_ fresh) n)
  /\ inference_cache_ fresh = None
  /\ 2 * virtual_losses (options_ fresh) <= Z.of_nat 2
  /\ exists p', TreeSearch 2 fresh = Ok p'.
Proof.
  pose proof (fake_virtual_loss_contract (FM := binary32) (BD := board2))
    as Hc.
  assert (Hn : forall n, 0 <= num_virtual_losses_applied (tree_ fresh) n).
  { intros n. change (0 <= Fake.fn_losses
                             (Fake.read [(1%nat, Fake.fresh_node 0 0 0)] n)).
    simpl. destruct (Nat.eqb n 1); simpl; lia. }
  assert (Hcache : inference_cache_ fresh = None) by reflexivity.
  assert (Hfuel : 2 * virtual_losses (options_ fresh) <= Z.of_nat 2)
    by (vm_compute; discriminate).
  split; [exact Hc|]. split; [exact Hn|]. split; [exact Hcache|].
  split; [exact Hfuel|].
  exact (proj2 (TreeSearch_returns 2 fresh Hc Hn) Hcache Hfuel).
Defined.

Lemma ProcessLeaves_observer_witness :
  TreeSearch 8 (SetTreeSearchCallback true fresh) = Ok watched
  /\ cb_calls_ watched = [[1%nat]]
  /\ tree_search_cb_ watched = true.
Proof.
  assert (H : TreeSearch 8 (SetTreeSearchCallback true fresh) = Ok watched)
    by (apply result_or_returned; vm_compute; reflexivity).
  destruct (proj2 (ProcessLeaves_observer true fresh) 8%nat watched H)
    as [Hcalls Hcb].
  split; [exact H|]. split; [|exact Hcb].
  rewrite Hcalls. vm_compute. reflexivity.
Defined.

Lemma ProcessLeaves_scratch_witness :
  [1%nat] <> []
  /\ ProcessLeaves [1%nat] false selected = Ok (process_one selected)
  /\ List.length (symmetries_used_ (process_one selected)) = 1%nat
  /\ List.length (features_ (process_one selected)) = 1%nat
  /\ List.length (outputs_ (process_one selected)) = 1%nat
  /\ rnd_ (process_one selected) = rnd_ selected
  /\ Forall (fun sym => sym = kIdentity) (symmetries_used_ (process_one selected)).
Proof.
  assert (H1 : [1%nat] <> []) by discriminate.
  assert (H2 : ProcessLeaves [1%nat] false selected = Ok (process_one selected))
    by (apply (process_one_returned selected); vm_compute; reflexivity).
  destruct (ProcessLeaves_scratch _ false selected (process_one selected)
              H1 H2) as (Hs & Hf & Ho & Hid & _).
  destruct (Hid eq_refl) as [Hrnd Hall].
  split; [exact H1|]. split; [exact H2|]. split; [exact Hs|].
  split; [exact Hf|]. split; [exact Ho|]. split; [exact Hrnd|exact Hall].
Defined.

Lemma ProcessLeaves_counts_witness :
  inference_info_contract
  /\ ProcessLeaves [1%nat] false selected = Ok (process_one selected)
  /\ evaluations (inferences_ (process_one selected))
     = evaluations (inferences_ selected)
       + (if string_empty (inference_model_ (process_one selected)) then 0
          else Z.of_nat (List.length [1%nat]))
  /\ evaluations (inferences_ (process_one selected)) = 1.
Proof.
  pose proof (fake_inference_info_contract Fake.constant_prediction) as Hc.
  assert (H : ProcessLeaves [1%nat] false selected = Ok (process_one selected))
    by (apply (process_one_returned selected); vm_compute; reflexivity).
  split; [exact Hc|]. split; [exact H|]. split.
  - exact (ProcessLeaves_counts [1%nat] false selected (process_one selected)
             Hc H).
  - vm_compute. reflexivity.
Defined.

Lemma ProcessLeaves_model_listed_witness :
  inference_info_contract
  /\ [1%nat] <> []
  /\ ProcessLeaves [1%nat] false selected = Ok (process_one selected)
  /\ inference_model_ (process_one selected) <> EmptyString
  /\ pos_n (node_position (tree_ (process_one selected))
                          (root_ (process_one selected)))
     = pos_n (node_position (tree_ selected) (root_ selected))
  /\ back (models_used (process_one selected))
     = Some (inference_model_ (process_one selected)).
Proof.
  pose proof (fake_inference_info_contract Fake.constant_prediction) as Hc.
  assert (H1 : [1%nat] <> []) by discriminate.
  assert (H2 : ProcessLeaves [1%nat] false selected = Ok (process_one selected))
    by (apply (process_one_returned selected); vm_compute; reflexivity).
  assert (H3 : inference_model_ (process_one selected) <> EmptyString)
    by (vm_compute; discriminate).
  assert (H4 : pos_n (node_position (tree_ (process_one selected))
                                    (root_ (process_one selected)))
               = pos_n (node_position (tree_ selected) (root_ selected)))
    by (vm_compute; reflexivity).
  split; [exact Hc|]. split; [exact H1|]. split; [exact H2|].
  split; [exact H3|]. split; [exact H4|].
  exact (ProcessLeaves_model_listed [1%nat] false selected
           (process_one selected) Hc H1 H2 H3 H4).
Defined.

(** The run in numbers: the move played after the search is credited
    with model "m1". *)
Example models_used_run :
  models_used searched = ["m1"%string]
  /\ models_used fresh = []
  /\ models_used (process_one reselected) = ["m1"%string; "m2"%string].
Proof. vm_compute. repeat split. Qed.

Lemma GetModelsUsedForInference_grows_witness :
  inferences_ searched <> []
  /\ inferences_ (process_one reselected)
     = inferences_ searched
       ++ [{| model := "m2"; first_move := 0; last_move := 0;
              total_count := 1 |}]
  /\ GetModelsUsedForInference (process_one reselected)
     = (GetModelsUsedForInference searched ++ ", "
        ++ inference_part {| model := "m2"; first_move := 0; last_move := 0;
                             total_count := 1 |})%string
  /\ GetModelsUsedForInference (process_one reselected)
     = "m1(0,0), m2(0,0)"%string
  /\ GetModelsUsedForInference fresh = EmptyString.
Proof.
  assert (H1 : inferences_ searched <> []) by (vm_compute; discriminate).
  assert (H2 : inferences_ (process_one reselected)
               = inferences_ searched
                 ++ [{| model := "m2"; first_move := 0; last_move := 0;
                        total_count := 1 |}]) by (vm_compute; reflexivity).
  split; [exact H1|]. split; [exact H2|]. split.
  - exact (proj2 (GetModelsUsedForInference_grows searched)
             (process_one reselected) _ H1 H2).
  - split; vm_compute; reflexivity.
Defined.

Lemma PlayMove_outcome_witness :
  game_over (root_ fresh) (tree_ fresh) = false
  /\ 5%nat = kResign
  /\ fst (PlayMove 5%nat fresh) = true
  /\ fst (PlayMove 0%nat (snd (PlayMove kResign fresh))) = true
  /\ log_ (snd (PlayMove 5%nat fresh)) = log_ fresh
  /\ snd (PlayMove 5%nat fresh)
     = set_game (SetGameOverBecauseOfResign
                   (OtherColor (to_play (node_position (tree_ fresh)
                                                       (root_ fresh))))
                   (game_ fresh)) fresh.
Proof.
  assert (H1 : game_over (root_ fresh) (tree_ fresh) = false) by reflexivity.
  assert (H2 : 5%nat = kResign) by reflexivity.
  destruct (PlayMove_outcome 5%nat fresh) as (Hret & _ & _ & Hlog & Hresign).
  destruct (PlayMove_outcome 0%nat fresh) as (_ & _ & Hagain & _).
  assert (H3 : fst (PlayMove 5%nat fresh) = true) by (vm_compute; reflexivity).
  split; [exact H1|]. split; [exact H2|]. split; [exact H3|].
  split; [rewrite (Hagain H1); reflexivity|].
  split; [exact (Hlog H3)|exact (Hresign H1 H2)].
Defined.

(** The run in numbers: black resigns at the start of the game;
    white is recorded as the winner, no move is added, the root stays. *)
Example PlayMove_resign_run :
  match Fake.fg_over (game_ (snd (PlayMove 5%nat fresh))) with
  | Fake.OverByResign kWhite => true
  | _ => false
  end = true
  /\ num_moves (game_ (snd (PlayMove 5%nat fresh))) = 0%nat
  /\ root_ (snd (PlayMove 5%nat fresh)) = 1%nat
  /\ fst (PlayMove 0%nat fresh) = true
  /\ fst (PlayMove 4%nat fresh) = true
  /\ fst (PlayMove 6%nat fresh) = false.
Proof. vm_compute. repeat split. Qed.

Lemma PlayMove_then_UndoMove_witness :
  game_over (root_ fresh) (tree_ fresh) = false
  /\ 0%nat <> kResign
  /\ legal_move (node_position (tree_ fresh) (root_ fresh)) 0%nat = true
  /\ child_linked 0%nat fresh
  /\ fst (PlayMove 0%nat fresh) = true
  /\ fst (UndoMove (snd (PlayMove 0%nat fresh))) = true
  /\ root_ (snd (UndoMove (snd (PlayMove 0%nat fresh)))) = root_ fresh
  /\ game_ (snd (UndoMove (snd (PlayMove 0%nat fresh))))
     = Game_UndoMove (game_ (snd (PlayMove 0%nat fresh))).
Proof.
  assert (H1 : game_over (root_ fresh) (tree_ fresh) = false) by reflexivity.
  assert (H2 : 0%nat <> kResign) by discriminate.
  assert (H3 : legal_move (node_position (tree_ fresh) (root_ fresh)) 0%nat
               = true) by reflexivity.
  assert (H4 : child_linked 0%nat fresh).
  { split; [vm_compute; reflexivity|vm_compute; discriminate]. }
  split; [exact H1|]. split; [exact H2|]. split; [exact H3|].
  split; [exact H4|].
  exact (PlayMove_then_UndoMove 0%nat fresh H1 H2 H3 H4).
Defined.

Lemma SuggestMove_idle_witness :
  f_gt (seconds_per_move (options_ searched)) f_zero = false
  /\ HasFlag_kExpanded (root_ searched) (tree_ searched) = true
  /\ 0 <= 0
  /\ SuggestMove 0 0 0 false searched
     = (if ShouldResign (set_clock (snd (Now (clock_ searched))) searched)
        then Ok (kResign, set_clock (snd (Now (clock_ searched))) searched)
        else PickMove (set_clock (snd (Now (clock_ searched))) searched)).
Proof.
  assert (H1 : f_gt (seconds_per_move (options_ searched)) f_zero = false)
    by reflexivity.
  assert (H2 : HasFlag_kExpanded (root_ searched) (tree_ searched) = true)
    by (vm_compute; reflexivity).
  assert (H3 : 0 <= 0) by lia.
  split; [exact H1|]. split; [exact H2|]. split; [exact H3|].
  exact (proj2 (SuggestMove_idle 0 0 0 searched H1 H2 H3)).
Defined.

Lemma SuggestMove_answer_witness :
  SuggestMove 4 8 1 false batched = Ok (0%nat, searched)
  /\ resign_enabled (game_ batched) = false
  /\ ShouldResign searched = false
  /\ exists p2, search_frame batched p2 /\ PickMove p2 = Ok (0%nat, searched).
Proof.
  assert (H : SuggestMove 4 8 1 false batched = Ok (0%nat, searched))
    by (apply (returned_after _ batched); vm_compute; reflexivity).
  assert (He : resign_enabled (game_ batched) = false) by reflexivity.
  destruct (SuggestMove_answer 4 8 1 false batched 0%nat searched H)
    as (_ & Hpick & Hoff).
  split; [exact H|]. split; [exact He|]. split; [exact (Hoff He)|].
  exact (Hpick (Hoff He)).
Defined.

Lemma SuggestMove_frame_witness :
  SuggestMove 4 8 1 false batched = Ok (0%nat, searched)
  /\ search_frame batched searched.
Proof.
  assert (H : SuggestMove 4 8 1 false batched = Ok (0%nat, searched))
    by (apply (returned_after _ batched); vm_compute; reflexivity).
  split; [exact H|].
  exact (SuggestMove_frame 4 8 1 false batched 0%nat searched H).
Defined.

Lemma SuggestMove_time_budget_witness :
  f_gt (seconds_per_move (options_ timed)) f_zero = true
  /\ SuggestMove 4 8 0 false timed = Ok (0%nat, timed_searched)
  /\ SuggestMove 4 8 0 false timed = SuggestMove 4 8 100 false timed
  /\ exists seconds p1 p2 q,
       SuggestMove_prepare 8 false (set_clock (snd (Now (clock_ timed))) timed)
       = Ok p1
       /\ (if f_gt (time_limit (options_ timed)) f_zero
           then TimeRecommendation
                  (pos_n (node_position (tree_ p1) (root_ p1)))
                  (seconds_per_move (options_ timed))
                  (time_limit (options_ timed))
                  (decay_factor (options_ timed)) = Some seconds
           else seconds = seconds_per_move (options_ timed))
       /\ deadline_loop 8 (fst (Now (clock_ timed))) seconds p1 p2
       /\ elapsed_less (fst (Now (clock_ timed))) (fst (Now (clock_ q))) seconds
          = false
       /\ p2 = set_clock (snd (Now (clock_ q))) q
       /\ search_frame timed q
       /\ (if ShouldResign p2 then 0%nat = kResign /\ timed_searched = p2
           else PickMove p2 = Ok (0%nat, timed_searched)).
Proof.
  assert (H1 : f_gt (seconds_per_move (options_ timed)) f_zero = true)
    by reflexivity.
  assert (H2 : SuggestMove 4 8 0 false timed = Ok (0%nat, timed_searched))
    by (apply (returned_after _ timed); vm_compute; reflexivity).
  destruct (SuggestMove_time_budget 4 8 false timed H1) as [Hsame Hends].
  split; [exact H1|]. split; [exact H2|]. split; [exact (Hsame 0 100)|].
  exact (Hends 0 0%nat timed_searched H2).
Defined.

(** The run in numbers: with two seconds for the move and a clock
    that advances by one second at every reading, the forced first round is
    followed by one round of search, begun after one second; the reading
    after it shows two seconds and ends the loop.  The root has two visits,
    whatever number of readouts was asked for. *)
Example SuggestMove_time_budget_run :
  N (root_ timed) (tree_ timed) = 0
  /\ N (root_ timed_searched) (tree_ timed_searched) = 2
  /\ clock_ timed_searched = 3
  /\ N (root_ (after (SuggestMove 4 8 100 false timed) timed))
        (tree_ (after (SuggestMove 4 8 100 false timed) timed)) = 2.
Proof. vm_compute. repeat split. Qed.

End Further.

(** ** The further properties on the 5x5 board, with soft-pick *)
Section FurtherSoftPick.
#[local] Existing Instance binary32.
#[local] Existing Instance board5.
#[local] Existing Instance Fake.tree.
#[local] Existing Instance Fake.game.
#[local] Existing Instance Fake.random.

Lemma PickMove_outcome_witness :
  PickMove (BD := board5) soft_searched
  = Ok (0%nat, after (PickMove (BD := board5) soft_searched) soft_searched)
  /\ PickMove_post (BD := board5) soft_searched 0%nat
       (after (PickMove (BD := board5) soft_searched) soft_searched).
Proof.
  assert (H : PickMove (BD := board5) soft_searched
              = Ok (0%nat, after (PickMove (BD := board5) soft_searched)
                                 soft_searched))
    by (apply (returned_after _ soft_searched); vm_compute; reflexivity).
  split; [exact H|].
  exact (PickMove_outcome (BD := board5) soft_searched 0%nat _ H).
Defined.

(** The run in numbers: after four readouts the cells 0, 1 and 2 have
    one visit each; the cumulative weights are 1, 2, 3, 3, ..., 3; the sample
    is a quarter of 3 and falls on cell 0, which has a visit; the generator
    has moved on by one. *)
Example PickMove_outcome_run :
  firstn 4 (pick_cdf (BD := board5) soft_searched)
  = map Binary32.of_int [1; 2; 3; 3]
  /\ last (pick_cdf (BD := board5) soft_searched) f_zero = Binary32.of_int 3
  /\ rnd_ soft_searched = 1
  /\ rnd_ (after (PickMove (BD := board5) soft_searched) soft_searched) = 2
  /\ child_N (root_ soft_searched) (tree_ soft_searched) 0 = Binary32.of_int 1.
Proof. vm_compute. repeat split. Qed.

End FurtherSoftPick.

End Runs.
